(** * code-challenge: sum-to-n exercises, the CRUD user API and the
      scoreboard design (token validator, fraud scorer, score ledger)

    Shallow embedding of the repository's code and of the code blocks of
    its scoreboard design documents, followed by the properties proved
    about them.

    Numbers.  A JavaScript number is an IEEE-754 double.  The sum
    functions compute with integer-valued doubles, modelled as [Z] with
    the rounding of binary64 written out ([Double]).  Timestamps in
    milliseconds, ids, counts and page sizes are modelled as [Z] with
    exact arithmetic; they stay far below 2^53.  Risk scores are modelled
    as exact rationals [Q]. *)

From Stdlib Require Import ZArith QArith Qround Qminmax Lia Lqa Bool Floats.
From stdpp Require Import base option list sorting gmap strings.
From Equations Require Import Equations.

Local Open Scope Z_scope.

(** ** JavaScript values reaching a function typed [number] *)

Module Js.

(** The values the benchmark feeds to the functions: finite numbers,
    [NaN], the two infinities, strings, [null] and [undefined]. *)
Inductive value : Type :=
| Num (q : Q)
| NaN
| Infinity (negative : bool)
| Str (s : string)
| Null
| Undefined.

(** [Number.isInteger(v)]: [v] has type number, is finite and has no
    fractional part. *)
Definition Number_isInteger (v : value) : bool :=
  match v with
  | Num q => Pos.eqb (Qden (Qred q)) 1
  | _ => false
  end.

(** [v < 0] for a value of type number.  The validation only evaluates it
    after [Number.isInteger(v)] held ([||] short-circuits). *)
Definition lt_zero (v : value) : bool :=
  match v with
  | Num q => negb (Qle_bool 0 q)
  | Infinity negative => negative
  | _ => false
  end.

(** The integer an integral number denotes. *)
Definition to_Z (v : value) : Z :=
  match v with
  | Num q => Qfloor q
  | _ => 0
  end.

Definition of_Z (z : Z) : value := Num (inject_Z z).

(** A non-negative integer, as a mathematical statement about the value:
    a finite number equal to some integer [z >= 0]. *)
Definition nonneg_integer (v : value) : Prop :=
  exists q z, v = Num q /\ (q == inject_Z z)%Q /\ 0 <= z.

(** A call either returns a value or throws an [Error] with a message. *)
Inductive completion (A : Type) : Type :=
| Return (a : A)
| Throw (message : string).
Arguments Return {A} a.
Arguments Throw {A} message.

Definition bind {A B} (c : completion A) (k : A -> completion B) : completion B :=
  match c with
  | Return a => k a
  | Throw m => Throw m
  end.


(** A call that may also never return: it returns a value, throws an
    error with a message, or goes on for ever. *)
Inductive run (A : Type) : Type :=
| Returns (a : A)
| Throws (message : string)
| Loops.
Arguments Returns {A} a.
Arguments Throws {A} message.
Arguments Loops {A}.

(** The message of the [RangeError] the engine throws when a call finds
    no room on the call stack. *)
Definition msg_stack : string := "Maximum call stack size exceeded".

End Js.

(** ** Integer-valued binary64 numbers *)

Module Double.

(** Every integer of magnitude up to 2^53 is a double; beyond, the
    doubles are the multiples of [ulp], a power of two.  An addition or a
    multiplication gives the exact result rounded to the nearest double,
    ties going to the even significand, and an infinity from 2^1024 on.
    The two zeros are not told apart. *)

Definition two53 : Z := 9007199254740992.

Definition ulp (z : Z) : Z := 2 ^ (Z.log2 (Z.abs z) - 52).

Definition round (z : Z) : Z :=
  if Z.abs z <=? two53 then z
  else
    let u := ulp z in
    let q := z / u in
    let r := z mod u in
    if 2 * r <? u then q * u
    else if u <? 2 * r then (q + 1) * u
    else if Z.even q then q * u else (q + 1) * u.

Inductive number : Type :=
| Finite (z : Z)
| Infinite (negative : bool)
| NotANumber.

Definition huge : Z := 2 ^ 1024.

(** The double an exact integer result becomes. *)
Definition rounded (z : Z) : number :=
  let r := round z in
  if huge <=? r then Infinite false
  else if r <=? - huge then Infinite true
  else Finite r.

(** [a + b]. *)
Definition add (a b : number) : number :=
  match a, b with
  | Finite x, Finite y => rounded (x + y)
  | NotANumber, _ | _, NotANumber => NotANumber
  | Infinite s, Finite _ | Finite _, Infinite s => Infinite s
  | Infinite s, Infinite t => if Bool.eqb s t then Infinite s else NotANumber
  end.

(** [(n * (n + 1)) / 2] on a finite integer [n].  The product is even or
    at least 2^53, so the double it becomes is an even integer and
    halving it is exact. *)
Definition half (a : number) : number :=
  match a with
  | Finite z => Finite (z / 2)
  | other => other
  end.

Definition formula (n : Z) : number := half (rounded (n * round (n + 1))).

End Double.

(** ** Sum to n, TypeScript: [sum.ts] *)

Module SumTs.
Import Js Double.

Definition msg_input : string := "Input must be a non-negative integer".
Definition msg_accumulator : string := "Accumulator must be a non-negative integer".
(** [for (let i = 1; i <= n; i++) { sum += i; }] entered with the given
    [i] and [sum].  At 2^53 the increment no longer changes [i], and the
    loop goes on for ever. *)
Equations? for_loop (n i : Z) (sum : number) : run number
  by wf (Z.to_nat (n + 1 - i)) lt :=
  for_loop n i sum with Z_le_dec i n := {
    | right _ := Returns sum;
    | left _ with Z_lt_dec i (round (i + 1)) := {
      | left _ := for_loop n (round (i + 1)) (add sum (Finite i));
      | right _ := Loops } }.
Proof. lia. Qed.

(** The bodies after [Number.isInteger] held, on the integer [n].
    [depth] is the number of nested calls the call stack still has room
    for when the function is entered. *)

Definition sum_to_n_a_int (n : Z) : run number :=
  if n <? 0 then Throws msg_input
  else for_loop n 1 (Finite 0).

Definition sum_to_n_b_int (n : Z) : run number :=
  if n <? 0 then Throws msg_input
  else Returns (formula n).

Fixpoint sum_to_n_c_int (depth : nat) (n : Z) : run number :=
  if n <? 0 then Throws msg_input
  else if n <=? 0 then Returns (Finite 0)
  else if n =? 1 then Returns (Finite 1)
  else if n >? 10000 then for_loop n 1 (Finite 0)
  else
    match depth with
    | O => Throws msg_stack
    | S depth =>
        match sum_to_n_c_int depth (n - 1) with
        | Returns r => Returns (add (Finite n) r)
        | other => other
        end
    end.

(** The recursive call validates its accumulator again: an infinite sum
    is not an integer. *)
Fixpoint sum_to_n_c_optimized_int (depth : nat) (n accumulator : Z) : run number :=
  if n <? 0 then Throws msg_input
  else if accumulator <? 0 then Throws msg_accumulator
  else if n <=? 0 then Returns (Finite accumulator)
  else if n >? 50000 then Returns (add (Finite accumulator) (formula n))
  else
    match depth with
    | O => Throws msg_stack
    | S depth =>
        match add (Finite accumulator) (Finite n) with
        | Finite sum => sum_to_n_c_optimized_int depth (n - 1) sum
        | _ => Throws msg_accumulator
        end
    end.

(** The exported functions, on any value the caller passes. *)

Definition sum_to_n_a (n : value) : run number :=
  if negb (Number_isInteger n) || lt_zero n then Throws msg_input
  else sum_to_n_a_int (to_Z n).

Definition sum_to_n_b (n : value) : run number :=
  if negb (Number_isInteger n) || lt_zero n then Throws msg_input
  else sum_to_n_b_int (to_Z n).

Definition sum_to_n_c (depth : nat) (n : value) : run number :=
  if negb (Number_isInteger n) || lt_zero n then Throws msg_input
  else sum_to_n_c_int depth (to_Z n).

(** [accumulator: number = 0]: an omitted (or [undefined]) second argument
    takes the default. *)
Definition default_accumulator (accumulator : option value) : value :=
  match accumulator with
  | None | Some Undefined => of_Z 0
  | Some v => v
  end.

Definition sum_to_n_c_optimized (depth : nat) (n : value)
  (accumulator : option value) : run number :=
  let acc := default_accumulator accumulator in
  if negb (Number_isInteger n) || lt_zero n then Throws msg_input
  else if negb (Number_isInteger acc) || lt_zero acc then Throws msg_accumulator
  else sum_to_n_c_optimized_int depth (to_Z n) (to_Z acc).

End SumTs.

(** ** Sum to n, JavaScript: [problem1/sum_to_n/sum.js] (no input
    validation), on integer arguments *)

Module SumJs.
Import Js Double.

Definition for_loop := SumTs.for_loop.

Definition sum_to_n_a (n : Z) : run number := for_loop n 1 (Finite 0).

Definition sum_to_n_b (n : Z) : number := formula n.

Fixpoint sum_to_n_c (depth : nat) (n : Z) : run number :=
  if n <=? 0 then Returns (Finite 0)
  else if n =? 1 then Returns (Finite 1)
  else if n >? 10000 then for_loop n 1 (Finite 0)
  else
    match depth with
    | O => Throws msg_stack
    | S depth =>
        match sum_to_n_c depth (n - 1) with
        | Returns r => Returns (add (Finite n) r)
        | other => other
        end
    end.

Fixpoint sum_to_n_c_optimized (depth : nat) (n : Z) (accumulator : number)
  : run number :=
  if n <=? 0 then Returns accumulator
  else if n >? 50000 then Returns (add accumulator (formula n))
  else
    match depth with
    | O => Throws msg_stack
    | S depth => sum_to_n_c_optimized depth (n - 1) (add accumulator (Finite n))
    end.

End SumJs.

(** ** Scoreboard design, [problem6/SECURITY.md]: action token validation *)

Module ActionToken.
Import Js.

(** The payload [generateActionToken] signs; [timestamp] is [Date.now()],
    in milliseconds. *)
Record Payload : Type := mkPayload {
  action_id : string;
  user_id : string;
  action_type : string;
  score_increment : Z;
  timestamp : Z;
  nonce : string }.

(** [{ ...payload, signature }]. *)
Record Token : Type := mkToken {
  payload : Payload;
  signature : string }.

(** What a validation can throw: [new SecurityError(message, code)], or
    the [RangeError] of [crypto.timingSafeEqual] on buffers of different
    lengths. *)
Inductive Error : Type :=
| SecurityError (message code : string)
| RangeError.

Inductive outcome : Type :=
| Accepted (p : Payload)
| Rejected (e : Error).

Definition invalid_signature : Error := SecurityError "Invalid signature" "INVALID_SIGNATURE".
Definition token_expired : Error := SecurityError "Token expired" "TOKEN_EXPIRED".
Definition replay_attack : Error := SecurityError "Token already used" "REPLAY_ATTACK".

(** Redis as the validator uses it: string keys, each holding a value and
    the instant (milliseconds) at which it expires. *)
Abbreviation Redis := (gmap string (string * Z)).

(** [redis.get(key)]: the value, or [null] once the key has expired. *)
Definition redis_get (now : Z) (key : string) (r : Redis) : option string :=
  match r !! key with
  | Some (v, expires) => if now <? expires then Some v else None
  | None => None
  end.

(** [redis.setex(key, seconds, value)]. *)
Definition redis_setex (now : Z) (key : string) (seconds : Z) (v : string)
  (r : Redis) : Redis :=
  <[key := (v, now + seconds * 1000)]> r.

(** Truthiness of what [redis.get] answers: [null] and the empty string
    are falsy. *)
Definition truthy (v : option string) : bool :=
  match v with
  | Some s => negb (String.eqb s EmptyString)
  | None => false
  end.

Definition nonceKey (p : Payload) : string := "nonce:" +:+ nonce p.

Section Validator.

(** [createHMAC('sha256', actionSecret).update(JSON.stringify(payload))
    .digest('hex')]. *)
Variable expectedSignature : Payload -> string.

(** [crypto.timingSafeEqual(Buffer.from(a, 'hex'), Buffer.from(b, 'hex'))];
    [None] when it throws because the buffers differ in length. *)
Variable timingSafeEqual : string -> string -> option bool.

(** The signature of a token verifies. *)
Definition verifies (token : Token) : Prop :=
  timingSafeEqual (signature token) (expectedSignature (payload token)) = Some true.

(** [validateActionToken(token)] called at instant [now] with nothing
    running in between its steps: the outcome and the Redis contents it
    leaves. *)
Definition validateActionToken (now : Z) (token : Token) (r : Redis)
  : outcome * Redis :=
  let p := payload token in
  match timingSafeEqual (signature token) (expectedSignature p) with
  | None => (Rejected RangeError, r)
  | Some false => (Rejected invalid_signature, r)
  | Some true =>
      let tokenAge := now - timestamp p in
      if tokenAge >? 5 * 60 * 1000 then (Rejected token_expired, r)
      else
        let nonceExists := redis_get now (nonceKey p) r in
        if truthy nonceExists then (Rejected replay_attack, r)
        else (Accepted p, redis_setex now (nonceKey p) 600 "1" r)
  end.

(** The same function as the event loop runs it.  It suspends at each
    [await]; a call is either not started, waiting to resume with the
    answer [redis.get] gave, or finished. *)
Inductive call : Type :=
| NotStarted (token : Token)
| GotNonce (p : Payload) (nonceExists : option string)
| Finished (o : outcome).

(** One turn of a call at instant [now]: from the start to the answer of
    [redis.get], or from there through [redis.setex] to the return. *)
Definition resume (now : Z) (c : call) (r : Redis) : call * Redis :=
  match c with
  | NotStarted token =>
      let p := payload token in
      match timingSafeEqual (signature token) (expectedSignature p) with
      | None => (Finished (Rejected RangeError), r)
      | Some false => (Finished (Rejected invalid_signature), r)
      | Some true =>
          let tokenAge := now - timestamp p in
          if tokenAge >? 5 * 60 * 1000 then (Finished (Rejected token_expired), r)
          else (GotNonce p (redis_get now (nonceKey p) r), r)
      end
  | GotNonce p nonceExists =>
      if truthy nonceExists then (Finished (Rejected replay_attack), r)
      else (Finished (Accepted p), redis_setex now (nonceKey p) 600 "1" r)
  | Finished o => (Finished o, r)
  end.

(** Two calls in flight over one Redis, and a schedule saying which call
    takes the next turn and when. *)
Record InFlight : Type := mkInFlight {
  first_call : call;
  second_call : call;
  redis : Redis }.

Inductive turn : Type := First | Second.

Definition take_turn (t : turn) (now : Z) (w : InFlight) : InFlight :=
  match t with
  | First =>
      let '(c, r) := resume now (first_call w) (redis w) in
      mkInFlight c (second_call w) r
  | Second =>
      let '(c, r) := resume now (second_call w) (redis w) in
      mkInFlight (first_call w) c r
  end.

Fixpoint run (schedule : list (turn * Z)) (w : InFlight) : InFlight :=
  match schedule with
  | [] => w
  | (t, now) :: rest => run rest (take_turn t now w)
  end.

End Validator.

End ActionToken.

(** ** Scoreboard design: the score ledger *)

Module ScoreLedger.

(** Modelled from the spec: the Score Ledger.  The repository holds no
    implementation of it (the scoreboard is design documents only), so the
    types and the operation below follow spec sections 3, 4.3 and 7: an
    increment is applied in one atomic unit that updates the user's score
    and appends one history entry; if the storage becomes unavailable
    before the unit completes, the whole update fails with a retryable
    error. *)
Record ScoreHistoryEntry : Type := mkEntry {
  entry_user : string;
  old_score : Z;
  new_score : Z;
  increment : Z;
  entry_action_type : string;
  entry_timestamp : Z }.

(** Modelled from the spec: the authoritative store of section 3, the
    current score of each user and the append-only history log. *)
Record Ledger : Type := mkLedger {
  scores : gmap string Z;
  history : list ScoreHistoryEntry }.

Definition score (l : Ledger) (user : string) : Z := default 0 (scores l !! user).

Definition empty : Ledger := mkLedger ∅ [].

(** Modelled from the spec: the two writes an atomic unit is made of, the
    score mutation and the history entry. *)
Inductive Write : Type :=
| SetScore (user : string) (value : Z)
| AppendHistory (e : ScoreHistoryEntry).

Definition perform (w : Write) (l : Ledger) : Ledger :=
  match w with
  | SetScore user value => mkLedger (<[user := value]> (scores l)) (history l)
  | AppendHistory e => mkLedger (scores l) (history l ++ [e])
  end.

(** Modelled from the spec: the atomic unit.  The writes are performed in
    order on a working copy; [available k] tells whether the storage
    answers the [k]-th operation of the unit.  [None] when the unit cannot
    complete. *)
Fixpoint perform_all (available : nat -> bool) (k : nat) (ws : list Write)
  (work : Ledger) : option Ledger :=
  match ws with
  | [] => Some work
  | w :: rest =>
      if available k then perform_all available (S k) rest (perform w work)
      else None
  end.

(** Modelled from the spec: the working copy becomes the observable state
    only when every write and the final commit went through; otherwise the
    observable state is the one before the unit. *)
Definition atomically (available : nat -> bool) (ws : list Write) (l : Ledger)
  : bool * Ledger :=
  match perform_all available 0 ws l with
  | Some work => if available (length ws) then (true, work) else (false, l)
  | None => (false, l)
  end.

Inductive UpdateResult : Type :=
| Applied (e : ScoreHistoryEntry)
| TransientStorageError.

(** Modelled from the spec: applying a validated, risk-cleared increment. *)
Definition applyIncrement (available : nat -> bool) (user : string)
  (inc : Z) (action : string) (now : Z) (l : Ledger) : UpdateResult * Ledger :=
  let old := score l user in
  let e := mkEntry user old (old + inc) inc action now in
  match atomically available [SetScore user (old + inc); AppendHistory e] l with
  | (true, l') => (Applied e, l')
  | (false, l') => (TransientStorageError, l')
  end.

(** Modelled from the spec: one update attempt of a run, that is who,
    how much, and how the storage behaves during it. *)
Record Attempt : Type := mkAttempt {
  attempt_available : nat -> bool;
  attempt_user : string;
  attempt_increment : Z;
  attempt_action : string;
  attempt_time : Z }.

Definition attempt_step (l : Ledger) (a : Attempt) : Ledger :=
  snd (applyIncrement (attempt_available a) (attempt_user a)
         (attempt_increment a) (attempt_action a) (attempt_time a) l).

(** Modelled from the spec: the ledger after a sequence of attempts; per
    section 5 the updates of one user are serialized, so the attempts act
    one after the other. *)
Definition after_attempts (attempts : list Attempt) (l : Ledger) : Ledger :=
  fold_left attempt_step attempts l.

(** The sum of the increments the log records for a user. *)
Definition logged_total (user : string) (h : list ScoreHistoryEntry) : Z :=
  fold_right Z.add 0
    (map increment (filter (fun e => entry_user e = user) h)).

(** Every user's score is the sum of the increments logged for them. *)
Definition consistent (l : Ledger) : Prop :=
  forall user, score l user = logged_total user (history l).

End ScoreLedger.

(** ** Scoreboard design, [problem6/SECURITY.md]: fraud detection engine *)

Module Fraud.
Import Js.
Local Open Scope Q_scope.

Definition Qltb (x y : Q) : bool := negb (Qle_bool y x).

(** The row the frequency query returns: [COUNT( * )] and the average
    interval in seconds, [NULL] when fewer than two rows are counted. *)
Record FrequencyRow : Type := mkFrequencyRow {
  count : Z;
  avg_interval : option Q }.

(** [avg_interval && avg_interval < bound]: [null] and [0] are falsy. *)
Definition interval_below (avg_interval : option Q) (bound : Q) : bool :=
  match avg_interval with
  | Some a => negb (Qeq_bool a 0) && Qltb a bound
  | None => false
  end.

Definition analyzeFrequency (row : FrequencyRow) : Q :=
  if (count row >? 20)%Z then 0.9
  else if (count row >? 10)%Z then 0.7
  else if (count row >? 5)%Z then 0.4
  else if interval_below (avg_interval row) 5 then 0.8
  else if interval_below (avg_interval row) 15 then 0.5
  else 0.1.

(** A row of [score_history] as the pattern query selects it. *)
Record HistoryRow : Type := mkHistoryRow {
  score_increment : Z;
  action_type : string }.

(** [Math.max(...increments)] on a non-empty list. *)
Definition Math_max (first : Z) (rest : list Z) : Z := fold_left Z.max rest first.

Definition analyzeScorePattern (rows : list HistoryRow) (scoreIncrement : Z) : Q :=
  match map score_increment rows with
  | [] => 0.1
  | first :: rest =>
      let increments := first :: rest in
      let avgIncrement :=
        inject_Z (fold_left Z.add increments 0%Z)
        / inject_Z (Z.of_nat (length increments)) in
      let maxIncrement := Math_max first rest in
      if (scoreIncrement >? maxIncrement * 2)%Z then 0.9
      else if Qltb (avgIncrement * 5) (inject_Z scoreIncrement) then 0.7
      else
        let uniqueIncrements : gset Z := list_to_set increments in
        if (size uniqueIncrements =? 1)%nat && (10 <? length increments)%nat
        then 0.8
        else 0.1
  end.

Record Metadata : Type := mkMetadata {
  current_action_type : string }.

(** [a / b < bound] on numbers: a division by zero gives [NaN] (never
    below anything) or an infinity with the sign of [a]. *)
Definition quotient_below (a b : Z) (bound : Q) : bool :=
  if (b =? 0)%Z then (a <? 0)%Z
  else Qltb (inject_Z a / inject_Z b) bound.

(** What [JSON.parse] answers on the stored text: [null], or an object,
    of which the model keeps the own properties, each key once, with the
    integer counts the design stores under them. *)
Inductive Parsed : Type :=
| JsonNull
| JsonObject (own : list (string * Z)).

(** The members every object inherits from [Object.prototype]. *)
Definition Object_prototype : list string :=
  ["constructor"; "__defineGetter__"; "__defineSetter__"; "hasOwnProperty";
   "__lookupGetter__"; "__lookupSetter__"; "isPrototypeOf";
   "propertyIsEnumerable"; "toString"; "valueOf"; "__proto__";
   "toLocaleString"].

Fixpoint own_property (actionTypes : list (string * Z)) (key : string)
  : option Z :=
  match actionTypes with
  | [] => None
  | (k, v) :: rest => if String.eqb k key then Some v else own_property rest key
  end.

(** [actionTypes[key] || 0] on the parsed object: the own count; else,
    for a name of [Object.prototype], the inherited member, which is
    truthy and not a number ([None]); else [undefined || 0]. *)
Definition property (actionTypes : list (string * Z)) (key : string)
  : option Z :=
  match own_property actionTypes key with
  | Some v => Some v
  | None => if existsb (String.eqb key) Object_prototype then None else Some 0%Z
  end.

Section Engine.

(** [JSON.parse] of the stored action-type counts; [None] when it throws. *)
Variable JSON_parse : string -> option Parsed.

Definition syntax_error : string := "SyntaxError".
(** Reading a property of [null]. *)
Definition type_error : string := "TypeError".

(** [behavior] is the hash [redis.hgetall] returns, empty for a user
    never seen.  An inherited member divided by the total is [NaN], which
    is below no threshold. *)
Definition analyzeBehavior (behavior : gmap string string) (metadata : Metadata)
  : completion Q :=
  match behavior !! "action_types" with
  | None => Return 0.2
  | Some EmptyString => Return 0.2
  | Some json =>
      match JSON_parse json with
      | None => Throw syntax_error
      | Some JsonNull => Throw type_error
      | Some (JsonObject actionTypes) =>
          let totalActions := fold_left Z.add (map snd actionTypes) 0%Z in
          match property actionTypes (current_action_type metadata) with
          | Some actionFrequency =>
              if quotient_below actionFrequency totalActions 0.05 then Return 0.6
              else if quotient_below actionFrequency totalActions 0.1 then Return 0.3
              else Return 0.1
          | None => Return 0.1
          end
      end
  end.

Inductive Recommendation : Type := BLOCK | CHALLENGE | MONITOR | ALLOW.

Definition getRecommendation (riskScore : Q) : Recommendation :=
  if Qle_bool 0.8 riskScore then BLOCK
  else if Qle_bool 0.6 riskScore then CHALLENGE
  else if Qle_bool 0.4 riskScore then MONITOR
  else ALLOW.

Inductive FactorType : Type := FREQUENCY | PATTERN | BEHAVIOR | DEVICE | TIME.

Record RiskFactor : Type := mkRiskFactor {
  type : FactorType;
  score : Q }.

Record RiskAssessment : Type := mkRiskAssessment {
  totalRiskScore : Q;
  riskFactors : list RiskFactor;
  recommendation : Recommendation }.

(** What the engine reads about a user: the answers of its two database
    queries and of [redis.hgetall]. *)
Record Stores : Type := mkStores {
  frequency_query : string -> FrequencyRow;
  history_query : string -> list HistoryRow;
  behavior_hash : string -> gmap string string }.

(** The design calls [analyzeDevice] and [analyzeTimePatterns] but gives
    no body for them. *)
Variable analyzeDevice : string -> Metadata -> Q.
Variable analyzeTimePatterns : string -> Q.

Definition assessRisk (stores : Stores) (userId : string) (scoreIncrement : Z)
  (metadata : Metadata) : completion RiskAssessment :=
  let riskFactors := [] in
  let totalRiskScore := 0 in
  let frequencyRisk := analyzeFrequency (frequency_query stores userId) in
  let riskFactors := riskFactors ++ [mkRiskFactor FREQUENCY frequencyRisk] in
  let totalRiskScore := totalRiskScore + frequencyRisk * 0.3 in
  let patternRisk := analyzeScorePattern (history_query stores userId) scoreIncrement in
  let riskFactors := riskFactors ++ [mkRiskFactor PATTERN patternRisk] in
  let totalRiskScore := totalRiskScore + patternRisk * 0.25 in
  bind (analyzeBehavior (behavior_hash stores userId) metadata) (fun behaviorRisk =>
  let riskFactors := riskFactors ++ [mkRiskFactor BEHAVIOR behaviorRisk] in
  let totalRiskScore := totalRiskScore + behaviorRisk * 0.2 in
  let deviceRisk := analyzeDevice userId metadata in
  let riskFactors := riskFactors ++ [mkRiskFactor DEVICE deviceRisk] in
  let totalRiskScore := totalRiskScore + deviceRisk * 0.15 in
  let timeRisk := analyzeTimePatterns userId in
  let riskFactors := riskFactors ++ [mkRiskFactor TIME timeRisk] in
  let totalRiskScore := totalRiskScore + timeRisk * 0.1 in
  Return (mkRiskAssessment (Qmin totalRiskScore 1.0) riskFactors
            (getRecommendation totalRiskScore))).

(** A user with no recorded score history: no row in [score_history]
    (so the frequency query counts nothing) and no behaviour hash. *)
Definition new_user (stores : Stores) (userId : string) : Prop :=
  frequency_query stores userId = mkFrequencyRow 0 None /\
  history_query stores userId = [] /\
  behavior_hash stores userId !! "action_types" = None.

End Engine.

(** A sub-score or a total within [0, 1]. *)
Definition unit_interval (q : Q) : Prop := 0 <= q /\ q <= 1.

(** The weighted sum before clamping, in the order the code accumulates it. *)
Definition weighted (fr p b d t : Q) : Q :=
  0 + fr * 0.3 + p * 0.25 + b * 0.2 + d * 0.15 + t * 0.1.

(** The accumulation of [assessRisk] in binary64 arithmetic, as the
    JavaScript engine performs it. *)
#[warnings="-inexact-float"]
Definition weighted_binary64 (fr p b d t : float) : float :=
  (0 + fr * 0.3 + p * 0.25 + b * 0.2 + d * 0.15 + t * 0.1)%float.

End Fraud.

(** ** CRUD API, [problem5]: the user model over SQLite *)

Module Crud.
Import Js.

(** A row of [users], also the [User] object the API returns;
    timestamps as instants. *)
Record User : Type := mkUser {
  id : Z;
  name : string;
  email : string;
  age : option Z;
  createdAt : Z;
  updatedAt : Z }.

(** The object [create] resolves with.  It is not the stored row: it
    carries the age as it was given and, as timestamps, the two strings
    [new Date().toISOString()] returned, where the row holds SQLite's
    [CURRENT_TIMESTAMP]. *)
Record CreatedUser : Type := mkCreated {
  created_id : Z;
  created_name : string;
  created_email : string;
  created_age : option Z;
  created_createdAt : string;
  created_updatedAt : string }.

Record CreateUserRequest : Type := mkCreate {
  create_name : string;
  create_email : string;
  create_age : option Z }.

Record UpdateUserRequest : Type := mkUpdate {
  update_name : option string;
  update_email : option string;
  update_age : option Z }.

Record QueryFilters : Type := mkFilters {
  page : option Z;
  limit : option Z;
  filter_name : option string;
  filter_email : option string;
  minAge : option Z;
  maxAge : option Z }.

Record Pagination : Type := mkPagination {
  pagination_page : Z;
  pagination_limit : Z;
  total : Z;
  totalPages : Z;
  hasNext : bool;
  hasPrev : bool }.

Record PaginatedResponse : Type := mkPaginated {
  data : list User;
  pagination : Pagination }.

(** What a rejected promise carries: an [Error] with a message and, for
    SQLite errors, a code. *)
Record Failure : Type := mkFailure {
  message : string;
  code : option string }.

Inductive settled (A : Type) : Type :=
| Resolved (a : A)
| Rejected (e : Failure).
Arguments Resolved {A} a.
Arguments Rejected {A} e.

(** The process and its database: whether [database.getDatabase()] gave a
    handle, the table, the AUTOINCREMENT sequence, the clock, for each
    coming statement whether SQLite fails it with an I/O error, and the
    number of statements sent so far. *)
Record World : Type := mkWorld {
  connected : bool;
  users : list User;
  last_id : Z;
  clock : Z;
  failing : list bool;
  queries : nat }.

Definition with_table (w : World) (rows : list User) (seq : Z) : World :=
  mkWorld (connected w) rows seq (clock w) (failing w) (queries w).

Definition M (A : Type) : Type := World -> settled A * World.

Definition not_connected : Failure := mkFailure "Database not connected" None.
Definition no_fields : Failure := mkFailure "No fields to update" None.
Definition io_error : Failure := mkFailure "SQLITE_IOERR: disk I/O error" (Some "SQLITE_IOERR").
Definition unique_violation : Failure :=
  mkFailure "SQLITE_CONSTRAINT: UNIQUE constraint failed: users.email"
    (Some "SQLITE_CONSTRAINT").

(** One call of [db.run], [db.get] or [db.all]: one statement sent to
    SQLite, which either fails it or executes it on the table. *)
Definition statement {A} (exec : World -> settled A * World) : M A :=
  fun w =>
    let sent := mkWorld (connected w) (users w) (last_id w) (clock w)
                  (tail (failing w)) (S (queries w)) in
    match failing w with
    | true :: _ => (Rejected io_error, sent)
    | _ => exec sent
    end.

(** Awaiting a promise and going on with its value; a rejection
    propagates. *)
Definition and_then {A B} (m : M A) (k : A -> M B) : M B :=
  fun w =>
    match m w with
    | (Resolved a, w') => k a w'
    | (Rejected e, w') => (Rejected e, w')
    end.

(** [x || fallback] on a number that may be absent: [undefined] and [0]
    are falsy. *)
Definition or_number (x : option Z) (fallback : Z) : Z :=
  match x with
  | Some v => if v =? 0 then fallback else v
  | None => fallback
  end.

(** [if (s)] on a string that may be absent. *)
Definition present (s : option string) : option string :=
  match s with
  | Some EmptyString => None
  | other => other
  end.

Definition email_taken (e : string) (rows : list User) : bool :=
  existsb (fun u => String.eqb (email u) e) rows.

Definition find_id (i : Z) (rows : list User) : option User :=
  find (fun u => id u =? i) rows.

Section Model.

(** SQLite's [text LIKE pattern]. *)
Variable LIKE : string -> string -> bool.

(** [createdISO] and [updatedISO] are what the two calls of
    [new Date().toISOString()] return. *)
Definition UserModel_create (createdISO updatedISO : string)
  (userData : CreateUserRequest) : M CreatedUser :=
  fun w =>
    if negb (connected w) then (Rejected not_connected, w)
    else
      statement (fun w =>
        if email_taken (create_email userData) (users w)
        then (Rejected unique_violation, w)
        else
          let lastID := last_id w + 1 in
          let stored_age :=
            match create_age userData with
            | Some 0 => None
            | other => other
            end in
          let row := mkUser lastID (create_name userData)
                       (create_email userData) stored_age (clock w) (clock w) in
          (Resolved (mkCreated lastID (create_name userData)
                       (create_email userData) (create_age userData)
                       createdISO updatedISO),
           with_table w (users w ++ [row]) lastID)) w.

Definition UserModel_findById (i : Z) : M (option User) :=
  fun w =>
    if negb (connected w) then (Rejected not_connected, w)
    else statement (fun w => (Resolved (find_id i (users w)), w)) w.

(** The WHERE clause [findAll] builds from the filters. *)
Definition where_clause (filters : QueryFilters) (u : User) : bool :=
  match present (filter_name filters) with
  | Some n => LIKE (name u) ("%" +:+ n +:+ "%")
  | None => true
  end
  && match present (filter_email filters) with
     | Some e => LIKE (email u) ("%" +:+ e +:+ "%")
     | None => true
     end
  && match minAge filters with
     | Some m => match age u with Some a => m <=? a | None => false end
     | None => true
     end
  && match maxAge filters with
     | Some m => match age u with Some a => a <=? m | None => false end
     | None => true
     end.

(** [ORDER BY created_at DESC].  Among rows of equal [created_at]
    SQLite, which walks the index on [created_at] backwards, answers the
    larger rowid first. *)
Definition newer_first (a b : User) : Prop :=
  createdAt b < createdAt a \/ (createdAt b = createdAt a /\ id b <= id a).

#[global] Instance newer_first_dec : RelDecision newer_first.
Proof. intros a b. unfold newer_first. apply _. Defined.

(** [ORDER BY created_at DESC LIMIT ? OFFSET ?]; for SQLite a negative
    LIMIT means no limit and a negative OFFSET means none. *)
Definition order_limit_offset (rows : list User) (lim off : Z) : list User :=
  let sorted := merge_sort newer_first rows in
  let rest := drop (Z.to_nat off) sorted in
  if lim <? 0 then rest else take (Z.to_nat lim) rest.

(** [Math.ceil(total / limit)] for a non-zero [limit]. *)
Definition ceil_div (a b : Z) : Z := - ((- a) / b).

Definition effective_limit (filters : QueryFilters) : Z :=
  Z.min (or_number (limit filters) 10) 50.

Definition UserModel_findAll (filters : QueryFilters) : M PaginatedResponse :=
  fun w =>
    if negb (connected w) then (Rejected not_connected, w)
    else
      let page := or_number (page filters) 1 in
      let limit := effective_limit filters in
      let offset := (page - 1) * limit in
      and_then
        (statement (fun w =>
           (Resolved (Z.of_nat (length (filter (fun u => where_clause filters u = true)
                                          (users w)))), w)))
        (fun total =>
           let totalPages := ceil_div total limit in
           and_then
             (statement (fun w =>
                (Resolved (order_limit_offset
                             (filter (fun u => where_clause filters u = true) (users w))
                             limit offset), w)))
             (fun rows w =>
                (Resolved (mkPaginated rows
                             (mkPagination page limit total totalPages
                                (page <? totalPages) (1 <? page))), w))) w.

Definition apply_update (userData : UpdateUserRequest) (now : Z) (u : User) : User :=
  mkUser (id u)
    (default (name u) (update_name userData))
    (default (email u) (update_email userData))
    (match update_age userData with Some a => Some a | None => age u end)
    (createdAt u) now.

Definition UserModel_update (i : Z) (userData : UpdateUserRequest)
  : M (option User) :=
  fun w =>
    if negb (connected w) then (Rejected not_connected, w)
    else
      match update_name userData, update_email userData, update_age userData with
      | None, None, None => (Rejected no_fields, w)
      | _, _, _ =>
          and_then
            (statement (fun w =>
               match find_id i (users w) with
               | None => (Resolved 0%nat, w)
               | Some _ =>
                   match update_email userData with
                   | Some e =>
                       if email_taken e (filter (fun u => id u <> i) (users w))
                       then (Rejected unique_violation, w)
                       else (Resolved 1%nat,
                             with_table w
                               (map (fun u => if id u =? i
                                              then apply_update userData (clock w) u
                                              else u) (users w))
                               (last_id w))
                   | None =>
                       (Resolved 1%nat,
                        with_table w
                          (map (fun u => if id u =? i
                                         then apply_update userData (clock w) u
                                         else u) (users w))
                          (last_id w))
                   end
               end))
            (fun changes =>
               match changes with
               | O => fun w => (Resolved None, w)
               | S _ => UserModel_findById i
               end) w
      end.

Definition UserModel_delete (i : Z) : M bool :=
  fun w =>
    if negb (connected w) then (Rejected not_connected, w)
    else
      statement (fun w =>
        let kept := filter (fun u => id u <> i) (users w) in
        (Resolved (length kept <? length (users w))%nat,
         with_table w kept (last_id w))) w.

Definition UserModel_exists (e : string) (excludeId : option Z) : M bool :=
  fun w =>
    if negb (connected w) then (Rejected not_connected, w)
    else
      statement (fun w =>
        let excluded := or_number excludeId 0 in
        let candidates :=
          if excluded =? 0 then users w
          else filter (fun u => id u <> excluded) (users w) in
        (Resolved (email_taken e candidates), w)) w.

End Model.

(** *** Validation middleware and controller *)

(** A query parameter as Joi sees it under [convert: true]: [Num q] for a
    number or a string that converts to the number [q], anything else for
    a value that does not convert. *)
Record RawQuery : Type := mkRawQuery {
  raw_page : option value;
  raw_limit : option value;
  raw_name : option string;
  raw_email : option string;
  raw_minAge : option value;
  raw_maxAge : option value }.

(** [Number.MAX_SAFE_INTEGER]: Joi refuses numbers beyond it. *)
Definition MAX_SAFE_INTEGER : Z := 9007199254740991.

(** [Joi.number().integer().min(lo)[.max(hi)].optional()[.default(d)]]:
    the validated value, or [None] on a validation error. *)
Definition joi_integer (lo : Z) (hi : option Z) (fallback : option Z)
  (raw : option value) : option (option Z) :=
  match raw with
  | None => Some fallback
  | Some v =>
      if Number_isInteger v then
        let z := to_Z v in
        if MAX_SAFE_INTEGER <? Z.abs z then None
        else if z <? lo then None
        else match hi with
             | Some h => if h <? z then None else Some (Some z)
             | None => Some (Some z)
             end
      else None
  end.

(** [Joi.string().optional()]: an empty string is not allowed. *)
Definition joi_string (raw : option string) : option (option string) :=
  match raw with
  | Some EmptyString => None
  | other => Some other
  end.

(** [querySchema.validate(req.query)]; [abortEarly: false] reports every
    failing field, and one is enough to reject. *)
Definition querySchema (raw : RawQuery) : option QueryFilters :=
  match joi_integer 1 None (Some 1) (raw_page raw),
        joi_integer 1 (Some 50) (Some 10) (raw_limit raw),
        joi_string (raw_name raw),
        joi_string (raw_email raw),
        joi_integer 0 None None (raw_minAge raw),
        joi_integer 0 None None (raw_maxAge raw) with
  | Some p, Some l, Some n, Some e, Some lo, Some hi =>
      Some (mkFilters p l n e lo hi)
  | _, _, _, _, _, _ => None
  end.

Inductive Payload : Type :=
| NoData
| NullData
| UserData (u : User)
| CreatedData (u : CreatedUser)
| PageData (p : PaginatedResponse).

(** [res.status(status).json({ success, message, data })]. *)
Record Response : Type := mkResponse {
  status : Z;
  success : bool;
  response_message : string;
  response_data : Payload }.

(** [errorHandler], reached through [next(error)]. *)
Definition errorHandler (err : Failure) : Response :=
  match code err with
  | Some "SQLITE_CONSTRAINT_UNIQUE" => mkResponse 409 false "Email already exists" NoData
  | Some "SQLITE_CONSTRAINT" => mkResponse 400 false "Database constraint violation" NoData
  | _ =>
      mkResponse 500 false
        (if String.eqb (message err) EmptyString then "Internal server error" else message err)
        NoData
  end.

(** A handler body inside [try { ... } catch (error) { next(error) }]. *)
Definition handled (body : M Response) : World -> Response * World :=
  fun w =>
    match body w with
    | (Resolved r, w') => (r, w')
    | (Rejected e, w') => (errorHandler e, w')
    end.

Definition reply {A} (r : Response) : A -> M Response :=
  fun _ w => (Resolved r, w).

Definition UserController_create (createdISO updatedISO : string)
  (userData : CreateUserRequest) : World -> Response * World :=
  handled
    (and_then (UserModel_exists (create_email userData) None) (fun emailExists =>
       if emailExists : bool
       then reply (mkResponse 409 false "Email already exists" NoData) tt
       else
         and_then (UserModel_create createdISO updatedISO userData) (fun user =>
           reply (mkResponse 201 true "User created successfully"
                    (CreatedData user)) tt))).

Section Controller.
Variable LIKE : string -> string -> bool.

Definition UserController_getAll (filters : QueryFilters)
  : World -> Response * World :=
  handled
    (and_then (UserModel_findAll LIKE filters) (fun result =>
       reply (mkResponse 200 true "Users retrieved successfully" (PageData result)) tt)).

(** [GET /users]: [validate(querySchema, 'query')], then the controller. *)
Definition route_getAll (raw : RawQuery) : World -> Response * World :=
  fun w =>
    match querySchema raw with
    | None => (mkResponse 400 false "Validation failed" NoData, w)
    | Some filters => UserController_getAll filters w
    end.

End Controller.

Definition UserController_getById (i : Z) : World -> Response * World :=
  handled
    (and_then (UserModel_findById i) (fun user =>
       match user with
       | None => reply (mkResponse 404 false "User not found" NoData) tt
       | Some u => reply (mkResponse 200 true "User retrieved successfully" (UserData u)) tt
       end)).

Definition UserController_update (userId : Z) (userData : UpdateUserRequest)
  : World -> Response * World :=
  handled
    (and_then (UserModel_findById userId) (fun existingUser =>
       match existingUser with
       | None => reply (mkResponse 404 false "User not found" NoData) tt
       | Some _ =>
           let go :=
             and_then (UserModel_update userId userData) (fun updatedUser =>
               reply (mkResponse 200 true "User updated successfully"
                        (match updatedUser with
                         | Some u => UserData u
                         | None => NullData
                         end)) tt) in
           match present (update_email userData) with
           | Some e =>
               and_then (UserModel_exists e (Some userId)) (fun emailExists =>
                 if emailExists : bool
                 then reply (mkResponse 409 false "Email already exists" NoData) tt
                 else go)
           | None => go
           end
       end)).

Definition UserController_delete (userId : Z) : World -> Response * World :=
  handled
    (and_then (UserModel_delete userId) (fun deleted =>
       if deleted : bool
       then reply (mkResponse 200 true "User deleted successfully" NoData) tt
       else reply (mkResponse 404 false "User not found" NoData) tt)).

End Crud.

(** ** Scoreboard design, [problem6/SECURITY.md]: fraud rules and incident
    response *)

Module FraudRules.
Import Fraud.
Local Open Scope Z_scope.

(** [NIGHT_ACTIVITY.check(timestamp, userTimezone)], given the hour
    [new Date(timestamp).getHours()] returns; [%] is the remainder that
    takes the sign of the dividend. *)
Definition NIGHT_ACTIVITY_check (hour userTimezone : Z) : bool :=
  let localHour := Z.rem (hour + userTimezone) 24 in
  (2 <=? localHour) && (localHour <=? 5).

(** What [handleFraudAlert] does, in order. *)
Inductive Response : Type :=
| SuspendUser (userId reason : string)
| AlertSecurityTeam (severity action : string)
| ApplyTemporaryRestrictions (userId : string)
| EnableEnhancedMonitoring (userId : string).

Definition handleFraudAlert (userId : string) (riskScore : Q) : list Response :=
  if Qle_bool 0.9 riskScore then
    [SuspendUser userId "FRAUD_SUSPECTED";
     AlertSecurityTeam "CRITICAL" "USER_SUSPENDED"]
  else if Qle_bool 0.7 riskScore then
    [ApplyTemporaryRestrictions userId;
     AlertSecurityTeam "HIGH" "RESTRICTIONS_APPLIED"]
  else if Qle_bool 0.5 riskScore then
    [EnableEnhancedMonitoring userId]
  else [].

End FraudRules.

Module FraudRuleSamples.
Import Fraud.
Local Open Scope Q_scope.

(** A parser that knows one stored object, and analyses that always see
    the highest risk. *)
Definition parse_played (json : string) : option Parsed :=
  Some (JsonObject [("GAME_COMPLETION", 3%Z)]).
Definition device_one (userId : string) (metadata : Metadata) : Q := 1.
Definition time_one (userId : string) : Q := 1.

(** A user with 25 updates in the last hour, one recorded increment of
    10 and three recorded game completions. *)
Definition busy_stores : Stores :=
  mkStores (fun _ => mkFrequencyRow 25 None)
    (fun _ => [mkHistoryRow 10 "GAME_COMPLETION"])
    (fun _ => {["action_types" := "{...}"]}).

Definition purchase : Metadata := mkMetadata "PURCHASE".

End FraudRuleSamples.

(** ** Scoreboard design, [problem6/SECURITY.md]: rate limiting *)

Module RateLimit.

(** A member of the sorted set: [`${now}-${Math.random()}`], kept as the
    pair of the instant and the printed random number. *)
Definition Member : Type := (Z * string)%type.

(** A sorted-set key: its members with their scores, and the instant
    (milliseconds) at which the key expires. *)
Record ZSet : Type := mkZSet {
  entries : list (Member * Z);
  expires : Z }.

Abbreviation Store := (gmap string ZSet).

(** The members a key holds at instant [now]; an expired or missing key
    holds none. *)
Definition members_at (now : Z) (key : string) (store : Store)
  : list (Member * Z) :=
  match store !! key with
  | Some z => if now <? expires z then entries z else []
  | None => []
  end.

(** [ZREMRANGEBYSCORE key lo hi]: drops the members scored within
    [lo .. hi], bounds included. *)
Definition zremrangebyscore (lo hi : Z) (l : list (Member * Z))
  : list (Member * Z) :=
  filter (fun e => ~ (lo <= snd e <= hi)) l.

(** [ZADD key score member]: a member already present only changes its
    score. *)
Definition zadd (score : Z) (member : Member) (l : list (Member * Z))
  : list (Member * Z) :=
  if existsb (fun e => bool_decide (fst e = member)) l
  then map (fun e => if bool_decide (fst e = member) then (member, score) else e) l
  else l ++ [(member, score)].

Record Limit : Type := mkLimit {
  allowed : bool;
  count : Z;
  limit : Z;
  resetTime : Z }.

(** [Math.ceil(window / 1000)]. *)
Definition ceil_seconds (window : Z) : Z := - ((- window) / 1000).

(** [checkRateLimit(key, limit, window)] at instant [now], [random] being
    what [Math.random()] printed; the four commands run as one MULTI
    transaction. *)
Definition checkRateLimit (random : string) (now : Z) (key : string)
  (limit window : Z) (store : Store) : Limit * Store :=
  let windowStart := now - window in
  let kept := zremrangebyscore 0 windowStart (members_at now key store) in
  let added := zadd now (now, random) kept in
  let count := Z.of_nat (length added) in
  let store' := <[key := mkZSet added (now + ceil_seconds window * 1000)]> store in
  (mkLimit (count <=? limit) count limit (now + window), store').

(** A series of calls on one key, each at its instant with its random
    number: the answers in order, and the store left. *)
Fixpoint check_all (calls : list Member) (key : string) (limit window : Z)
  (store : Store) : list Limit * Store :=
  match calls with
  | [] => ([], store)
  | (now, random) :: rest =>
      let '(answer, store1) := checkRateLimit random now key limit window store in
      let '(answers, store2) := check_all rest key limit window store1 in
      (answer :: answers, store2)
  end.

(** What [enforceRateLimit] answers. *)
Inductive Verdict : Type :=
| Next
| TooManyRequests (error : string) (resetTime : Z).

(** [enforceRateLimit(req, res, next)]: the per-user limit when the
    request carries a user id, then the per-IP limit. *)
Definition enforceRateLimit (random1 random2 : string) (now : Z)
  (userId : option string) (ip : string) (store : Store) : Verdict * Store :=
  let check_ip (store : Store) :=
    let '(ipLimit, store') :=
      checkRateLimit random2 now ("rate_limit:ip:" +:+ ip) 100 (60 * 1000) store in
    if allowed ipLimit then (Next, store')
    else (TooManyRequests "IP_RATE_LIMIT_EXCEEDED" (resetTime ipLimit), store') in
  match userId with
  | None | Some EmptyString => check_ip store
  | Some u =>
      let '(userLimit, store') :=
        checkRateLimit random1 now ("rate_limit:user:" +:+ u) 10 (60 * 1000) store in
      if allowed userLimit then check_ip store'
      else (TooManyRequests "USER_RATE_LIMIT_EXCEEDED" (resetTime userLimit), store')
  end.

(** The instant of a call, and the calls of a series that fall in the
    window ending at instant [t]. *)
Definition time_of (c : Member) : Z := fst c.

Definition in_window (window t : Z) (calls : list Member) : list Member :=
  filter (fun c => t - window < time_of c) calls.

(** The answer a call gets when it counts the calls of its window, itself
    included, among those seen so far; and the answers of a series. *)
Definition answer_for (limit window : Z) (seen : list Member) (c : Member)
  : Limit :=
  mkLimit (Z.of_nat (length (in_window window (time_of c) (seen ++ [c])))
           <=? limit)
    (Z.of_nat (length (in_window window (time_of c) (seen ++ [c]))))
    limit (time_of c + window).

Fixpoint answers_from (limit window : Z) (seen rest : list Member)
  : list Limit :=
  match rest with
  | [] => []
  | c :: rest' =>
      answer_for limit window seen c
      :: answers_from limit window (seen ++ [c]) rest'
  end.

Definition by_time (a b : Member) : Prop := time_of a <= time_of b.

(** The calls of a series that were allowed and fall in the window ending
    at [t], given the answers they got. *)
Definition allowed_in_window (window t : Z) (calls : list Member)
  (answers : list Limit) : list (Member * Limit) :=
  filter (fun ca => allowed (snd ca) = true /\
                    t - window < time_of (fst ca) <= t)
    (zip calls answers).

(** A member with its score, as [zadd] stores it. *)
Definition tag (c : Member) : Member * Z := (c, time_of c).

(** What the store knows of the calls seen so far, from the point of view
    of any later call. *)
Definition tracks (key : string) (window : Z) (seen : list Member)
  (store : Store) : Prop :=
  forall t, Forall (fun c => time_of c <= t) seen ->
    zremrangebyscore 0 (t - window) (members_at t key store)
    = map tag (in_window window t seen).

End RateLimit.

(** ** Sum to n, TypeScript: the benchmark's measuring helper *)

Module Bench.
Import Js Double.

(** [BenchmarkResult]; [time] is a difference of two [performance.now()]
    readings. *)
Record BenchmarkResult : Type := mkBenchmark {
  method : string;
  time : Q;
  result : number;
  error : option string }.

(** [measurePerformance(fn, label)], [start] and [finish] being what
    [performance.now()] reads before and after the call of [fn]; [None]
    when [fn] never returns. *)
Definition measurePerformance (start finish : Q) (fn : unit -> run number)
  (label : string) : option BenchmarkResult :=
  match fn tt with
  | Returns r => Some (mkBenchmark label (finish - start) r None)
  | Throws message => Some (mkBenchmark label 0 (Finite 0) (Some message))
  | Loops => None
  end.

End Bench.

(** ** Action tokens: generation, and runs of validations *)

Module TokenRuns.
Import ActionToken.

Section Runs.
Variable expectedSignature : Payload -> string.
Variable timingSafeEqual : string -> string -> option bool.

(** [generateActionToken(userId, actionType, scoreIncrement)] at instant
    [now], with the UUID and the nonce the two generators produce. *)
Definition generateActionToken (uuid cryptoNonce : string) (now : Z)
  (userId actionType : string) (scoreIncrement : Z) : Token :=
  let payload := mkPayload uuid userId actionType scoreIncrement now cryptoNonce in
  mkToken payload (expectedSignature payload).

(** Redis after a series of validations, each made at its own instant,
    one call after the other. *)
Fixpoint validate_all (calls : list (Z * Token)) (r : Redis) : Redis :=
  match calls with
  | [] => r
  | (now, token) :: rest =>
      validate_all rest
        (snd (validateActionToken expectedSignature timingSafeEqual now token r))
  end.

End Runs.

(** The nonce key holds a truthy value that expires no earlier than
    [bound]. *)
Definition recorded_until (key : string) (bound : Z) (r : Redis) : Prop :=
  exists expires, r !! key = Some ("1", expires) /\ bound <= expires.

End TokenRuns.

(** ** Wallet page: which balances are shown, and in which order *)

Module Wallet.

(** [WalletBalance]; amounts are finite numbers. *)
Record WalletBalance : Type := mkBalance {
  currency : string;
  amount : Q;
  blockchain : string }.

Definition getPriority (blockchain : string) : Z :=
  if String.eqb blockchain "Osmosis" then 100
  else if String.eqb blockchain "Ethereum" then 50
  else if String.eqb blockchain "Arbitrum" then 30
  else if String.eqb blockchain "Zilliqa" then 20
  else if String.eqb blockchain "Neo" then 20
  else -99.

(** The callback of [filter]:
    [balancePriority > -99 && balance.amount > 0]. *)
Definition shown (balance : WalletBalance) : bool :=
  (getPriority (blockchain balance) >? -99) && negb (Qle_bool (amount balance) 0).

(** The callback of [sort]. *)
Definition by_priority (lhs rhs : WalletBalance) : Z :=
  let leftPriority := getPriority (blockchain lhs) in
  let rightPriority := getPriority (blockchain rhs) in
  if leftPriority >? rightPriority then -1
  else if rightPriority >? leftPriority then 1
  else 0.

(** [Array.prototype.sort(compare)] is a stable sort.  For a comparator
    that orders the elements by a key, as [by_priority] does, its result
    is the one a stable insertion sort gives: each element goes before
    the first element it does not have to follow. *)
Fixpoint insert_before {A} (compare : A -> A -> Z) (x : A) (l : list A) : list A :=
  match l with
  | [] => [x]
  | y :: rest =>
      if compare x y <=? 0 then x :: y :: rest
      else y :: insert_before compare x rest
  end.

Definition Array_sort {A} (compare : A -> A -> Z) (l : list A) : list A :=
  foldr (insert_before compare) [] l.

Definition sortedBalances (balances : list WalletBalance) : list WalletBalance :=
  Array_sort by_priority (filter (fun balance => shown balance = true) balances).

(** The chains [getPriority] knows. *)
Definition supported : list string :=
  ["Osmosis"; "Ethereum"; "Arbitrum"; "Zilliqa"; "Neo"].

Definition same_priority (p : Z) (balance : WalletBalance) : Prop :=
  getPriority (blockchain balance) = p.

#[global] Instance same_priority_dec (p : Z) (balance : WalletBalance) :
  Decision (same_priority p balance) := Z.eq_dec _ _.

Definition not_after (a b : WalletBalance) : Prop :=
  getPriority (blockchain b) <= getPriority (blockchain a).

End Wallet.

(** ** CRUD API: well-formed tables and healthy databases *)

Module CrudState.
Import Crud.

(** SQLite fails none of the coming statements. *)
Definition healthy (w : World) : Prop := Forall (fun b => b = false) (failing w).

(** What the schema of [users] guarantees about a table: [id] is a
    primary key drawn from the AUTOINCREMENT sequence, [email] is UNIQUE. *)
Definition table_ok (w : World) : Prop :=
  NoDup (map id (users w)) /\
  NoDup (map email (users w)) /\
  Forall (fun u => id u <= last_id w) (users w).

(** The world after one statement was sent. *)
Definition after_statement (w : World) : World :=
  mkWorld (connected w) (users w) (last_id w) (clock w)
    (tail (failing w)) (S (queries w)).

(** What [UserModel.create] stores for a request: age 0 becomes NULL. *)
Definition stored_row (userData : CreateUserRequest) (w : World) : User :=
  mkUser (last_id w + 1) (create_name userData) (create_email userData)
    (match create_age userData with Some 0 => None | other => other end)
    (clock w) (clock w).

(** The table after [UPDATE users SET ... WHERE id = i] at instant [now]. *)
Definition update_rows (i : Z) (userData : UpdateUserRequest) (now : Z)
  (rows : list User) : list User :=
  map (fun u => if id u =? i then apply_update userData now u else u) rows.

(** The same filters asking for another page. *)
Definition with_page (filters : QueryFilters) (k : Z) : QueryFilters :=
  mkFilters (Some k) (limit filters) (filter_name filters)
    (filter_email filters) (minAge filters) (maxAge filters).

(** The rows the WHERE clause selects, in the order of the listing. *)
Definition listing (LIKE : string -> string -> bool) (filters : QueryFilters)
  (w : World) : list User :=
  merge_sort newer_first
    (filter (fun u => where_clause LIKE filters u = true) (users w)).

(** The rows of page [k] of a listing. *)
Definition page_data (LIKE : string -> string -> bool) (filters : QueryFilters)
  (w : World) (k : nat) : list User :=
  match fst (UserModel_findAll LIKE (with_page filters (Z.of_nat k)) w) with
  | Resolved p => data p
  | Rejected _ => []
  end.

(** A monadic step keeps the table well formed. *)
Definition preserves {A} (m : M A) : Prop :=
  forall w, table_ok w -> table_ok (snd (m w)).

End CrudState.

(** ** Sample data used to instantiate the properties *)

Module TokenSamples.
Import ActionToken.

(** A concrete setting: every payload signs to ["ab"], and the comparison
    is equality of hex strings of equal length. *)
Definition sign_ab (p : Payload) : string := "ab".

Definition equal_hex (a b : string) : option bool :=
  if Nat.eqb (String.length a) (String.length b) then Some (String.eqb a b)
  else None.

Definition sample_payload : Payload :=
  mkPayload "action-1" "user-1" "GAME_COMPLETION" 50 0 "n1".

Definition sample_token : Token := mkToken sample_payload "ab".

End TokenSamples.

Module FraudSamples.
Import Js Fraud.
Local Open Scope Q_scope.

Definition no_parse (json : string) : option Parsed := None.
Definition device_half (userId : string) (metadata : Metadata) : Q := 0.5.
Definition time_half (userId : string) : Q := 0.5.

(** Stores in which nobody has any history. *)
Definition empty_stores : Stores :=
  mkStores (fun _ => mkFrequencyRow 0 None) (fun _ => []) (fun _ => ∅).

Definition sample_metadata : Metadata := mkMetadata "GAME_COMPLETION".

End FraudSamples.

Module CrudSamples.
Import Js Crud.

Definition like_any (text pattern : string) : bool := true.

(** A connected, empty database on which no statement fails. *)
Definition empty_world : World := mkWorld true [] 0 1000 [] 0.

(** What [new Date().toISOString()] returns in the samples. *)
Definition iso_now : string := "2024-01-01T00:16:40.000Z".

Definition alice : CreateUserRequest :=
  mkCreate "Alice" "alice@example.com" (Some 30).

(** The database after Alice was created, with the statement counter
    reset. *)
Definition alice_world : World :=
  mkWorld true [mkUser 1 "Alice" "alice@example.com" (Some 30) 1000 1000]
    1 2000 [] 0.

Definition rename_alice : UpdateUserRequest :=
  mkUpdate (Some "Alicia") (Some "alicia@example.com") None.

Definition no_filters : QueryFilters := mkFilters None None None None None None.

End CrudSamples.

(** ** Further sample inputs *)

Module MoreSamples.
Import ActionToken Crud RateLimit.

(** A world without a database handle. *)
Definition offline_world : World := mkWorld false [] 0 0 [] 0.

(** Three users created within the same second, listed two per page. *)
Definition tied_world : World :=
  mkWorld true
    [mkUser 1 "Ann" "ann@example.com" None 1000 1000;
     mkUser 2 "Bob" "bob@example.com" None 1000 1000;
     mkUser 3 "Cy" "cy@example.com" None 1000 1000]
    3 2000 [] 0.

Definition two_per_page : QueryFilters :=
  mkFilters None (Some 2) None None None None.

(** A second token, and a token dated 10 minutes ahead. *)
Definition other_token : Token :=
  mkToken (mkPayload "action-2" "user-2" "GAME_COMPLETION" 10 5 "n2") "ab".

Definition future_token : Token :=
  mkToken (mkPayload "action-3" "user-1" "GAME_COMPLETION" 50 600000 "n3") "ab".

(** Three calls of one client, 10 ms apart. *)
Definition three_calls : list Member := [(0, "r1"); (10, "r2"); (20, "r3")].

(** A sorted set holding one earlier request per millisecond from 1 to
    [n], and stores in which user [u1] has made 10 requests and address
    [10.0.0.1] has made 100. *)
Definition earlier_requests (n : nat) : list (Member * Z) :=
  map (fun k => ((Z.of_nat k, "seen"), Z.of_nat k)) (seq 1 n).

Definition busy_user_store : Store :=
  {[ "rate_limit:user:u1" := mkZSet (earlier_requests 10) 60000 ]}.

Definition busy_ip_store : Store :=
  {[ "rate_limit:ip:10.0.0.1" := mkZSet (earlier_requests 100) 60000 ]}.

End MoreSamples.
(** * Properties *)

(** ** Integer-valued binary64 numbers *)

Module DoubleFacts.
Import Double.

(** Arithmetic with the constant 2^53 written out. *)
Ltac lia53 := try unfold two53 in *; lia.
Ltac nia53 := try unfold two53 in *; nia.

Lemma two53_lt_huge : 2 * two53 < huge.
Proof. vm_compute. reflexivity. Qed.

Lemma round_exact (z : Z) : Z.abs z <= two53 -> round z = z.
Proof.
  intros H. unfold round.
  destruct (Z.leb_spec (Z.abs z) two53); [reflexivity | lia53].
Qed.



Lemma rounded_exact (z : Z) : Z.abs z <= two53 -> rounded z = Finite z.
Proof.
  intros H. unfold rounded. rewrite round_exact by trivial.
  pose proof two53_lt_huge.
  destruct (Z.leb_spec huge z); [lia53 |].
  destruct (Z.leb_spec z (- huge)); [lia53 | reflexivity].
Qed.

Lemma add_exact (x y : Z) :
  Z.abs (x + y) <= two53 -> add (Finite x) (Finite y) = Finite (x + y).
Proof. intros H. cbn. now apply rounded_exact. Qed.

(** Between 2^53 and 2^54 the doubles are the even integers. *)
Lemma round_even_exact (z : Z) :
  Z.even z = true -> Z.abs z <= 2 * two53 -> round z = z.
Proof.
  intros Heven Hle. unfold round.
  destruct (Z.leb_spec (Z.abs z) two53) as [| Hbig]; [reflexivity |].
  assert (Hcase : Z.abs z = 2 * two53 \/ Z.abs z < 2 * two53) by lia53.
  destruct Hcase as [Hmax | Hlt].
  - assert (Hz : z = 2 * two53 \/ z = - (2 * two53)) by lia53.
    destruct Hz as [-> | ->]; reflexivity.
  - assert (Hlog : Z.log2 (Z.abs z) = 53).
    { apply Z.log2_unique; [lia53 |].
      change (2 ^ 53) with two53. change (2 ^ (53 + 1)) with (2 * two53).
      lia53. }
    unfold ulp. rewrite Hlog. change (2 ^ (53 - 52)) with 2.
    apply Z.even_spec in Heven as [k ->].
    replace (2 * k) with (k * 2) by ring.
    rewrite Z.div_mul, Z.mod_mul by lia53. reflexivity.
Qed.

Lemma rounded_even_exact (z : Z) :
  Z.even z = true -> Z.abs z <= 2 * two53 -> rounded z = Finite z.
Proof.
  intros Heven Hle. unfold rounded. rewrite round_even_exact by trivial.
  pose proof two53_lt_huge.
  destruct (Z.leb_spec huge z); [lia53 |].
  destruct (Z.leb_spec z (- huge)); [lia53 | reflexivity].
Qed.

Lemma product_even (n : Z) : Z.even (n * (n + 1)) = true.
Proof.
  rewrite Z.even_mul, Z.even_add.
  destruct (Z.even n); reflexivity.
Qed.

(** The closed form is exact: [n * (n + 1)] is even. *)
Lemma closed_form_twice (n : Z) : 2 * ((n * (n + 1)) / 2) = n * (n + 1).
Proof.
  pose proof (product_even n) as H. apply Z.even_spec in H as [k Hk].
  rewrite Hk. replace (2 * k) with (k * 2) by ring.
  rewrite Z.div_mul by lia53. ring.
Qed.

Lemma half_exact (n x : Z) : 2 * x = n * (n + 1) -> x = (n * (n + 1)) / 2.
Proof. intros H. apply Z.div_unique_exact; lia53. Qed.

Lemma closed_form_step (n : Z) :
  n + ((n - 1) * (n - 1 + 1)) / 2 = (n * (n + 1)) / 2.
Proof.
  apply half_exact.
  pose proof (closed_form_twice (n - 1)) as H. lia53.
Qed.

(** The formula is exact as long as the sum does not exceed 2^53. *)
Lemma formula_exact (n : Z) :
  Z.abs (n + 1) <= two53 -> n * (n + 1) <= 2 * two53 ->
  formula n = Finite ((n * (n + 1)) / 2).
Proof.
  intros Hn Hp. unfold formula. rewrite round_exact by trivial.
  rewrite rounded_even_exact; [reflexivity | apply product_even |].
  assert (0 <= n * (n + 1)) by nia53. lia53.
Qed.

(** Whatever [n], the product the formula halves has become an even
    integer or an infinity. *)
Lemma round_even (z : Z) :
  Z.even z = true \/ two53 < Z.abs z -> Z.even (round z) = true.
Proof.
  intros H. unfold round.
  destruct (Z.leb_spec (Z.abs z) two53) as [Hsmall | Hbig].
  - destruct H; [assumption | lia53].
  - assert (Hlog : 53 <= Z.log2 (Z.abs z)).
    { apply Z.log2_le_pow2; [lia53 |]. change (2 ^ 53) with two53. lia53. }
    assert (Hu : exists k, ulp z = 2 * k).
    { unfold ulp. exists (2 ^ (Z.log2 (Z.abs z) - 53)).
      rewrite <- Z.pow_succ_r by lia53. f_equal. lia53. }
    destruct Hu as [k Hk]. rewrite Hk.
    repeat match goal with
           | |- context [if ?b then _ else _] => destruct b
           end;
      rewrite Z.even_mul, (Z.even_mul 2), orb_true_r; reflexivity.
Qed.

Lemma formula_product_even (n : Z) (z : Z) :
  rounded (n * round (n + 1)) = Finite z -> Z.even z = true.
Proof.
  unfold rounded.
  repeat match goal with
         | |- context [if ?b then _ else _] => destruct b
         end; try discriminate.
  intros [= <-]. apply round_even.
  destruct (Z.leb_spec (Z.abs (n + 1)) two53) as [Hsmall | Hbig].
  - left. rewrite round_exact by trivial. apply product_even.
  - destruct (Z.leb_spec (Z.abs (n * round (n + 1))) two53) as [Hp | Hp];
      [| right; exact Hp].
    left. rewrite Z.even_mul.
    rewrite (round_even (n + 1)) by (right; exact Hbig). apply orb_true_r.
Qed.

Lemma round_stalls : round (two53 + 1) = two53.
Proof. reflexivity. Qed.

End DoubleFacts.

(** ** Sum to n *)

Module SumFacts.
Import Js Double DoubleFacts.

(** Below 2^53 the counter of the loop advances. *)
Ltac stalled :=
  match goal with
  | H : ~ (?i < round (?i + 1)) |- _ =>
      let E := fresh in
      assert (E : round (i + 1) = i + 1) by (apply round_exact; lia53); lia
  end.

(** Below 2^53 the loop returns the sum, exactly as long as the total
    does not exceed 2^53; stated without division. *)
Lemma for_loop_spec (n i : Z) (s : number) :
  forall sum total,
    s = Finite sum ->
    1 <= i <= n + 1 -> n < two53 -> 0 <= sum ->
    2 * total = 2 * sum + n * (n + 1) - (i - 1) * i ->
    total <= two53 ->
    SumTs.for_loop n i s = Returns (Finite total).
Proof.
  funelim (SumTs.for_loop n i s); intros s total -> Hi Hn Hsum Htotal Hle.
  - do 2 f_equal. nia53.
  - assert (Hnext : round (i + 1) = i + 1) by (apply round_exact; lia53).
    rewrite Hnext in *.
    eapply H; [apply add_exact; nia53 | lia53 .. ].
  - stalled.
Qed.

Lemma for_loop_closed_form (n : Z) :
  0 <= n -> n <= 134217727 ->
  SumTs.for_loop n 1 (Finite 0) = Returns (Finite ((n * (n + 1)) / 2)).
Proof.
  intros Hn Hmax. pose proof (closed_form_twice n).
  eapply for_loop_spec; [reflexivity | try lia53 ..]. nia53.
Qed.

(** Below 2^53 the loop returns. *)
Lemma for_loop_returns (n i : Z) (sum : number) :
  1 <= i -> n < two53 -> exists total, SumTs.for_loop n i sum = Returns total.
Proof.
  funelim (SumTs.for_loop n i sum); intros Hi Hn.
  - now exists sum.
  - apply H; [| assumption]. rewrite round_exact by lia53. lia53.
  - stalled.
Qed.

(** From 2^53 on it does not. *)
Lemma for_loop_stalls (n i : Z) (sum : number) :
  1 <= i <= two53 -> two53 <= n -> SumTs.for_loop n i sum = Loops.
Proof.
  funelim (SumTs.for_loop n i sum); intros Hi Hn.
  - lia53.
  - assert (Hlt : i < two53).
    { destruct (Z.eq_dec i two53) as [-> |]; [| lia53].
      pose proof round_stalls. lia. }
    apply H; [| assumption]. rewrite round_exact by lia53. lia53.
  - reflexivity.
Qed.


(** The loop never throws. *)
Lemma for_loop_no_throw (n i : Z) (sum : number) (message : string) :
  SumTs.for_loop n i sum <> Throws message.
Proof. funelim (SumTs.for_loop n i sum); trivial; discriminate. Qed.

Lemma ts_c_int_unfold (depth : nat) (n : Z) :
  SumTs.sum_to_n_c_int depth n
  = if n <? 0 then Throws SumTs.msg_input
    else if n <=? 0 then Returns (Finite 0)
    else if n =? 1 then Returns (Finite 1)
    else if n >? 10000 then SumTs.for_loop n 1 (Finite 0)
    else
      match depth with
      | O => Throws msg_stack
      | S depth =>
          match SumTs.sum_to_n_c_int depth (n - 1) with
          | Returns r => Returns (add (Finite n) r)
          | other => other
          end
      end.
Proof. destruct depth; reflexivity. Qed.

Lemma ts_c_optimized_int_unfold (depth : nat) (n accumulator : Z) :
  SumTs.sum_to_n_c_optimized_int depth n accumulator
  = if n <? 0 then Throws SumTs.msg_input
    else if accumulator <? 0 then Throws SumTs.msg_accumulator
    else if n <=? 0 then Returns (Finite accumulator)
    else if n >? 50000 then Returns (add (Finite accumulator) (formula n))
    else
      match depth with
      | O => Throws msg_stack
      | S depth =>
          match add (Finite accumulator) (Finite n) with
          | Finite sum => SumTs.sum_to_n_c_optimized_int depth (n - 1) sum
          | _ => Throws SumTs.msg_accumulator
          end
      end.
Proof. destruct depth; reflexivity. Qed.

Lemma js_c_unfold (depth : nat) (n : Z) :
  SumJs.sum_to_n_c depth n
  = if n <=? 0 then Returns (Finite 0)
    else if n =? 1 then Returns (Finite 1)
    else if n >? 10000 then SumJs.for_loop n 1 (Finite 0)
    else
      match depth with
      | O => Throws msg_stack
      | S depth =>
          match SumJs.sum_to_n_c depth (n - 1) with
          | Returns r => Returns (add (Finite n) r)
          | other => other
          end
      end.
Proof. destruct depth; reflexivity. Qed.

Lemma js_c_optimized_unfold (depth : nat) (n : Z) (accumulator : number) :
  SumJs.sum_to_n_c_optimized depth n accumulator
  = if n <=? 0 then Returns accumulator
    else if n >? 50000 then Returns (add accumulator (formula n))
    else
      match depth with
      | O => Throws msg_stack
      | S depth =>
          SumJs.sum_to_n_c_optimized depth (n - 1) (add accumulator (Finite n))
      end.
Proof. destruct depth; reflexivity. Qed.

(** Case analysis on the comparisons of a function body. *)
Ltac compare_all :=
  repeat match goal with
         | |- context [?a <? ?b] => destruct (Z.ltb_spec a b)
         | |- context [?a <=? ?b] => destruct (Z.leb_spec a b)
         | |- context [?a =? ?b] => destruct (Z.eqb_spec a b)
         | |- context [?a >? ?b] => rewrite (Z.gtb_ltb a b)
         end.

Lemma ts_c_int_closed_form (depth : nat) (n : Z) :
  0 <= n -> n <= 134217727 -> Z.min n 10000 <= Z.of_nat depth + 1 ->
  SumTs.sum_to_n_c_int depth n = Returns (Finite ((n * (n + 1)) / 2)).
Proof.
  revert n. induction depth as [| depth IH]; intros n Hn Hmax Hdepth;
    rewrite ts_c_int_unfold; compare_all; try lia53;
    try (now apply for_loop_closed_form);
    try (replace n with 0 by lia53; reflexivity);
    try (subst n; reflexivity).
  rewrite IH by lia53.
  rewrite add_exact; [now rewrite closed_form_step |].
  rewrite closed_form_step. pose proof (closed_form_twice n).
  nia53.
Qed.

Lemma ts_c_optimized_int_closed_form (depth : nat) (n accumulator : Z) :
  0 <= n -> 0 <= accumulator ->
  accumulator + (n * (n + 1)) / 2 <= two53 ->
  Z.min n 50000 <= Z.of_nat depth ->
  SumTs.sum_to_n_c_optimized_int depth n accumulator
  = Returns (Finite (accumulator + (n * (n + 1)) / 2)).
Proof.
  revert n accumulator.
  induction depth as [| depth IH]; intros n accumulator Hn Ha Hle Hdepth;
    pose proof (closed_form_twice n); pose proof (closed_form_step n);
    assert (0 <= (n - 1) * (n - 1 + 1) / 2) by (apply Z.div_pos; nia);
    rewrite ts_c_optimized_int_unfold; compare_all; try lia53;
    try (do 2 f_equal; nia);
    try (rewrite formula_exact by nia53; now rewrite add_exact by lia53).
  rewrite add_exact by lia53.
  rewrite IH by lia53. do 2 f_equal. lia.
Qed.

Lemma js_c_closed_form (depth : nat) (n : Z) :
  0 <= n -> n <= 134217727 -> Z.min n 10000 <= Z.of_nat depth + 1 ->
  SumJs.sum_to_n_c depth n = Returns (Finite ((n * (n + 1)) / 2)).
Proof.
  revert n. induction depth as [| depth IH]; intros n Hn Hmax Hdepth;
    rewrite js_c_unfold; compare_all; try lia53;
    try (now apply for_loop_closed_form);
    try (replace n with 0 by lia53; reflexivity);
    try (subst n; reflexivity).
  rewrite IH by lia53.
  rewrite add_exact; [now rewrite closed_form_step |].
  rewrite closed_form_step. pose proof (closed_form_twice n).
  nia53.
Qed.

Lemma js_c_optimized_closed_form (depth : nat) (n accumulator : Z) :
  0 <= n ->
  Z.abs accumulator <= two53 ->
  (n * (n + 1)) / 2 <= two53 ->
  accumulator + (n * (n + 1)) / 2 <= two53 ->
  Z.min n 50000 <= Z.of_nat depth ->
  SumJs.sum_to_n_c_optimized depth n (Finite accumulator)
  = Returns (Finite (accumulator + (n * (n + 1)) / 2)).
Proof.
  revert n accumulator.
  induction depth as [| depth IH]; intros n accumulator Hn Ha Hsum Hle Hdepth;
    pose proof (closed_form_twice n); pose proof (closed_form_step n);
    assert (0 <= (n - 1) * (n - 1 + 1) / 2) by (apply Z.div_pos; nia);
    rewrite js_c_optimized_unfold; compare_all; try lia53;
    try (do 2 f_equal; nia);
    try (rewrite formula_exact by nia53; now rewrite add_exact by lia53).
  rewrite add_exact by lia53.
  rewrite IH by lia53. do 2 f_equal. lia.
Qed.

(** With no room for the recursion the tail-recursive functions end in
    the engine's [RangeError]. *)
Lemma ts_c_optimized_int_overflows (depth : nat) (n accumulator : Z) :
  Z.of_nat depth < n -> n <= 50000 -> 0 <= accumulator ->
  accumulator + (n * (n + 1)) / 2 <= two53 ->
  SumTs.sum_to_n_c_optimized_int depth n accumulator = Throws msg_stack.
Proof.
  revert n accumulator.
  induction depth as [| depth IH]; intros n accumulator Hdepth Hn Ha Hle;
    rewrite ts_c_optimized_int_unfold; compare_all; try lia53; try reflexivity.
  pose proof (closed_form_twice n). pose proof (closed_form_step n).
  assert (0 <= (n - 1) * (n - 1 + 1) / 2) by (apply Z.div_pos; nia53).
  rewrite add_exact by lia53.
  apply IH; lia53.
Qed.

(** A valid input is never answered with the validation error. *)
Lemma ts_c_int_valid (depth : nat) (n : Z) :
  0 <= n -> SumTs.sum_to_n_c_int depth n <> Throws SumTs.msg_input.
Proof.
  revert n. induction depth as [| depth IH]; intros n Hn;
    rewrite ts_c_int_unfold; compare_all; try lia53; try discriminate;
    try apply for_loop_no_throw.
  specialize (IH (n - 1) ltac:(lia53)).
  destruct (SumTs.sum_to_n_c_int depth (n - 1)); [discriminate | exact IH | discriminate].
Qed.

Lemma ts_c_optimized_int_valid (depth : nat) (n accumulator : Z) :
  0 <= n ->
  SumTs.sum_to_n_c_optimized_int depth n accumulator <> Throws SumTs.msg_input.
Proof.
  revert n accumulator. induction depth as [| depth IH]; intros n accumulator Hn;
    rewrite ts_c_optimized_int_unfold; compare_all; try lia53; try discriminate.
  destruct (add (Finite accumulator) (Finite n)); try discriminate.
  apply IH. lia53.
Qed.

(** The recursion throws nothing but the validation error and the
    engine's stack error. *)
Lemma ts_c_int_throws (depth : nat) (n : Z) (message : string) :
  SumTs.sum_to_n_c_int depth n = Throws message ->
  message = SumTs.msg_input \/ message = msg_stack.
Proof.
  revert n. induction depth as [| depth IH]; intros n;
    rewrite ts_c_int_unfold; compare_all;
    try (intros [= <-]; auto; fail); try discriminate;
    try (intros Hthrow; exfalso; exact (for_loop_no_throw _ _ _ _ Hthrow)).
  destruct (SumTs.sum_to_n_c_int depth (n - 1)) eqn:E; try discriminate.
  intros [= <-]. now apply (IH (n - 1)).
Qed.

Lemma ts_c_optimized_int_throws (depth : nat) (n : Z) (message : string) :
  0 <= n ->
  SumTs.sum_to_n_c_optimized_int depth n 0 = Throws message ->
  message = msg_stack.
Proof.
  intros Hn. pose proof (closed_form_twice n).
  destruct (Z.le_gt_cases n 50000) as [Hsmall | Hbig].
  - destruct (Z.le_gt_cases n (Z.of_nat depth)) as [Hroom | Hfull].
    + rewrite ts_c_optimized_int_closed_form by nia53. discriminate.
    + rewrite ts_c_optimized_int_overflows by nia53. now intros [= <-].
  - rewrite ts_c_optimized_int_unfold. compare_all; try lia. discriminate.
Qed.

(** Below 2^53 and with room for the recursion, every function returns. *)
Lemma ts_c_int_returns (depth : nat) (n : Z) :
  0 <= n -> n < two53 -> Z.min n 10000 <= Z.of_nat depth + 1 ->
  exists r, SumTs.sum_to_n_c_int depth n = Returns r.
Proof.
  intros Hn Hmax Hdepth.
  destruct (Z.le_gt_cases n 10000) as [Hsmall | Hbig].
  - eexists. apply ts_c_int_closed_form; lia53.
  - rewrite ts_c_int_unfold. compare_all; try lia53.
    destruct (for_loop_returns n 1 (Finite 0)) as [total ->]; [lia53 | assumption |].
    now eexists.
Qed.

Lemma ts_c_optimized_int_returns (depth : nat) (n : Z) :
  0 <= n -> Z.min n 50000 <= Z.of_nat depth ->
  exists r, SumTs.sum_to_n_c_optimized_int depth n 0 = Returns r.
Proof.
  intros Hn Hdepth.
  destruct (Z.le_gt_cases n 50000) as [Hsmall | Hbig].
  - eexists. apply ts_c_optimized_int_closed_form; try lia53.
    pose proof (closed_form_twice n). nia53.
  - rewrite ts_c_optimized_int_unfold. compare_all; try lia53. now eexists.
Qed.

End SumFacts.

(** ** Input validation of the TypeScript functions *)

Module ValidationFacts.
Import Js.

Lemma Qred_inject_Z (z : Z) : Qred (inject_Z z) = inject_Z z.
Proof.
  pose proof (Qred_correct (inject_Z z)) as Heq.
  pose proof (gcd_Qred (inject_Z z)) as Hgcd.
  destruct (Qred (inject_Z z)) as [a d].
  unfold Qeq, inject_Z in *. cbn in *.
  assert (Ha : a = Z.pos d * z) by lia. subst a.
  rewrite Z.gcd_comm, Z.gcd_mul_diag_l in Hgcd by lia.
  injection Hgcd as ->. unfold inject_Z. f_equal. lia.
Qed.

Lemma Number_isInteger_Num (q : Q) :
  Number_isInteger (Num q) = true <-> exists z, (q == inject_Z z)%Q.
Proof.
  unfold Number_isInteger. rewrite Pos.eqb_eq. split.
  - intros Hden. exists (Qnum (Qred q)).
    rewrite <- (Qred_correct q) at 1.
    destruct (Qred q) as [a d]. cbn in *. subst d. reflexivity.
  - intros [z Hz]. rewrite (Qred_complete _ _ Hz), Qred_inject_Z. reflexivity.
Qed.

Lemma lt_zero_Num (q : Q) (z : Z) :
  (q == inject_Z z)%Q -> lt_zero (Num q) = (z <? 0).
Proof.
  intros Hz. unfold lt_zero.
  destruct (Qle_bool 0 q) eqn:Hle; cbn.
  - apply Qle_bool_iff in Hle. rewrite Hz in Hle.
    unfold Qle in Hle. cbn in Hle. lia.
  - assert (Hn : ~ (0 <= q)%Q) by (rewrite <- Qle_bool_iff; congruence).
    rewrite Hz in Hn. unfold Qle in Hn. cbn in Hn. lia.
Qed.

Lemma to_Z_Num (q : Q) (z : Z) : (q == inject_Z z)%Q -> to_Z (Num q) = z.
Proof. intros Hz. cbn. rewrite Hz. apply Qfloor_Z. Qed.

(** The guard [!Number.isInteger(n) || n < 0] is false exactly on the
    non-negative integers. *)
Lemma guard_false_iff (v : value) :
  negb (Number_isInteger v) || lt_zero v = false <-> nonneg_integer v.
Proof.
  split.
  - intros Hg. apply orb_false_iff in Hg as [Hint Hlt].
    apply negb_false_iff in Hint.
    destruct v as [q | | | | |]; try discriminate.
    apply Number_isInteger_Num in Hint as [z Hz].
    exists q, z. repeat split; trivial.
    rewrite (lt_zero_Num q z Hz) in Hlt. lia.
  - intros (q & z & -> & Hz & Hpos).
    apply orb_false_iff. split.
    + apply negb_false_iff, Number_isInteger_Num. now exists z.
    + rewrite (lt_zero_Num q z Hz). lia.
Qed.

Lemma guard_true_iff (v : value) :
  negb (Number_isInteger v) || lt_zero v = true <-> ~ nonneg_integer v.
Proof.
  rewrite <- guard_false_iff.
  destruct (negb (Number_isInteger v) || lt_zero v); split; congruence.
Qed.

Lemma nonneg_integer_to_Z (v : value) : nonneg_integer v -> 0 <= to_Z v.
Proof. intros (q & z & -> & Hz & Hpos). now rewrite (to_Z_Num q z Hz). Qed.

Lemma nonneg_integer_of_Z (n : Z) : 0 <= n -> nonneg_integer (of_Z n).
Proof. intros Hn. exists (inject_Z n), n. repeat split; trivial. Qed.

Lemma to_Z_of_Z (n : Z) : to_Z (of_Z n) = n.
Proof. apply Qfloor_Z. Qed.

End ValidationFacts.

Section SumClaims.
Import Js Double DoubleFacts SumFacts ValidationFacts.

Lemma ts_guard_of_Z (n : Z) :
  0 <= n -> negb (Number_isInteger (of_Z n)) || lt_zero (of_Z n) = false.
Proof. intros Hn. now apply guard_false_iff, nonneg_integer_of_Z. Qed.

(** C7, amended.  On every non-negative integer [n] up to 134217727, the
    largest whose sum stays below 2^53, and with room on the call stack
    for the recursion, the four TypeScript functions of [sum.ts] and the
    four JavaScript functions of [sum.js] (the tail-recursive one with
    its default accumulator 0) return the same value, [n * (n + 1) / 2],
    and that division is exact. *)
Theorem sum_to_n_implementations_agree (depth : nat) (n : Z) :
  0 <= n -> n <= 134217727 -> Z.min n 50000 <= Z.of_nat depth ->
  2 * ((n * (n + 1)) / 2) = n * (n + 1) /\
  SumTs.sum_to_n_a (of_Z n) = Returns (Finite ((n * (n + 1)) / 2)) /\
  SumTs.sum_to_n_b (of_Z n) = Returns (Finite ((n * (n + 1)) / 2)) /\
  SumTs.sum_to_n_c depth (of_Z n) = Returns (Finite ((n * (n + 1)) / 2)) /\
  SumTs.sum_to_n_c_optimized depth (of_Z n) None
  = Returns (Finite ((n * (n + 1)) / 2)) /\
  SumJs.sum_to_n_a n = Returns (Finite ((n * (n + 1)) / 2)) /\
  SumJs.sum_to_n_b n = Finite ((n * (n + 1)) / 2) /\
  SumJs.sum_to_n_c depth n = Returns (Finite ((n * (n + 1)) / 2)) /\
  SumJs.sum_to_n_c_optimized depth n (Finite 0)
  = Returns (Finite ((n * (n + 1)) / 2)).
Proof.
  intros Hn Hmax Hdepth.
  pose proof (ts_guard_of_Z n Hn) as Hg.
  pose proof (closed_form_twice n) as Htwice.
  assert (Hlt : (n <? 0) = false) by lia53.
  assert (Hsum : (n * (n + 1)) / 2 <= two53) by (unfold two53; nia53).
  assert (Hformula : formula n = Finite ((n * (n + 1)) / 2))
    by (apply formula_exact; nia53).
  repeat split.
  - exact Htwice.
  - unfold SumTs.sum_to_n_a, SumTs.sum_to_n_a_int.
    rewrite Hg, to_Z_of_Z, Hlt. now apply for_loop_closed_form.
  - unfold SumTs.sum_to_n_b, SumTs.sum_to_n_b_int.
    now rewrite Hg, to_Z_of_Z, Hlt, Hformula.
  - unfold SumTs.sum_to_n_c.
    rewrite Hg, to_Z_of_Z. apply ts_c_int_closed_form; lia53.
  - unfold SumTs.sum_to_n_c_optimized. cbn [SumTs.default_accumulator].
    rewrite Hg, (ts_guard_of_Z 0), !to_Z_of_Z by lia53.
    now rewrite ts_c_optimized_int_closed_form by lia53.
  - now apply for_loop_closed_form.
  - exact Hformula.
  - apply js_c_closed_form; lia53.
  - now rewrite js_c_optimized_closed_form by (lia53).
Qed.

Lemma sum_to_n_implementations_agree_at_100 :
  SumTs.sum_to_n_a (of_Z 100) = Returns (Finite 5050) /\
  SumTs.sum_to_n_c_optimized 100 (of_Z 100) None = Returns (Finite 5050) /\
  SumJs.sum_to_n_c 100 100 = Returns (Finite 5050).
Proof.
  assert (H0 : 0 <= 100) by lia53.
  assert (H1 : 100 <= 134217727) by lia53.
  assert (H2 : Z.min 100 50000 <= Z.of_nat 100) by (vm_compute; discriminate).
  pose proof (sum_to_n_implementations_agree 100 100 H0 H1 H2)
    as (_ & Ha & _ & _ & Hopt & _ & _ & Hc & _).
  repeat split; assumption.
Defined.

(** C7 as stated fails from 134217729 on: the product [n * (n + 1)]
    exceeds 2^54 and is odd twice over, so the formula returns a rounded
    value, one less than the sum. *)
Lemma sum_to_n_b_is_rounded_at_134217729 :
  SumTs.sum_to_n_b (of_Z 134217729) = Returns (Finite 9007199456067584) /\
  SumJs.sum_to_n_b 134217729 = Finite 9007199456067584 /\
  (134217729 * (134217729 + 1)) / 2 = 9007199456067585.
Proof. vm_compute. repeat split. Qed.

(** Validation with an explicit accumulator: the call throws one of the
    two validation errors exactly when [n] or the accumulator is not a
    non-negative integer. *)
Lemma sum_to_n_c_optimized_throws_iff (depth : nat) (n accumulator : value) :
  nonneg_integer n ->
  to_Z (SumTs.default_accumulator (Some accumulator)) + (to_Z n * (to_Z n + 1)) / 2
  <= two53 ->
  Z.min (to_Z n) 50000 <= Z.of_nat depth ->
  SumTs.sum_to_n_c_optimized depth n (Some accumulator)
  = Throws SumTs.msg_accumulator <->
  ~ nonneg_integer (SumTs.default_accumulator (Some accumulator)).
Proof.
  intros Hn Hle Hdepth. unfold SumTs.sum_to_n_c_optimized.
  set (acc := SumTs.default_accumulator (Some accumulator)) in *.
  apply guard_false_iff in Hn as Hg. rewrite Hg.
  destruct (negb (Number_isInteger acc) || lt_zero acc) eqn:Ha.
  - apply guard_true_iff in Ha. tauto.
  - apply guard_false_iff in Ha.
    rewrite ts_c_optimized_int_closed_form;
      try (apply nonneg_integer_to_Z; assumption); trivial.
    split; [discriminate | tauto].
Qed.

(** C8, amended.  Each function of [sum.ts], called with one argument,
    throws its validation error exactly when that argument is not a
    non-negative integer, whatever the room on the call stack; on a
    non-negative integer below 2^53 it returns a value, provided the call
    stack has room for the recursion; and the only other error that can
    come out of a call is the engine's, for want of room on the call
    stack. *)
Theorem sum_ts_throws_iff_not_nonneg_integer (depth : nat) (v : value) :
  (SumTs.sum_to_n_a v = Throws SumTs.msg_input <-> ~ nonneg_integer v) /\
  (SumTs.sum_to_n_b v = Throws SumTs.msg_input <-> ~ nonneg_integer v) /\
  (SumTs.sum_to_n_c depth v = Throws SumTs.msg_input <-> ~ nonneg_integer v) /\
  (SumTs.sum_to_n_c_optimized depth v None = Throws SumTs.msg_input
   <-> ~ nonneg_integer v) /\
  (nonneg_integer v -> to_Z v < two53 ->
   Z.min (to_Z v) 50000 <= Z.of_nat depth ->
   exists a b c d,
     SumTs.sum_to_n_a v = Returns a /\
     SumTs.sum_to_n_b v = Returns b /\
     SumTs.sum_to_n_c depth v = Returns c /\
     SumTs.sum_to_n_c_optimized depth v None = Returns d) /\
  (forall message,
     SumTs.sum_to_n_a v = Throws message \/
     SumTs.sum_to_n_b v = Throws message \/
     SumTs.sum_to_n_c depth v = Throws message \/
     SumTs.sum_to_n_c_optimized depth v None = Throws message ->
     message = SumTs.msg_input \/ message = msg_stack).
Proof.
  unfold SumTs.sum_to_n_a, SumTs.sum_to_n_b, SumTs.sum_to_n_c,
    SumTs.sum_to_n_c_optimized, SumTs.sum_to_n_a_int, SumTs.sum_to_n_b_int.
  cbn [SumTs.default_accumulator].
  rewrite (ts_guard_of_Z 0), (to_Z_of_Z 0) by lia53.
  destruct (negb (Number_isInteger v) || lt_zero v) eqn:Hg.
  - apply guard_true_iff in Hg.
    repeat split; try tauto.
    intros message [[= <-] | [[= <-] | [[= <-] | [= <-]]]]; now left.
  - apply guard_false_iff in Hg.
    pose proof (nonneg_integer_to_Z v Hg) as Hz.
    assert (Hlt : (to_Z v <? 0) = false) by lia53.
    rewrite Hlt.
    pose proof (for_loop_no_throw (to_Z v) 1 (Finite 0)) as Hloop.
    pose proof (ts_c_int_valid depth (to_Z v) Hz).
    pose proof (ts_c_optimized_int_valid depth (to_Z v) 0 Hz).
    pose proof (Hloop SumTs.msg_input).
    repeat split; try tauto; try discriminate.
    + intros _ Hmax Hdepth.
      destruct (for_loop_returns (to_Z v) 1 (Finite 0)) as [a Ha];
        [lia53 | assumption |].
      destruct (ts_c_int_returns depth (to_Z v)) as [c Hc]; try lia53.
      destruct (ts_c_optimized_int_returns depth (to_Z v)) as [d Hd]; try lia53.
      exists a, (formula (to_Z v)), c, d. repeat split; assumption.
    + intros message [Ha | [Hb | [Hc | Hd]]].
      * exfalso. exact (Hloop _ Ha).
      * discriminate.
      * now apply ts_c_int_throws in Hc.
      * right. now apply ts_c_optimized_int_throws in Hd.
Qed.

Lemma sum_ts_throws_iff_not_nonneg_integer_sample :
  SumTs.sum_to_n_a (Str "5") = Throws SumTs.msg_input /\
  exists a b c d,
    SumTs.sum_to_n_a (of_Z 100) = Returns a /\
    SumTs.sum_to_n_b (of_Z 100) = Returns b /\
    SumTs.sum_to_n_c 100 (of_Z 100) = Returns c /\
    SumTs.sum_to_n_c_optimized 100 (of_Z 100) None = Returns d.
Proof.
  split.
  - apply (sum_ts_throws_iff_not_nonneg_integer 0 (Str "5")).
    intros (q & z & H & _). discriminate.
  - apply (sum_ts_throws_iff_not_nonneg_integer 100 (of_Z 100)).
    + apply nonneg_integer_of_Z. lia.
    + rewrite to_Z_of_Z. reflexivity.
    + rewrite to_Z_of_Z. vm_compute. discriminate.
Defined.

(** C8 as stated fails on non-negative integers.  At 2^53 the loop of
    [sum_to_n_a] never ends, because adding 1 to 2^53 gives 2^53 again;
    and [sum_to_n_c_optimized] called with 5 and the accumulator -1
    throws, its second validation error, although 5 is valid. *)
Lemma valid_n_without_normal_return :
  (nonneg_integer (of_Z 9007199254740992) /\
   SumTs.sum_to_n_a (of_Z 9007199254740992) = Loops) /\
  (nonneg_integer (of_Z 5) /\
   SumTs.sum_to_n_c_optimized 100 (of_Z 5) (Some (of_Z (-1)))
   = Throws SumTs.msg_accumulator).
Proof.
  split; split; try (apply nonneg_integer_of_Z; lia).
  - unfold SumTs.sum_to_n_a, SumTs.sum_to_n_a_int.
    rewrite ts_guard_of_Z, to_Z_of_Z by lia.
    change (9007199254740992 <? 0) with false. cbv iota.
    apply for_loop_stalls; lia53.
  - vm_compute. reflexivity.
Qed.

End SumClaims.

(** ** Action token validation *)

Module TokenFacts.
Import ActionToken.

Section WithCrypto.
Variable expectedSignature : Payload -> string.
Variable timingSafeEqual : string -> string -> option bool.

Abbreviation validate := (validateActionToken expectedSignature timingSafeEqual).
Abbreviation resume := (ActionToken.resume expectedSignature timingSafeEqual).
Abbreviation verifies := (ActionToken.verifies expectedSignature timingSafeEqual).

(** Running the two turns of a call back to back is the uninterrupted
    function. *)
Lemma resume_twice (now : Z) (token : Token) (r : Redis) :
  let '(c, r1) := resume now (NotStarted token) r in
  let '(c', r2) := resume now c r1 in
  (c', r2) = (Finished (fst (validate now token r)), snd (validate now token r)).
Proof.
  unfold validateActionToken. cbn.
  destruct (timingSafeEqual _ _) as [[|]|]; cbn; trivial.
  destruct (_ >? _); cbn; trivial.
  destruct (truthy _); reflexivity.
Qed.

Lemma redis_get_setex (now later : Z) (key v : string) (seconds : Z) (r : Redis) :
  later < now + seconds * 1000 ->
  redis_get later key (redis_setex now key seconds v r) = Some v.
Proof.
  intros Hlater. unfold redis_get, redis_setex.
  rewrite lookup_insert_eq.
  destruct (later <? now + seconds * 1000) eqn:E; [reflexivity | lia].
Qed.

(** The expiry test, once the signature has verified. *)
Lemma validate_expired (now : Z) (token : Token) (r : Redis) :
  verifies token ->
  now - timestamp (payload token) > 5 * 60 * 1000 ->
  validate now token r = (Rejected token_expired, r).
Proof.
  intros Hsig Hage. unfold validateActionToken. rewrite Hsig.
  destruct (_ >? _) eqn:E; [reflexivity | lia].
Qed.

Lemma validate_fresh (now : Z) (token : Token) (r : Redis) :
  verifies token ->
  now - timestamp (payload token) <= 5 * 60 * 1000 ->
  truthy (redis_get now (nonceKey (payload token)) r) = false ->
  validate now token r
  = (Accepted (payload token),
     redis_setex now (nonceKey (payload token)) 600 "1" r).
Proof.
  intros Hsig Hage Hfresh. unfold validateActionToken. rewrite Hsig.
  destruct (_ >? _) eqn:E; [lia |]. now rewrite Hfresh.
Qed.

(** A verified, unexpired token whose nonce key is live in Redis is a
    replay, and Redis is left as it was. *)
Lemma validate_replay (now : Z) (token : Token) (r : Redis) :
  verifies token ->
  now - timestamp (payload token) <= 5 * 60 * 1000 ->
  truthy (redis_get now (nonceKey (payload token)) r) = true ->
  validate now token r = (Rejected replay_attack, r).
Proof.
  intros Hsig Hage Hseen. unfold validateActionToken. rewrite Hsig.
  destruct (_ >? _) eqn:E; [lia |]. now rewrite Hseen.
Qed.

End WithCrypto.

End TokenFacts.

Section TokenClaims.
Import ActionToken TokenSamples TokenFacts.

(** C3.  For a token whose signature verifies and whose nonce is not in
    Redis, validation rejects with TOKEN_EXPIRED exactly when the token's
    age (validation time minus issue timestamp) exceeds 5 minutes; at an
    age of at most 5 minutes, the boundary included, it accepts the token. *)
Theorem expired_iff_age_exceeds_window
  (expectedSignature : Payload -> string)
  (timingSafeEqual : string -> string -> option bool)
  (now : Z) (token : Token) (r : Redis) :
  verifies expectedSignature timingSafeEqual token ->
  truthy (redis_get now (nonceKey (payload token)) r) = false ->
  (fst (validateActionToken expectedSignature timingSafeEqual now token r)
   = Rejected token_expired
   <-> now - timestamp (payload token) > 300000) /\
  (now - timestamp (payload token) <= 300000 ->
   fst (validateActionToken expectedSignature timingSafeEqual now token r)
   = Accepted (payload token)) /\
  (now - timestamp (payload token) = 300000 ->
   fst (validateActionToken expectedSignature timingSafeEqual now token r)
   = Accepted (payload token)).
Proof.
  intros Hsig Hfresh.
  destruct (Z_gt_dec (now - timestamp (payload token)) 300000) as [Hold | Hyoung].
  - rewrite validate_expired by (trivial; lia). cbn.
    repeat split; trivial; lia.
  - rewrite validate_fresh by (trivial; lia). cbn.
    repeat split; trivial; try discriminate; try lia.
Qed.

Lemma expired_iff_age_exceeds_window_at_boundary :
  fst (validateActionToken sign_ab equal_hex 300000 sample_token ∅)
  = Accepted sample_payload.
Proof.
  refine (proj2 (proj2 (expired_iff_age_exceeds_window sign_ab equal_hex
                          300000 sample_token ∅ _ _)) _);
    reflexivity.
Defined.

End TokenClaims.

Section ReplayClaims.
Import ActionToken TokenSamples TokenFacts.

(** Two submissions of one token whose turns alternate: both calls read
    Redis before either writes the nonce, and both are accepted. *)
Lemma interleaved_duplicate_both_accepted
  (expectedSignature : Payload -> string)
  (timingSafeEqual : string -> string -> option bool)
  (now : Z) (token : Token) (r : Redis) :
  verifies expectedSignature timingSafeEqual token ->
  now - timestamp (payload token) <= 300000 ->
  truthy (redis_get now (nonceKey (payload token)) r) = false ->
  let w := run expectedSignature timingSafeEqual
             [(First, now); (Second, now); (First, now); (Second, now)]
             (mkInFlight (NotStarted token) (NotStarted token) r) in
  first_call w = Finished (Accepted (payload token)) /\
  second_call w = Finished (Accepted (payload token)).
Proof.
  intros Hsig Hage Hfresh.
  assert (E : (now - timestamp (payload token) >? 5 * 60 * 1000) = false) by lia.
  unfold verifies in Hsig.
  cbn -[redis_get redis_setex truthy Z.gtb Z.sub Z.mul].
  rewrite Hsig, E.
  cbn -[redis_get redis_setex truthy Z.gtb Z.sub Z.mul].
  rewrite Hsig, E.
  cbn -[redis_get redis_setex truthy Z.gtb Z.sub Z.mul].
  rewrite Hfresh.
  cbn -[redis_get redis_setex truthy Z.gtb Z.sub Z.mul].
  rewrite Hfresh. auto.
Qed.

(** The same two calls with the first one finished before the second
    starts: one is accepted, the other is a replay. *)
Lemma serial_duplicate_one_accepted
  (expectedSignature : Payload -> string)
  (timingSafeEqual : string -> string -> option bool)
  (now1 now2 : Z) (token : Token) (r : Redis) :
  verifies expectedSignature timingSafeEqual token ->
  truthy (redis_get now1 (nonceKey (payload token)) r) = false ->
  now1 <= now2 ->
  now2 < now1 + 600000 ->
  now2 - timestamp (payload token) <= 300000 ->
  let w := run expectedSignature timingSafeEqual
             [(First, now1); (First, now1); (Second, now2); (Second, now2)]
             (mkInFlight (NotStarted token) (NotStarted token) r) in
  first_call w = Finished (Accepted (payload token)) /\
  second_call w = Finished (Rejected replay_attack).
Proof.
  intros Hsig Hfresh Hle Httl Hage.
  assert (E1 : (now1 - timestamp (payload token) >? 5 * 60 * 1000) = false) by lia.
  assert (E2 : (now2 - timestamp (payload token) >? 5 * 60 * 1000) = false) by lia.
  assert (Hseen : redis_get now2 (nonceKey (payload token))
                    (redis_setex now1 (nonceKey (payload token)) 600 "1" r)
                  = Some "1") by (apply redis_get_setex; lia).
  unfold verifies in Hsig.
  cbn -[redis_get redis_setex truthy Z.gtb Z.sub Z.mul].
  rewrite Hsig, E1.
  cbn -[redis_get redis_setex truthy Z.gtb Z.sub Z.mul].
  rewrite Hfresh.
  cbn -[redis_get redis_setex truthy Z.gtb Z.sub Z.mul].
  rewrite Hsig, E2.
  cbn -[redis_get redis_setex truthy Z.gtb Z.sub Z.mul].
  rewrite Hseen. auto.
Qed.

Lemma interleaved_duplicate_sample :
  let w := run sign_ab equal_hex
             [(First, 0); (Second, 0); (First, 0); (Second, 0)]
             (mkInFlight (NotStarted sample_token) (NotStarted sample_token) ∅) in
  first_call w = Finished (Accepted sample_payload) /\
  second_call w = Finished (Accepted sample_payload).
Proof.
  apply interleaved_duplicate_both_accepted;
    first [reflexivity | cbn; lia].
Qed.

(** C1, as stated, fails: the sample token is accepted at instant 0; its
    second submission 300001 ms later finds the nonce still recorded, yet
    is rejected as TOKEN_EXPIRED and not as a replay. *)
Lemma second_submission_after_expiry_is_not_replay :
  fst (validateActionToken sign_ab equal_hex 0 sample_token ∅)
  = Accepted sample_payload /\
  redis_get 300001 (nonceKey sample_payload)
    (snd (validateActionToken sign_ab equal_hex 0 sample_token ∅)) = Some "1" /\
  fst (validateActionToken sign_ab equal_hex 300001 sample_token
         (snd (validateActionToken sign_ab equal_hex 0 sample_token ∅)))
  = Rejected token_expired /\
  token_expired <> replay_attack.
Proof. repeat split; try reflexivity. discriminate. Qed.

(** C1, amended.  A token whose signature verifies and whose nonce is not
    yet recorded, submitted twice one call after the other, the second
    time while still within the 5-minute window and within the 10-minute
    retention of the nonce: the first call is accepted and records the
    nonce, the second is rejected as a replay and leaves Redis unchanged;
    so is any verified, unexpired token carrying the same nonce. *)
Theorem sequential_duplicate_one_accepted_one_replay
  (expectedSignature : Payload -> string)
  (timingSafeEqual : string -> string -> option bool)
  (now1 now2 : Z) (token : Token) (r : Redis) :
  verifies expectedSignature timingSafeEqual token ->
  truthy (redis_get now1 (nonceKey (payload token)) r) = false ->
  now1 <= now2 ->
  now2 < now1 + 600000 ->
  now2 - timestamp (payload token) <= 300000 ->
  fst (validateActionToken expectedSignature timingSafeEqual now1 token r)
  = Accepted (payload token) /\
  redis_get now2 (nonceKey (payload token))
    (snd (validateActionToken expectedSignature timingSafeEqual now1 token r))
  = Some "1" /\
  validateActionToken expectedSignature timingSafeEqual now2 token
    (snd (validateActionToken expectedSignature timingSafeEqual now1 token r))
  = (Rejected replay_attack,
     snd (validateActionToken expectedSignature timingSafeEqual now1 token r)) /\
  (forall other : Token,
     verifies expectedSignature timingSafeEqual other ->
     nonce (payload other) = nonce (payload token) ->
     now2 - timestamp (payload other) <= 300000 ->
     fst (validateActionToken expectedSignature timingSafeEqual now2 other
            (snd (validateActionToken expectedSignature timingSafeEqual now1 token r)))
     = Rejected replay_attack).
Proof.
  intros Hsig Hfresh Hle Httl Hage.
  rewrite (validate_fresh _ _ now1 token r) by (trivial; lia). cbn [fst snd].
  assert (Hseen : redis_get now2 (nonceKey (payload token))
                    (redis_setex now1 (nonceKey (payload token)) 600 "1" r)
                  = Some "1") by (apply redis_get_setex; lia).
  repeat split; trivial.
  - apply validate_replay; trivial. now rewrite Hseen.
  - intros other Hsig' Hnonce Hage'.
    rewrite validate_replay; trivial.
    unfold nonceKey in *. now rewrite Hnonce, Hseen.
Qed.

Lemma sequential_duplicate_sample :
  fst (validateActionToken sign_ab equal_hex 0 sample_token ∅)
  = Accepted sample_payload /\
  fst (validateActionToken sign_ab equal_hex 1000 sample_token
         (snd (validateActionToken sign_ab equal_hex 0 sample_token ∅)))
  = Rejected replay_attack.
Proof.
  assert (H1 : verifies sign_ab equal_hex sample_token) by reflexivity.
  assert (H2 : truthy (redis_get 0 (nonceKey (payload sample_token)) ∅) = false)
    by reflexivity.
  assert (H3 : 0 <= 1000) by lia.
  assert (H4 : 1000 < 0 + 600000) by lia.
  assert (H5 : 1000 - timestamp (payload sample_token) <= 300000)
    by (cbn; lia).
  pose proof (sequential_duplicate_one_accepted_one_replay
                sign_ab equal_hex 0 1000 sample_token ∅ H1 H2 H3 H4 H5)
    as (Hfirst & _ & Hsecond & _).
  split; [exact Hfirst | now rewrite Hsecond].
Defined.

End ReplayClaims.

(** ** Score ledger *)

Module LedgerFacts.
Import ScoreLedger.

Lemma perform_all_some (available : nat -> bool) (ws : list Write) :
  forall k work work',
    perform_all available k ws work = Some work' ->
    work' = fold_left (fun l w => perform w l) ws work.
Proof.
  induction ws as [| w rest IH]; cbn; intros k work work' H.
  - now injection H as <-.
  - destruct (available k); [| discriminate]. eauto.
Qed.

(** The observable state after an atomic unit is either the state with
    every write performed, or the state before it. *)
Lemma atomically_all_or_nothing (available : nat -> bool) (ws : list Write)
  (l : Ledger) :
  atomically available ws l = (true, fold_left (fun l w => perform w l) ws l)
  \/ atomically available ws l = (false, l).
Proof.
  unfold atomically.
  destruct (perform_all available 0 ws l) as [work |] eqn:E; [| now right].
  apply perform_all_some in E as ->.
  destruct (available (length ws)); [now left | now right].
Qed.

(** When the storage answers every operation the unit commits. *)
Lemma atomically_available (ws : list Write) (l : Ledger) :
  atomically (fun _ => true) ws l
  = (true, fold_left (fun l w => perform w l) ws l).
Proof.
  unfold atomically.
  assert (H : forall k work, perform_all (fun _ => true) k ws work
                = Some (fold_left (fun l w => perform w l) ws work)).
  { induction ws as [| w rest IH]; cbn; intros; [reflexivity | apply IH]. }
  now rewrite H.
Qed.

Lemma logged_total_snoc (user : string) (h : list ScoreHistoryEntry)
  (e : ScoreHistoryEntry) :
  logged_total user (h ++ [e])
  = logged_total user h + (if decide (entry_user e = user) then increment e else 0).
Proof.
  unfold logged_total. rewrite filter_app, map_app, fold_right_app.
  generalize (map increment (filter (fun e0 => entry_user e0 = user) h)).
  intros xs. rewrite filter_cons, filter_nil.
  destruct (decide (entry_user e = user)); cbn [map fold_right].
  - induction xs as [| x xs IH]; cbn [fold_right]; lia.
  - induction xs as [| x xs IH]; cbn [fold_right]; lia.
Qed.

Lemma empty_consistent : consistent empty.
Proof. intros user. reflexivity. Qed.

Lemma applyIncrement_cases
  (available : nat -> bool) (user : string) (inc : Z) (action : string)
  (now : Z) (l : Ledger) :
  applyIncrement available user inc action now l
  = (Applied (mkEntry user (score l user) (score l user + inc) inc action now),
     mkLedger (<[user := score l user + inc]> (scores l))
       (history l ++ [mkEntry user (score l user) (score l user + inc) inc action now]))
  \/
  applyIncrement available user inc action now l = (TransientStorageError, l).
Proof.
  unfold applyIncrement.
  destruct (atomically_all_or_nothing available
              [SetScore user (score l user + inc);
               AppendHistory (mkEntry user (score l user) (score l user + inc)
                                inc action now)] l) as [-> | ->]; cbn; auto.
Qed.

End LedgerFacts.

Section LedgerClaims.
Import ScoreLedger LedgerFacts.

(** C2.  Every application attempt ends in one of two observable states:
    the user's score changed by the increment together with exactly one
    new history entry recording it, or the ledger exactly as it was, with
    the failure reported.  A failed request leaves every score and the
    history unchanged. *)
Theorem score_and_history_commit_together
  (available : nat -> bool) (user : string) (inc : Z) (action : string)
  (now : Z) (l : Ledger) :
  (applyIncrement available user inc action now l
   = (Applied (mkEntry user (score l user) (score l user + inc) inc action now),
      mkLedger (<[user := score l user + inc]> (scores l))
        (history l ++ [mkEntry user (score l user) (score l user + inc) inc action now]))
   \/
   applyIncrement available user inc action now l = (TransientStorageError, l))
  /\
  (fst (applyIncrement available user inc action now l) = TransientStorageError ->
   snd (applyIncrement available user inc action now l) = l)
  /\
  (forall e, fst (applyIncrement available user inc action now l) = Applied e ->
     score (snd (applyIncrement available user inc action now l)) user
     = score l user + inc /\
     history (snd (applyIncrement available user inc action now l))
     = history l ++ [e] /\
     increment e = inc /\ old_score e = score l user /\
     new_score e = score l user + inc).
Proof.
  destruct (applyIncrement_cases available user inc action now l)
    as [-> | ->]; cbn.
  - split; [now left | split; [discriminate |]].
    intros e [= <-]. cbn. repeat split.
    unfold score. cbn. now rewrite lookup_insert_eq.
  - split; [now right | split; [reflexivity | discriminate]].
Qed.

(** The invariant over whole runs: after any sequence of attempts, with
    the storage failing wherever it likes, each score equals the sum of
    the increments in that user's history entries. *)
Lemma attempts_preserve_consistency (attempts : list Attempt) (l : Ledger) :
  consistent l -> consistent (after_attempts attempts l).
Proof.
  revert l. induction attempts as [| a rest IH]; intros l Hl; [exact Hl |].
  cbn. apply IH. unfold attempt_step.
  destruct (applyIncrement_cases (attempt_available a)
              (attempt_user a) (attempt_increment a) (attempt_action a)
              (attempt_time a) l) as [-> | ->]; cbn; [| exact Hl].
  intros user. cbn [history]. rewrite logged_total_snoc.
  cbn [entry_user increment]. unfold score at 1. cbn [scores].
  destruct (decide (attempt_user a = user)) as [<- | Hne].
  - rewrite lookup_insert_eq. cbn [default]. rewrite <- Hl. reflexivity.
  - rewrite lookup_insert_ne by trivial. rewrite Z.add_0_r. apply Hl.
Qed.

End LedgerClaims.

(** ** Fraud detection engine *)

Module FraudFacts.
Import Js Fraud.
Local Open Scope Q_scope.

Lemma Qle_bool_false (x y : Q) : Qle_bool x y = false <-> y < x.
Proof.
  split.
  - intros H. apply Qnot_le_lt. intros Hle.
    apply Qle_bool_iff in Hle. congruence.
  - intros H. destruct (Qle_bool x y) eqn:E; trivial.
    apply Qle_bool_iff in E. lra.
Qed.

(** Each of the three analyses the design gives a body for returns one of
    a few constants, all within [0, 1]. *)
Lemma analyzeFrequency_bounded (row : FrequencyRow) :
  unit_interval (analyzeFrequency row).
Proof.
  unfold analyzeFrequency, unit_interval.
  repeat match goal with |- context [if ?b then _ else _] => destruct b end;
    lra.
Qed.

Lemma analyzeScorePattern_bounded (rows : list HistoryRow) (scoreIncrement : Z) :
  unit_interval (analyzeScorePattern rows scoreIncrement).
Proof.
  unfold analyzeScorePattern, unit_interval.
  destruct (map score_increment rows); [lra |].
  cbv zeta.
  repeat match goal with |- context [if ?b then _ else _] => destruct b end;
    lra.
Qed.

Lemma analyzeBehavior_bounded JSON_parse behavior metadata (q : Q) :
  analyzeBehavior JSON_parse behavior metadata = Return q -> unit_interval q.
Proof.
  unfold analyzeBehavior, unit_interval.
  destruct (behavior !! "action_types") as [[|c s]|];
    try (intros [= <-]; lra).
  destruct (JSON_parse _) as [[| actionTypes] |]; try discriminate.
  cbv zeta. destruct (property _ _); [| intros [= <-]; lra].
  repeat match goal with |- context [if ?b then _ else _] => destruct b end;
    intros [= <-]; lra.
Qed.

Lemma assessRisk_unfold JSON_parse analyzeDevice analyzeTimePatterns
  stores userId scoreIncrement metadata (a : RiskAssessment) :
  assessRisk JSON_parse analyzeDevice analyzeTimePatterns stores userId
    scoreIncrement metadata = Return a ->
  exists b,
    analyzeBehavior JSON_parse (behavior_hash stores userId) metadata = Return b /\
    let fr := analyzeFrequency (frequency_query stores userId) in
    let p := analyzeScorePattern (history_query stores userId) scoreIncrement in
    let d := analyzeDevice userId metadata in
    let t := analyzeTimePatterns userId in
    a = mkRiskAssessment (Qmin (weighted fr p b d t) 1.0)
          [mkRiskFactor FREQUENCY fr; mkRiskFactor PATTERN p;
           mkRiskFactor BEHAVIOR b; mkRiskFactor DEVICE d; mkRiskFactor TIME t]
          (getRecommendation (weighted fr p b d t)).
Proof.
  unfold assessRisk.
  destruct (analyzeBehavior _ _ _) as [b | m]; cbn; [| discriminate].
  intros [= <-]. exists b. split; reflexivity.
Qed.

(** In double arithmetic too the weights add up to exactly 1: with every
    sub-score at 1 the accumulated total is [1.0]. *)
Lemma weights_sum_binary64 : weighted_binary64 1 1 1 1 1 = 1%float.
Proof. vm_compute. reflexivity. Qed.

Lemma recommendation_thresholds_allow (r : Q) :
  r < 0.4 -> getRecommendation r = ALLOW.
Proof.
  intros Hr. unfold getRecommendation.
  destruct (Qle_bool 0.8 r) eqn:E8; [apply Qle_bool_iff in E8; lra |].
  destruct (Qle_bool 0.6 r) eqn:E6; [apply Qle_bool_iff in E6; lra |].
  destruct (Qle_bool 0.4 r) eqn:E4; [apply Qle_bool_iff in E4; lra |].
  reflexivity.
Qed.

End FraudFacts.

Section FraudClaims.
Import Js Fraud FraudFacts.
Local Open Scope Q_scope.

(** C4.  For every risk score [r] (in particular every [r] in [0, 1]):
    the recommendation is BLOCK iff [r >= 0.8], CHALLENGE iff
    [0.6 <= r < 0.8], MONITOR iff [0.4 <= r < 0.6], ALLOW iff [r < 0.4]. *)
Theorem recommendation_thresholds (r : Q) :
  (getRecommendation r = BLOCK <-> 0.8 <= r) /\
  (getRecommendation r = CHALLENGE <-> 0.6 <= r /\ r < 0.8) /\
  (getRecommendation r = MONITOR <-> 0.4 <= r /\ r < 0.6) /\
  (getRecommendation r = ALLOW <-> r < 0.4).
Proof.
  unfold getRecommendation.
  destruct (Qle_bool 0.8 r) eqn:E8;
    [apply Qle_bool_iff in E8 | apply Qle_bool_false in E8];
  (destruct (Qle_bool 0.6 r) eqn:E6;
    [apply Qle_bool_iff in E6 | apply Qle_bool_false in E6]);
  (destruct (Qle_bool 0.4 r) eqn:E4;
    [apply Qle_bool_iff in E4 | apply Qle_bool_false in E4]);
  repeat split; intros; try discriminate; try lra;
    repeat match goal with H : _ /\ _ |- _ => destruct H end; lra.
Qed.

(** C5.  Whenever every sub-score the engine recorded lies in [0, 1], the
    total risk score it returns lies in [0, 1]; the total is the clamped
    weighted sum of the five sub-scores with the weights 0.3, 0.25, 0.2,
    0.15 and 0.1, which add up to exactly 1. *)
Theorem total_risk_score_bounded
  (JSON_parse : string -> option Parsed)
  (analyzeDevice : string -> Metadata -> Q)
  (analyzeTimePatterns : string -> Q)
  (stores : Stores) (userId : string) (scoreIncrement : Z)
  (metadata : Metadata) (a : RiskAssessment) :
  assessRisk JSON_parse analyzeDevice analyzeTimePatterns stores userId
    scoreIncrement metadata = Return a ->
  (forall f, In f (riskFactors a) -> 0 <= score f /\ score f <= 1) ->
  (0 <= totalRiskScore a /\ totalRiskScore a <= 1) /\
  (exists fr p b d t,
     riskFactors a
     = [mkRiskFactor FREQUENCY fr; mkRiskFactor PATTERN p;
        mkRiskFactor BEHAVIOR b; mkRiskFactor DEVICE d; mkRiskFactor TIME t] /\
     totalRiskScore a
     == Qmin (fr * 0.3 + p * 0.25 + b * 0.2 + d * 0.15 + t * 0.1) 1) /\
  0.3 + 0.25 + 0.2 + 0.15 + 0.1 == 1.
Proof.
  intros Hrun Hscores.
  apply assessRisk_unfold in Hrun as (b & _ & Ha). cbv zeta in Ha.
  set (fr := analyzeFrequency _) in Ha.
  set (p := analyzeScorePattern _ _) in Ha.
  set (d := analyzeDevice _ _) in Ha.
  set (t := analyzeTimePatterns _) in Ha.
  subst a. cbn [totalRiskScore riskFactors] in *.
  assert (Hfr := Hscores (mkRiskFactor FREQUENCY fr)).
  assert (Hp := Hscores (mkRiskFactor PATTERN p)).
  assert (Hb := Hscores (mkRiskFactor BEHAVIOR b)).
  assert (Hd := Hscores (mkRiskFactor DEVICE d)).
  assert (Ht := Hscores (mkRiskFactor TIME t)).
  cbn in Hfr, Hp, Hb, Hd, Ht.
  specialize (Hfr ltac:(tauto)). specialize (Hp ltac:(tauto)).
  specialize (Hb ltac:(tauto)). specialize (Hd ltac:(tauto)).
  specialize (Ht ltac:(tauto)).
  split; [| split].
  - unfold weighted.
    destruct (Q.min_spec (0 + fr * 0.3 + p * 0.25 + b * 0.2 + d * 0.15 + t * 0.1) 1.0)
      as [[Hlt ->] | [Hle ->]]; lra.
  - exists fr, p, b, d, t. split; [reflexivity |].
    unfold weighted.
    assert (E : 0 + fr * 0.3 + p * 0.25 + b * 0.2 + d * 0.15 + t * 0.1
                == fr * 0.3 + p * 0.25 + b * 0.2 + d * 0.15 + t * 0.1) by lra.
    assert (E1 : 1.0 == 1) by reflexivity.
    now rewrite E, E1.
  - reflexivity.
Qed.

End FraudClaims.

Section NewUserClaims.
Import Js Fraud FraudFacts FraudSamples.
Local Open Scope Q_scope.

Lemma total_risk_score_bounded_sample :
  exists a,
    assessRisk no_parse device_half time_half empty_stores "u1" 50 sample_metadata
    = Return a /\
    0 <= totalRiskScore a /\ totalRiskScore a <= 1.
Proof.
  eexists. split; [reflexivity |].
  refine (proj1 (total_risk_score_bounded no_parse device_half time_half
                   empty_stores "u1" 50%Z sample_metadata _ eq_refl _)).
  intros f Hf. cbn in Hf.
  repeat (destruct Hf as [<- | Hf]; [cbn; split; discriminate |]).
  destruct Hf.
Defined.

(** C6.  For a user with no recorded score history the engine returns an
    assessment (it does not throw), and the history-dependent sub-scores
    take fixed defaults: 0.1 for frequency and for the score pattern, 0.2
    for behaviour, each strictly between 0 and the lowest threshold 0.4. *)
Theorem new_user_default_risk
  (JSON_parse : string -> option Parsed)
  (analyzeDevice : string -> Metadata -> Q)
  (analyzeTimePatterns : string -> Q)
  (stores : Stores) (userId : string) (scoreIncrement : Z)
  (metadata : Metadata) :
  new_user stores userId ->
  analyzeFrequency (frequency_query stores userId) = 0.1 /\
  analyzeScorePattern (history_query stores userId) scoreIncrement = 0.1 /\
  analyzeBehavior JSON_parse (behavior_hash stores userId) metadata = Return 0.2 /\
  (exists a,
     assessRisk JSON_parse analyzeDevice analyzeTimePatterns stores userId
       scoreIncrement metadata = Return a /\
     riskFactors a
     = [mkRiskFactor FREQUENCY 0.1; mkRiskFactor PATTERN 0.1;
        mkRiskFactor BEHAVIOR 0.2;
        mkRiskFactor DEVICE (analyzeDevice userId metadata);
        mkRiskFactor TIME (analyzeTimePatterns userId)]) /\
  (0 < 0.1 /\ 0.1 < 0.4) /\ (0 < 0.2 /\ 0.2 < 0.4).
Proof.
  intros (Hfreq & Hhist & Hbeh).
  assert (Hb : analyzeBehavior JSON_parse (behavior_hash stores userId) metadata
               = Return 0.2) by (unfold analyzeBehavior; now rewrite Hbeh).
  repeat split; try reflexivity.
  - now rewrite Hfreq.
  - now rewrite Hhist.
  - exact Hb.
  - unfold assessRisk. rewrite Hb, Hfreq, Hhist. cbn.
    eexists. split; reflexivity.
Qed.

Lemma new_user_default_risk_sample :
  analyzeBehavior no_parse (behavior_hash empty_stores "u1") sample_metadata
  = Return 0.2 /\
  exists a,
    assessRisk no_parse device_half time_half empty_stores "u1" 50 sample_metadata
    = Return a.
Proof.
  assert (Hnew : new_user empty_stores "u1") by (repeat split).
  pose proof (new_user_default_risk no_parse device_half time_half
                empty_stores "u1" 50%Z sample_metadata Hnew)
    as (_ & _ & Hb & (a & Ha & _) & _).
  split; [exact Hb | exists a; exact Ha].
Defined.

(** With device and time sub-scores in [0, 1], a new user's weighted sum
    stays below 0.4 and the recommendation is ALLOW. *)
Lemma new_user_allowed
  (JSON_parse : string -> option Parsed)
  (analyzeDevice : string -> Metadata -> Q)
  (analyzeTimePatterns : string -> Q)
  (stores : Stores) (userId : string) (scoreIncrement : Z)
  (metadata : Metadata) (a : RiskAssessment) :
  new_user stores userId ->
  unit_interval (analyzeDevice userId metadata) ->
  unit_interval (analyzeTimePatterns userId) ->
  assessRisk JSON_parse analyzeDevice analyzeTimePatterns stores userId
    scoreIncrement metadata = Return a ->
  recommendation a = ALLOW.
Proof.
  intros (Hfreq & Hhist & Hbeh) [Hd0 Hd1] [Ht0 Ht1].
  unfold assessRisk, analyzeBehavior. rewrite Hbeh, Hfreq, Hhist. cbn.
  intros [= <-]. cbn [recommendation].
  apply recommendation_thresholds_allow.
  set (d := analyzeDevice _ _) in *. set (t := analyzeTimePatterns _) in *.
  change (analyzeFrequency _) with 0.1.
  lra.
Qed.

End NewUserClaims.

(** ** CRUD API *)

Module CrudFacts.
Import Js Crud.

Lemma order_limit_offset_length (rows : list User) (lim off : Z) :
  0 <= lim -> (length (order_limit_offset rows lim off) <= Z.to_nat lim)%nat.
Proof.
  intros Hlim. unfold order_limit_offset.
  destruct (lim <? 0) eqn:E; [lia |].
  rewrite length_take. lia.
Qed.

(** What [querySchema] lets through as [limit]: the default 10 or an
    integer from 1 to 50. *)
Lemma joi_integer_range (lo : Z) (hi : option Z) (fallback : option Z)
  (raw : option value) (z : Z) :
  joi_integer lo hi fallback raw = Some (Some z) ->
  fallback = Some z \/
  (lo <= z /\ match hi with Some h => z <= h | None => True end).
Proof.
  unfold joi_integer. destruct raw as [v |]; [| intros [= ->]; now left].
  destruct (Number_isInteger v); [| discriminate].
  destruct (MAX_SAFE_INTEGER <? Z.abs (to_Z v)); [discriminate |].
  destruct (to_Z v <? lo) eqn:Elo; [discriminate |].
  destruct hi as [h |].
  - destruct (h <? to_Z v) eqn:Ehi; [discriminate |].
    intros [= <-]. right. lia.
  - intros [= <-]. right. split; [lia | trivial].
Qed.

Lemma querySchema_limit (raw : RawQuery) (filters : QueryFilters) :
  querySchema raw = Some filters ->
  exists l, limit filters = Some l /\ 1 <= l <= 50.
Proof.
  unfold querySchema.
  destruct (joi_integer 1 None (Some 1) (raw_page raw)) as [p |]; [| discriminate].
  destruct (joi_integer 1 (Some 50) (Some 10) (raw_limit raw)) as [l |] eqn:El;
    [| discriminate].
  destruct (joi_string (raw_name raw)); [| discriminate].
  destruct (joi_string (raw_email raw)); [| discriminate].
  destruct (joi_integer 0 None None (raw_minAge raw)); [| discriminate].
  destruct (joi_integer 0 None None (raw_maxAge raw)); [| discriminate].
  intros [= <-]. cbn.
  destruct l as [z |].
  - exists z. split; [reflexivity |].
    apply joi_integer_range in El as [[= <-] | [H1 H2]]; lia.
  - unfold joi_integer in El.
    destruct (raw_limit raw) as [v |]; [| discriminate].
    destruct (Number_isInteger v); [| discriminate].
    destruct (MAX_SAFE_INTEGER <? Z.abs (to_Z v)); [discriminate |].
    destruct (to_Z v <? 1); [discriminate |].
    destruct (50 <? to_Z v); discriminate.
Qed.

Lemma or_number_range (x : option Z) (fallback lo hi : Z) :
  lo <= fallback <= hi ->
  (forall v, x = Some v -> v <> 0 -> lo <= v <= hi) ->
  lo <= or_number x fallback <= hi.
Proof.
  intros Hf Hx. unfold or_number. destruct x as [v |]; [| exact Hf].
  destruct (v =? 0) eqn:E; [exact Hf |]. apply Hx; [reflexivity | lia].
Qed.

(** The page [findAll] resolves to carries the clamped limit, and never
    more rows than a non-negative limit. *)
Lemma findAll_page LIKE (filters : QueryFilters) (w : World)
  (p : PaginatedResponse) :
  fst (UserModel_findAll LIKE filters w) = Resolved p ->
  pagination_limit (pagination p) = Z.min (or_number (limit filters) 10) 50 /\
  data p = order_limit_offset
             (filter (fun u => where_clause LIKE filters u = true) (users w))
             (effective_limit filters)
             ((or_number (page filters) 1 - 1) * effective_limit filters).
Proof.
  unfold UserModel_findAll, and_then, statement.
  destruct (connected w); cbn; [| discriminate].
  destruct (failing w) as [| [|] rest]; cbn; try discriminate.
  - intros [= <-]. split; reflexivity.
  - destruct rest as [| [|] rest']; cbn; try discriminate;
      intros [= <-]; split; reflexivity.
Qed.

End CrudFacts.

Section PageSizeClaims.
Import Js Crud CrudFacts ValidationFacts.

(** C10.  A page returned for [GET /users] never holds more than 50
    records: [findAll] uses the minimum of the requested limit (10 when
    absent) and 50 as page size, and [querySchema] rejects with status 400,
    before any query, a requested limit above 50. *)
Theorem page_holds_at_most_50_users (LIKE : string -> string -> bool)
  (raw : RawQuery) (w : World) :
  (forall p,
     response_data (fst (route_getAll LIKE raw w)) = PageData p ->
     (length (data p) <= 50)%nat /\
     1 <= pagination_limit (pagination p) <= 50) /\
  (forall filters p,
     fst (UserModel_findAll LIKE filters w) = Resolved p ->
     pagination_limit (pagination p) = Z.min (or_number (limit filters) 10) 50 /\
     (0 <= pagination_limit (pagination p) ->
      (length (data p) <= Z.to_nat (pagination_limit (pagination p)))%nat)) /\
  (forall q,
     raw_limit raw = Some (Num q) -> (50 < q)%Q ->
     querySchema raw = None /\
     route_getAll LIKE raw w = (mkResponse 400 false "Validation failed" NoData, w)).
Proof.
  split; [| split].
  - intros p. unfold route_getAll.
    destruct (querySchema raw) as [filters |] eqn:Hq; [| discriminate].
    apply querySchema_limit in Hq as (l & Hl & Hrange).
    unfold UserController_getAll, handled, and_then, reply.
    destruct (UserModel_findAll LIKE filters w) as [[page | e] w'] eqn:Hf; cbn.
    + intros [= ->].
      assert (Hp : fst (UserModel_findAll LIKE filters w) = Resolved p)
        by now rewrite Hf.
      apply findAll_page in Hp as [Hlim Hdata].
      assert (Heff : 1 <= effective_limit filters <= 50).
      { unfold effective_limit.
        assert (1 <= or_number (limit filters) 10 <= 50).
        { apply or_number_range; [lia |]. intros v Hv _.
          rewrite Hl in Hv. injection Hv as <-. exact Hrange. }
        lia. }
      split.
      * rewrite Hdata.
        pose proof (order_limit_offset_length
                      (filter (fun u => where_clause LIKE filters u = true) (users w))
                      (effective_limit filters)
                      ((or_number (page filters) 1 - 1) * effective_limit filters)).
        lia.
      * rewrite Hlim. exact Heff.
    + unfold errorHandler.
      repeat match goal with
             | |- context [match ?x with _ => _ end] => destruct x
             end; discriminate.
  - intros filters p Hp. apply findAll_page in Hp as [Hlim Hdata].
    split; [exact Hlim |]. intros Hpos. rewrite Hdata.
    fold (effective_limit filters) in Hlim. rewrite Hlim.
    apply order_limit_offset_length. rewrite <- Hlim. exact Hpos.
  - intros q Hraw Hbig.
    assert (Hnone : querySchema raw = None).
    { unfold querySchema, joi_integer at 2. rewrite Hraw.
      destruct (Number_isInteger (Num q)) eqn:Hint.
      - apply Number_isInteger_Num in Hint as [z Hz].
        rewrite (to_Z_Num q z Hz).
        assert (50 < z) by (rewrite Hz in Hbig; unfold Qlt in Hbig; cbn in Hbig; lia).
        destruct (MAX_SAFE_INTEGER <? Z.abs z);
          [destruct (joi_integer 1 None (Some 1) (raw_page raw)); reflexivity |].
        destruct (z <? 1) eqn:E1; [lia |].
        destruct (50 <? z) eqn:E2; [| lia].
        destruct (joi_integer 1 None (Some 1) (raw_page raw)); reflexivity.
      - destruct (joi_integer 1 None (Some 1) (raw_page raw)); reflexivity. }
    split; [exact Hnone |]. unfold route_getAll. now rewrite Hnone.
Qed.

End PageSizeClaims.

Module RoundTrips.
Import Js Crud.

(** Case analysis on the innermost [match] of the goal. *)
Ltac case_inner :=
  match goal with
  | |- context [match ?x with _ => _ end] =>
      lazymatch x with
      | context [match _ with _ => _ end] => fail
      | _ => destruct x eqn:?
      end
  end.

Ltac run_handler Hc :=
  repeat (unfold UserController_getById, UserController_delete,
            UserController_create, UserController_getAll,
            UserController_update, handled, and_then, UserModel_findById,
            UserModel_delete, UserModel_exists, UserModel_create,
            UserModel_findAll, UserModel_update, statement, reply, with_table;
          cbn [fst snd queries connected failing users tail negb];
          rewrite ?Hc;
          cbn [fst snd queries connected failing users tail negb];
          try case_inner).

Lemma getById_sent (i : Z) (w : World) :
  connected w = true ->
  queries (snd (UserController_getById i w)) = S (queries w).
Proof. intros Hc. run_handler Hc; reflexivity. Qed.

Lemma delete_sent (i : Z) (w : World) :
  connected w = true ->
  queries (snd (UserController_delete i w)) = S (queries w).
Proof. intros Hc. run_handler Hc; reflexivity. Qed.

Lemma create_sent (createdISO updatedISO : string)
  (userData : CreateUserRequest) (w : World) :
  connected w = true ->
  queries (snd (UserController_create createdISO updatedISO userData w)) = S (queries w) \/
  queries (snd (UserController_create createdISO updatedISO userData w)) = S (S (queries w)).
Proof. intros Hc. run_handler Hc; auto. Qed.

Lemma getAll_sent LIKE (filters : QueryFilters) (w : World) :
  connected w = true ->
  queries (snd (UserController_getAll LIKE filters w)) = S (queries w) \/
  queries (snd (UserController_getAll LIKE filters w)) = S (S (queries w)).
Proof. intros Hc. run_handler Hc; auto. Qed.

Lemma update_sent (i : Z) (userData : UpdateUserRequest) (w : World) :
  connected w = true ->
  (S (queries w) <= queries (snd (UserController_update i userData w)))%nat /\
  (queries (snd (UserController_update i userData w)) <= 4 + queries w)%nat.
Proof. intros Hc. run_handler Hc; cbn; lia. Qed.

(** A request that succeeds went through every statement of its path. *)
Lemma create_201_sent (createdISO updatedISO : string)
  (userData : CreateUserRequest) (w : World) :
  connected w = true ->
  status (fst (UserController_create createdISO updatedISO userData w)) = 201 ->
  queries (snd (UserController_create createdISO updatedISO userData w)) = S (S (queries w)).
Proof.
  intros Hc. run_handler Hc; cbn; intros; first [reflexivity | discriminate].
Qed.

Lemma getAll_200_sent LIKE (filters : QueryFilters) (w : World) :
  connected w = true ->
  status (fst (UserController_getAll LIKE filters w)) = 200 ->
  queries (snd (UserController_getAll LIKE filters w)) = S (S (queries w)).
Proof.
  intros Hc. run_handler Hc; cbn; intros; first [reflexivity | discriminate].
Qed.

End RoundTrips.

Section RoundTripClaims.
Import Js Crud CrudSamples RoundTrips.

(** C9, as stated, fails: creating Alice in an empty database answers 201
    after two statements (the email check, then the insert); listing the
    users answers 200 after two (the count, then the page); renaming Alice
    answers 200 after four (lookup, email check, update, re-read). *)
Lemma create_getAll_update_send_several_statements :
  (status (fst (UserController_create iso_now iso_now alice empty_world)) = 201 /\
   queries (snd (UserController_create iso_now iso_now alice empty_world)) = 2%nat) /\
  (status (fst (UserController_getAll like_any no_filters alice_world)) = 200 /\
   queries (snd (UserController_getAll like_any no_filters alice_world)) = 2%nat) /\
  (status (fst (UserController_update 1 rename_alice alice_world)) = 200 /\
   queries (snd (UserController_update 1 rename_alice alice_world)) = 4%nat).
Proof. repeat split; vm_compute; reflexivity. Qed.

(** C9, amended.  With the database connected, a handled request sends:
    exactly one statement for getById and for delete; one or two for
    create, two whenever it answers 201; one or two for getAll, two
    whenever it answers 200; between one and four for update. *)
Theorem crud_statements_per_request (LIKE : string -> string -> bool)
  (w : World) :
  connected w = true ->
  (forall i, queries (snd (UserController_getById i w)) = S (queries w)) /\
  (forall i, queries (snd (UserController_delete i w)) = S (queries w)) /\
  (forall createdISO updatedISO userData,
     (queries (snd (UserController_create createdISO updatedISO userData w)) = S (queries w) \/
      queries (snd (UserController_create createdISO updatedISO userData w)) = S (S (queries w))) /\
     (status (fst (UserController_create createdISO updatedISO userData w)) = 201 ->
      queries (snd (UserController_create createdISO updatedISO userData w)) = S (S (queries w)))) /\
  (forall filters,
     (queries (snd (UserController_getAll LIKE filters w)) = S (queries w) \/
      queries (snd (UserController_getAll LIKE filters w)) = S (S (queries w))) /\
     (status (fst (UserController_getAll LIKE filters w)) = 200 ->
      queries (snd (UserController_getAll LIKE filters w)) = S (S (queries w)))) /\
  (forall i userData,
     (S (queries w) <= queries (snd (UserController_update i userData w)))%nat /\
     (queries (snd (UserController_update i userData w)) <= 4 + queries w)%nat).
Proof.
  intros Hc. repeat split.
  - intros i. now apply getById_sent.
  - intros i. now apply delete_sent.
  - now apply create_sent.
  - now apply create_201_sent.
  - now apply getAll_sent.
  - now apply getAll_200_sent.
  - now apply update_sent.
  - now apply update_sent.
Qed.

Lemma crud_statements_per_request_sample :
  connected alice_world = true /\
  queries (snd (UserController_getById 1 alice_world)) = 1%nat /\
  queries (snd (UserController_delete 1 alice_world)) = 1%nat.
Proof.
  assert (Hc : connected alice_world = true) by reflexivity.
  pose proof (crud_statements_per_request like_any alice_world Hc)
    as (Hget & Hdel & _).
  split; [exact Hc | split; [apply (Hget 1) | apply (Hdel 1)]].
Defined.

(** Without the validation in front, [findAll] passes a negative limit on
    to SQLite, for which it means no limit: a table of 60 users comes back
    whole. *)
Lemma findAll_negative_limit_sample :
  let table := map (fun k => mkUser (Z.of_nat k) "user" "e" None 0 0) (seq 1 60) in
  let w := mkWorld true table 60 0 [] 0 in
  match fst (UserModel_findAll like_any
               (mkFilters None (Some (-1)) None None None None) w) with
  | Resolved p => length (data p) = 60%nat
  | Rejected _ => False
  end.
Proof. vm_compute. reflexivity. Qed.

End RoundTripClaims.

(** ** CRUD API: further properties of the handlers *)

Module CrudMore.
Import Js Crud CrudState.

Lemma statement_healthy {A} (exec : World -> settled A * World) (w : World) :
  healthy w -> statement exec w = exec (after_statement w).
Proof.
  unfold healthy, statement, after_statement. intros H.
  destruct (failing w) as [| b f]; [reflexivity |].
  apply Forall_cons in H as [-> _]. reflexivity.
Qed.

Lemma after_statement_healthy (w : World) : healthy w -> healthy (after_statement w).
Proof.
  unfold healthy, after_statement. cbn. intros H.
  destruct (failing w) as [| b f]; cbn; [constructor |].
  now apply Forall_cons in H as [_ H].
Qed.

Lemma email_taken_false (e : string) (rows : list User) :
  email_taken e rows = false <-> forall u, u ∈ rows -> email u <> e.
Proof.
  unfold email_taken. induction rows as [| r rows IH]; cbn.
  - split; [intros _ u Hu; inversion Hu | reflexivity].
  - rewrite orb_false_iff, IH. split.
    + intros [Hr Hrows] u Hu. apply elem_of_cons in Hu as [-> | Hu]; [| now apply Hrows].
      intros Heq. rewrite Heq, String.eqb_refl in Hr. discriminate.
    + intros H. split.
      * destruct (String.eqb_spec (email r) e) as [Heq | Hne]; [| reflexivity].
        exfalso. apply (H r); [left | exact Heq].
      * intros u Hu. apply H. now right.
Qed.

Lemma email_taken_true (e : string) (rows : list User) :
  email_taken e rows = true <-> exists u, u ∈ rows /\ email u = e.
Proof.
  unfold email_taken. rewrite existsb_exists. split.
  - intros (u & Hu & Heq). exists u. split; [now apply list_elem_of_In |].
    now apply String.eqb_eq.
  - intros (u & Hu & Heq). exists u. split; [now apply list_elem_of_In |].
    now apply String.eqb_eq.
Qed.

Lemma find_id_Some (i : Z) (rows : list User) (u : User) :
  find_id i rows = Some u -> u ∈ rows /\ id u = i.
Proof.
  unfold find_id. induction rows as [| r rows IH]; cbn; [discriminate |].
  destruct (id r =? i) eqn:E.
  - intros [= <-]. split; [left | lia].
  - intros H. apply IH in H as [H1 H2]. split; [now right | exact H2].
Qed.

Lemma find_id_None (i : Z) (rows : list User) :
  find_id i rows = None <-> forall u, u ∈ rows -> id u <> i.
Proof.
  unfold find_id. induction rows as [| r rows IH]; cbn.
  - split; [intros _ u Hu; inversion Hu | reflexivity].
  - destruct (id r =? i) eqn:E.
    + split; [discriminate |]. intros H. exfalso. apply (H r); [left | lia].
    + rewrite IH. split.
      * intros H u Hu. apply elem_of_cons in Hu as [-> | Hu]; [lia | now apply H].
      * intros H u Hu. apply H. now right.
Qed.

(** With a primary key, the row of an id is found wherever it sits. *)
Lemma find_id_elem (rows : list User) (u : User) :
  NoDup (map id rows) -> u ∈ rows -> find_id (id u) rows = Some u.
Proof.
  unfold find_id. induction rows as [| r rows IH]; cbn; intros Hnd Hu.
  - inversion Hu.
  - apply NoDup_cons in Hnd as [Hr Hnd].
    apply elem_of_cons in Hu as [<- | Hu].
    + now rewrite Z.eqb_refl.
    + destruct (id r =? id u) eqn:E; [| now apply IH].
      exfalso. apply Hr. apply Z.eqb_eq in E. rewrite E.
      apply list_elem_of_fmap. now exists u.
Qed.

(** *** The table invariant *)

Lemma table_ok_same (w w' : World) :
  users w' = users w -> last_id w' = last_id w -> table_ok w -> table_ok w'.
Proof. unfold table_ok. intros -> ->. trivial. Qed.

Lemma preserves_statement {A} (exec : World -> settled A * World) :
  preserves exec -> preserves (statement exec).
Proof.
  intros H w Hw. unfold statement.
  destruct (failing w) as [| [|] f]; cbn;
    first [apply H | idtac]; now apply (table_ok_same w).
Qed.

Lemma preserves_and_then {A B} (m : M A) (k : A -> M B) :
  preserves m -> (forall a, preserves (k a)) -> preserves (and_then m k).
Proof.
  intros Hm Hk w Hw. unfold and_then.
  specialize (Hm w Hw). destruct (m w) as [[a | e] w']; cbn in *; [| exact Hm].
  now apply Hk.
Qed.

Lemma preserves_guard {A} (m : M A) :
  preserves m ->
  preserves (fun w => if negb (connected w) then (Rejected not_connected, w) else m w).
Proof. intros H w Hw. cbn. destruct (negb (connected w)); [exact Hw | now apply H]. Qed.

Lemma preserves_pure {A} (x : settled A) : preserves (fun w => (x, w)).
Proof. intros w Hw. exact Hw. Qed.

Lemma preserves_reply {A} (r : Response) (a : A) : preserves (reply r a).
Proof. intros w Hw. exact Hw. Qed.

Lemma handled_table_ok (body : M Response) :
  preserves body -> forall w, table_ok w -> table_ok (snd (handled body w)).
Proof.
  intros H w Hw. unfold handled. specialize (H w Hw).
  destruct (body w) as [[r | e] w']; exact H.
Qed.

Lemma preserves_findById (i : Z) : preserves (UserModel_findById i).
Proof.
  apply (preserves_guard (statement _)), preserves_statement.
  intros w Hw. exact Hw.
Qed.

Lemma preserves_exists (e : string) (excludeId : option Z) :
  preserves (UserModel_exists e excludeId).
Proof.
  apply (preserves_guard (statement _)), preserves_statement.
  intros w Hw. exact Hw.
Qed.

Lemma preserves_findAll LIKE (filters : QueryFilters) :
  preserves (UserModel_findAll LIKE filters).
Proof.
  apply (preserves_guard (and_then _ _)), preserves_and_then.
  - apply preserves_statement. intros w Hw. exact Hw.
  - intros total. apply preserves_and_then.
    + apply preserves_statement. intros w Hw. exact Hw.
    + intros rows w Hw. exact Hw.
Qed.

Lemma preserves_create (createdISO updatedISO : string)
  (userData : CreateUserRequest) :
  preserves (UserModel_create createdISO updatedISO userData).
Proof.
  apply (preserves_guard (statement _)), preserves_statement.
  intros w (Hid & Hem & Hle).
  destruct (email_taken (create_email userData) (users w)) eqn:E; cbn;
    [now repeat split |].
  rewrite email_taken_false in E.
  unfold table_ok, with_table. cbn. rewrite !map_app. cbn.
  repeat split.
  - apply NoDup_app. split; [exact Hid |]. split; [| apply NoDup_singleton].
    intros x Hx Hx'. apply list_elem_of_singleton in Hx'. subst x.
    apply list_elem_of_fmap in Hx as (u & Hu & Hin).
    rewrite Forall_forall in Hle. specialize (Hle u Hin). lia.
  - apply NoDup_app. split; [exact Hem |]. split; [| apply NoDup_singleton].
    intros x Hx Hx'. apply list_elem_of_singleton in Hx'. subst x.
    apply list_elem_of_fmap in Hx as (u & Hu & Hin).
    now apply (E u Hin).
  - apply Forall_app. split.
    + eapply Forall_impl; [exact Hle |]. cbn. intros u Hu. lia.
    + repeat constructor. cbn. lia.
Qed.

Lemma preserves_delete (i : Z) : preserves (UserModel_delete i).
Proof.
  apply (preserves_guard (statement _)), preserves_statement.
  intros w (Hid & Hem & Hle). unfold table_ok, with_table. cbn.
  repeat split.
  - eapply sublist_NoDup; [exact Hid | apply (fmap_sublist id), sublist_filter].
  - eapply sublist_NoDup; [exact Hem | apply (fmap_sublist email), sublist_filter].
  - rewrite Forall_forall in *. intros u Hu. apply Hle.
    now apply list_elem_of_filter in Hu as [_ Hu].
Qed.

Lemma update_rows_ids i userData now rows :
  map id (update_rows i userData now rows) = map id rows.
Proof.
  unfold update_rows. rewrite map_map. apply map_ext. intros u.
  now destruct (id u =? i).
Qed.

Lemma update_rows_absent i userData now rows :
  (forall u, u ∈ rows -> id u <> i) -> update_rows i userData now rows = rows.
Proof.
  unfold update_rows. induction rows as [| r rows IH]; cbn; intros H; [reflexivity |].
  rewrite IH by (intros u Hu; apply H; now right).
  destruct (id r =? i) eqn:E; [| reflexivity].
  exfalso. apply (H r); [left | lia].
Qed.

(** The emails stay pairwise distinct when the new email of row [i] is
    that of no other row. *)
Lemma update_rows_emails i userData now rows :
  NoDup (map id rows) -> NoDup (map email rows) ->
  (forall e, update_email userData = Some e ->
             forall u, u ∈ rows -> id u <> i -> email u <> e) ->
  NoDup (map email (update_rows i userData now rows)).
Proof.
  induction rows as [| r rows IH]; cbn; intros Hid Hem Hfree; [constructor |].
  apply NoDup_cons in Hid as [Hr Hid]. apply NoDup_cons in Hem as [Hre Hem].
  destruct (id r =? i) eqn:E.
  - apply Z.eqb_eq in E.
    assert (Hrest : forall u, u ∈ rows -> id u <> i).
    { intros u Hu Heq. apply Hr. rewrite E, <- Heq.
      apply list_elem_of_fmap. now exists u. }
    fold (update_rows i userData now rows).
    rewrite (update_rows_absent _ _ _ _ Hrest).
    apply NoDup_cons. split; [| exact Hem].
    unfold apply_update. cbn.
    destruct (update_email userData) as [e |] eqn:Ee; cbn; [| exact Hre].
    intros Hin. apply list_elem_of_fmap in Hin as (u & Hu & Hin).
    apply (Hfree e eq_refl u); [now right | now apply Hrest | now symmetry].
  - apply Z.eqb_neq in E. apply NoDup_cons. split.
    + fold (update_rows i userData now rows).
      intros Hin. apply list_elem_of_fmap in Hin as (u' & Hu' & Hin').
      unfold update_rows in Hin'. apply list_elem_of_fmap in Hin' as (u & -> & Hu).
      destruct (id u =? i) eqn:Eu.
      * unfold apply_update in Hu'. cbn in Hu'.
        destruct (update_email userData) as [e |] eqn:Ee; cbn in Hu'.
        -- apply (Hfree e eq_refl r); [left | exact E | exact Hu'].
        -- apply Hre. rewrite Hu'. apply list_elem_of_fmap. now exists u.
      * apply Hre. rewrite Hu'. apply list_elem_of_fmap. now exists u.
    + apply IH; trivial. intros e He u Hu. apply (Hfree e He). now right.
Qed.

Lemma preserves_update (i : Z) (userData : UpdateUserRequest) :
  preserves (UserModel_update i userData).
Proof.
  unfold UserModel_update.
  assert (Hcore : preserves
    (and_then
       (statement (fun w =>
          match find_id i (users w) with
          | None => (Resolved 0%nat, w)
          | Some _ =>
              match update_email userData with
              | Some e =>
                  if email_taken e (filter (fun u => id u <> i) (users w))
                  then (Rejected unique_violation, w)
                  else (Resolved 1%nat,
                        with_table w (update_rows i userData (clock w) (users w))
                          (last_id w))
              | None =>
                  (Resolved 1%nat,
                   with_table w (update_rows i userData (clock w) (users w))
                     (last_id w))
              end
          end))
       (fun changes =>
          match changes with
          | O => fun w => (Resolved None, w)
          | S _ => UserModel_findById i
          end))).
  { apply preserves_and_then.
    - apply preserves_statement. intros w (Hid & Hem & Hle).
      assert (Hupd :
                (forall e, update_email userData = Some e ->
                   forall u, u ∈ users w -> id u <> i -> email u <> e) ->
                table_ok (with_table w (update_rows i userData (clock w) (users w))
                            (last_id w))).
      { intros Hfree. unfold table_ok, with_table. cbn.
        rewrite update_rows_ids. repeat split; trivial.
        - now apply update_rows_emails.
        - rewrite Forall_forall in *. intros u Hu.
          unfold update_rows in Hu. apply list_elem_of_fmap in Hu as (u0 & -> & Hu0).
          specialize (Hle u0 Hu0). now destruct (id u0 =? i). }
      destruct (find_id i (users w)) as [found |]; [| now repeat split].
      destruct (update_email userData) as [e |] eqn:Ee.
      + destruct (email_taken e _) eqn:Et; cbn; [now repeat split |].
        apply Hupd.
        intros e' [= <-] u Hu Hne. rewrite email_taken_false in Et.
        apply Et. apply list_elem_of_filter. now split.
      + cbn. apply Hupd. intros e' [=].
    - intros [| n]; [apply preserves_pure | apply preserves_findById]. }
  intros w Hw. cbn.
  destruct (negb (connected w)); [exact Hw |].
  destruct (update_name userData), (update_email userData), (update_age userData);
    first [exact Hw | now apply Hcore].
Qed.

End CrudMore.

Section CrudInvariant.
Import Js Crud CrudState CrudMore.

(** X1.  Every handler keeps the table well formed: ids stay pairwise
    distinct and within the AUTOINCREMENT sequence, emails stay pairwise
    distinct, whatever the request, whether or not the database is
    connected and whichever statements SQLite fails. *)
Theorem handlers_keep_table_ok (LIKE : string -> string -> bool) (w : World) :
  table_ok w ->
  (forall createdISO updatedISO userData,
     table_ok (snd (UserController_create createdISO updatedISO userData w))) /\
  (forall filters, table_ok (snd (UserController_getAll LIKE filters w))) /\
  (forall i, table_ok (snd (UserController_getById i w))) /\
  (forall i userData, table_ok (snd (UserController_update i userData w))) /\
  (forall i, table_ok (snd (UserController_delete i w))).
Proof.
  intros Hw. split; [| split; [| split; [| split]]].
  - intros createdISO updatedISO userData. apply handled_table_ok; [| exact Hw].
    apply preserves_and_then; [apply preserves_exists |].
    intros [|]; [apply preserves_reply |].
    apply preserves_and_then; [apply preserves_create |].
    intros u. apply preserves_reply.
  - intros filters. apply handled_table_ok; [| exact Hw].
    apply preserves_and_then; [apply preserves_findAll |].
    intros p. apply preserves_reply.
  - intros i. apply handled_table_ok; [| exact Hw].
    apply preserves_and_then; [apply preserves_findById |].
    intros [u |]; apply preserves_reply.
  - intros i userData. apply handled_table_ok; [| exact Hw].
    apply preserves_and_then; [apply preserves_findById |].
    intros [u |]; [| apply preserves_reply].
    assert (Hgo : preserves
      (and_then (UserModel_update i userData) (fun updatedUser =>
         reply (mkResponse 200 true "User updated successfully"
                  (match updatedUser with
                   | Some u => UserData u
                   | None => NullData
                   end)) tt))).
    { apply preserves_and_then; [apply preserves_update |].
      intros o. apply preserves_reply. }
    destruct (present (update_email userData)); [| exact Hgo].
    apply preserves_and_then; [apply preserves_exists |].
    intros [|]; [apply preserves_reply | exact Hgo].
  - intros i. apply handled_table_ok; [| exact Hw].
    apply preserves_and_then; [apply preserves_delete |].
    intros [|]; apply preserves_reply.
Qed.

End CrudInvariant.

Section CrudBehaviour.
Import Js Crud CrudState CrudMore CrudSamples MoreSamples.

Ltac world_step :=
  cbn [after_statement with_table connected users last_id clock failing
       queries fst snd negb or_number Z.eqb].

Lemma alice_world_ok : table_ok alice_world.
Proof.
  repeat split; cbn.
  - apply NoDup_singleton.
  - apply NoDup_singleton.
  - repeat constructor. cbn. lia.
Qed.

Lemma handlers_keep_table_ok_sample :
  table_ok alice_world /\
  table_ok (snd (UserController_update 1 rename_alice alice_world)).
Proof.
  split; [exact alice_world_ok |].
  exact (proj1 (proj2 (proj2 (proj2
           (handlers_keep_table_ok like_any alice_world alice_world_ok))))
           1 rename_alice).
Defined.

(** X2.  Without a database handle every handler answers 500 with the
    message "Database not connected", sends no statement and leaves the
    world as it was. *)
Theorem not_connected_answers_500 (LIKE : string -> string -> bool) (w : World) :
  connected w = false ->
  (forall createdISO updatedISO userData,
     UserController_create createdISO updatedISO userData w
     = (mkResponse 500 false "Database not connected" NoData, w)) /\
  (forall filters,
     UserController_getAll LIKE filters w
     = (mkResponse 500 false "Database not connected" NoData, w)) /\
  (forall i,
     UserController_getById i w
     = (mkResponse 500 false "Database not connected" NoData, w)) /\
  (forall i userData,
     UserController_update i userData w
     = (mkResponse 500 false "Database not connected" NoData, w)) /\
  (forall i,
     UserController_delete i w
     = (mkResponse 500 false "Database not connected" NoData, w)).
Proof.
  intros Hc.
  split; [| split; [| split; [| split]]]; intros;
    unfold UserController_create, UserController_getAll, UserController_getById,
      UserController_update, UserController_delete, handled, and_then,
      UserModel_exists, UserModel_findAll, UserModel_findById, UserModel_delete;
    rewrite Hc; reflexivity.
Qed.

Lemma not_connected_answers_500_sample :
  UserController_getById 7 offline_world
  = (mkResponse 500 false "Database not connected" NoData, offline_world).
Proof.
  exact (proj1 (proj2 (proj2
           (not_connected_answers_500 like_any offline_world eq_refl))) 7).
Defined.

(** X3.  Creating a user whose email is free answers 201 with an object
    that carries the next id of the sequence, the fields of the request
    and the two ISO strings of the JavaScript clock; the row is appended
    to the table, and reading that id back answers 200 with the stored
    row: the same id, name and email, the age with 0 stored as NULL, and
    the database's [CURRENT_TIMESTAMP] as both timestamps, not the
    strings of the 201 answer. *)
Theorem create_then_getById (createdISO updatedISO : string)
  (userData : CreateUserRequest) (w : World) :
  connected w = true -> healthy w -> table_ok w ->
  email_taken (create_email userData) (users w) = false ->
  fst (UserController_create createdISO updatedISO userData w)
  = mkResponse 201 true "User created successfully"
      (CreatedData (mkCreated (last_id w + 1) (create_name userData)
                      (create_email userData) (create_age userData)
                      createdISO updatedISO)) /\
  users (snd (UserController_create createdISO updatedISO userData w))
  = users w ++ [stored_row userData w] /\
  last_id (snd (UserController_create createdISO updatedISO userData w)) = last_id w + 1 /\
  fst (UserController_getById (last_id w + 1)
         (snd (UserController_create createdISO updatedISO userData w)))
  = mkResponse 200 true "User retrieved successfully"
      (UserData (mkUser (last_id w + 1) (create_name userData)
                   (create_email userData)
                   (match create_age userData with
                    | Some 0 => None
                    | other => other
                    end)
                   (clock w) (clock w))).
Proof.
  intros Hc Hh (Hid & Hem & Hle) Hfree.
  assert (Hh1 := after_statement_healthy w Hh).
  assert (Hh2 := after_statement_healthy _ Hh1).
  unfold UserController_create, handled, and_then, UserModel_exists,
    UserModel_create, reply.
  rewrite Hc. cbn [negb]. rewrite (statement_healthy _ w Hh).
  world_step. rewrite Hfree. world_step. rewrite Hc. cbn [negb].
  rewrite (statement_healthy _ _ Hh1).
  world_step. rewrite Hfree. world_step.
  repeat split.
  unfold UserController_getById, handled, and_then, UserModel_findById, reply.
  world_step. rewrite Hc. cbn [negb].
  rewrite statement_healthy
    by (apply after_statement_healthy; cbn; exact Hh1 || exact Hh2).
  world_step.
  assert (Hfind : find_id (last_id w + 1) (users w ++ [stored_row userData w])
                  = Some (stored_row userData w)).
  { change (last_id w + 1) with (id (stored_row userData w)) at 1.
    apply find_id_elem; [| apply elem_of_app; right; left].
    rewrite map_app. apply NoDup_app. split; [exact Hid |].
    split; [| apply NoDup_singleton].
    intros x Hx Hx'. apply list_elem_of_singleton in Hx'. subst x.
    apply list_elem_of_fmap in Hx as (u & Hu & Hin).
    rewrite Forall_forall in Hle. specialize (Hle u Hin). cbn in Hu. lia. }
  unfold stored_row in *. rewrite Hfind. reflexivity.
Qed.

Lemma empty_world_ok : table_ok empty_world.
Proof. repeat split; cbn; constructor. Qed.

Lemma create_then_getById_sample :
  fst (UserController_create iso_now iso_now alice empty_world)
  = mkResponse 201 true "User created successfully"
      (CreatedData (mkCreated 1 "Alice" "alice@example.com" (Some 30)
                      iso_now iso_now)) /\
  fst (UserController_getById 1
         (snd (UserController_create iso_now iso_now alice empty_world)))
  = mkResponse 200 true "User retrieved successfully"
      (UserData (mkUser 1 "Alice" "alice@example.com" (Some 30) 1000 1000)).
Proof.
  assert (Hh : healthy empty_world) by constructor.
  pose proof (create_then_getById iso_now iso_now alice empty_world eq_refl Hh
                empty_world_ok eq_refl) as (Hcreated & _ & _ & Hread).
  split; [exact Hcreated | exact Hread].
Defined.

(** X4.  Creating a user whose email is already in the table answers 409
    after the existence check alone: no insert is sent and the table is
    unchanged. *)
Theorem create_taken_email_409 (createdISO updatedISO : string)
  (userData : CreateUserRequest) (w : World) :
  connected w = true -> healthy w ->
  email_taken (create_email userData) (users w) = true ->
  UserController_create createdISO updatedISO userData w
  = (mkResponse 409 false "Email already exists" NoData, after_statement w).
Proof.
  intros Hc Hh Htaken.
  unfold UserController_create, handled, and_then, UserModel_exists, reply.
  rewrite Hc. cbn [negb]. rewrite (statement_healthy _ w Hh).
  world_step. rewrite Htaken. reflexivity.
Qed.

Lemma create_taken_email_409_sample :
  UserController_create iso_now iso_now alice alice_world
  = (mkResponse 409 false "Email already exists" NoData,
     after_statement alice_world).
Proof.
  assert (Hh : healthy alice_world) by constructor.
  exact (create_taken_email_409 iso_now iso_now alice alice_world eq_refl Hh
           eq_refl).
Defined.

Lemma filter_absent (i : Z) (rows : list User) :
  (forall u, u ∈ rows -> id u <> i) -> filter (fun u => id u <> i) rows = rows.
Proof.
  induction rows as [| r rows IH]; intros H; [reflexivity |].
  rewrite filter_cons. destruct (decide (id r <> i)) as [Hr | Hr].
  - f_equal. apply IH. intros u Hu. apply H. now right.
  - exfalso. apply Hr. apply H. left.
Qed.

Lemma find_id_filter_ne (i j : Z) (rows : list User) :
  j <> i -> find_id j (filter (fun u => id u <> i) rows) = find_id j rows.
Proof.
  intros Hne. unfold find_id. induction rows as [| r rows IH]; [reflexivity |].
  rewrite filter_cons. destruct (decide (id r <> i)) as [Hr | Hr]; cbn.
  - now rewrite IH.
  - rewrite IH. destruct (id r =? j) eqn:E; [lia | reflexivity].
Qed.

Lemma find_id_filter_eq (i : Z) (rows : list User) :
  find_id i (filter (fun u => id u <> i) rows) = None.
Proof.
  apply find_id_None. intros u Hu. now apply list_elem_of_filter in Hu as [Hu _].
Qed.

(** X5.  Deleting an id answers 200 when a row has it and 404 otherwise;
    afterwards no row has that id, so reading it or deleting it again
    answers 404, and every other id still reads as before. *)
Theorem delete_removes_exactly_that_user (i : Z) (w : World) :
  connected w = true -> healthy w ->
  users (snd (UserController_delete i w))
  = filter (fun u => id u <> i) (users w) /\
  (status (fst (UserController_delete i w)) = 200
   <-> exists u, u ∈ users w /\ id u = i) /\
  (status (fst (UserController_delete i w)) = 404
   <-> forall u, u ∈ users w -> id u <> i) /\
  status (fst (UserController_getById i (snd (UserController_delete i w)))) = 404 /\
  status (fst (UserController_delete i (snd (UserController_delete i w)))) = 404 /\
  (forall j, j <> i ->
     find_id j (users (snd (UserController_delete i w))) = find_id j (users w)).
Proof.
  intros Hc Hh.
  assert (Hh1 := after_statement_healthy w Hh).
  assert (Hdel : UserController_delete i w
                 = (if (length (filter (fun u => id u <> i) (users w))
                        <? length (users w))%nat
                    then mkResponse 200 true "User deleted successfully" NoData
                    else mkResponse 404 false "User not found" NoData,
                    with_table (after_statement w)
                      (filter (fun u => id u <> i) (users w)) (last_id w))).
  { unfold UserController_delete, handled, and_then, UserModel_delete, reply.
    rewrite Hc. cbn [negb]. rewrite (statement_healthy _ w Hh). world_step.
    now destruct (_ <? _)%nat. }
  assert (Hlen : (length (filter (fun u => id u <> i) (users w)) <? length (users w))%nat
                 = true <-> exists u, u ∈ users w /\ id u = i).
  { rewrite Nat.ltb_lt. split.
    - intros Hlt. destruct (find_id i (users w)) as [u |] eqn:E.
      + apply find_id_Some in E. now exists u.
      + rewrite find_id_None in E. rewrite (filter_absent _ _ E) in Hlt. lia.
    - intros (u & Hu & Hid). apply (length_filter_lt _ _ u); [exact Hu |].
      intros Hne. now apply Hne. }
  rewrite Hdel. world_step.
  split; [reflexivity |]. split; [| split; [| split; [| split]]].
  - rewrite <- Hlen. destruct (_ <? _)%nat; cbn; split; congruence.
  - destruct (_ <? _)%nat eqn:E; cbn.
    + split; [discriminate |]. intros Hnone.
      destruct (proj1 Hlen eq_refl) as (u & Hu & Hid). now apply Hnone in Hu.
    + split; [| reflexivity]. intros _ u Hu Hid.
      assert (Hx : false = true) by (apply Hlen; now exists u).
      discriminate.
  - unfold UserController_getById, handled, and_then, UserModel_findById, reply.
    world_step. rewrite Hc. cbn [negb].
    rewrite statement_healthy by exact Hh1. world_step.
    now rewrite find_id_filter_eq.
  - unfold UserController_delete, handled, and_then, UserModel_delete, reply.
    world_step. rewrite Hc. cbn [negb].
    rewrite statement_healthy by exact Hh1. world_step.
    rewrite (filter_absent i (filter _ _)).
    + now rewrite Nat.ltb_irrefl.
    + intros u Hu. now apply list_elem_of_filter in Hu as [Hu _].
  - intros j Hj. now apply find_id_filter_ne.
Qed.

Lemma delete_removes_exactly_that_user_sample :
  users (snd (UserController_delete 1 alice_world)) = [] /\
  status (fst (UserController_delete 1 (snd (UserController_delete 1 alice_world))))
  = 404.
Proof.
  assert (Hh : healthy alice_world) by constructor.
  pose proof (delete_removes_exactly_that_user 1 alice_world eq_refl Hh)
    as (Husers & _ & _ & _ & Hagain & _).
  split; [exact Husers | exact Hagain].
Defined.

Lemma fields_given {A} (n e : option string) (a : option Z) (x y : A) :
  (n, e, a) <> (None, None, None) ->
  match n, e, a with
  | None, None, None => x
  | _, _, _ => y
  end = y.
Proof. destruct n, e, a; trivial. intros H. now contradict H. Qed.

Lemma find_id_update_rows (i j : Z) userData now (rows : list User) :
  find_id j (update_rows i userData now rows)
  = option_map (fun u => if id u =? i then apply_update userData now u else u)
      (find_id j rows).
Proof.
  unfold find_id, update_rows. induction rows as [| r rows IH]; [reflexivity |].
  cbn [map find].
  assert (Hid : id (if id r =? i then apply_update userData now r else r) = id r)
    by (now destruct (id r =? i)).
  rewrite Hid. destruct (id r =? j); [reflexivity | exact IH].
Qed.

(** X6.  Updating a missing id answers 404 after the lookup alone and
    changes nothing.  Updating an existing row with at least one field,
    whose new email (if any) no other row has, answers 200 with the row
    in which exactly the given fields are replaced and [updatedAt] is the
    current instant; the other rows are untouched. *)
Theorem update_replaces_given_fields (i : Z) (userData : UpdateUserRequest)
  (w : World) :
  connected w = true -> healthy w -> i <> 0 ->
  (find_id i (users w) = None ->
   UserController_update i userData w
   = (mkResponse 404 false "User not found" NoData, after_statement w)) /\
  (forall u,
     find_id i (users w) = Some u ->
     (update_name userData, update_email userData, update_age userData)
     <> (None, None, None) ->
     (forall e, update_email userData = Some e ->
        email_taken e (filter (fun r => id r <> i) (users w)) = false) ->
     fst (UserController_update i userData w)
     = mkResponse 200 true "User updated successfully"
         (UserData (apply_update userData (clock w) u)) /\
     users (snd (UserController_update i userData w))
     = update_rows i userData (clock w) (users w) /\
     (forall j, j <> i ->
        find_id j (users (snd (UserController_update i userData w)))
        = find_id j (users w))).
Proof.
  intros Hc Hh Hi.
  assert (Hh1 := after_statement_healthy w Hh).
  assert (Hh2 := after_statement_healthy _ Hh1).
  assert (Hh3 := after_statement_healthy _ Hh2).
  split.
  - intros Hnone.
    unfold UserController_update, handled, and_then, UserModel_findById, reply.
    rewrite Hc. cbn [negb]. rewrite (statement_healthy _ w Hh). world_step.
    now rewrite Hnone.
  - intros u Hu Hfields Hfree.
    assert (Hidu : id u = i) by (now apply find_id_Some in Hu).
    (* the update itself and the re-read, from any healthy world with this table *)
    assert (Hgo : forall w1,
      connected w1 = true -> healthy w1 -> users w1 = users w ->
      clock w1 = clock w ->
      exists w2,
        and_then (UserModel_update i userData) (fun updatedUser =>
          reply (mkResponse 200 true "User updated successfully"
                   (match updatedUser with
                    | Some u => UserData u
                    | None => NullData
                    end)) tt) w1
        = (Resolved (mkResponse 200 true "User updated successfully"
                       (UserData (apply_update userData (clock w) u))), w2)
        /\ users w2 = update_rows i userData (clock w) (users w)).
    { intros w1 Hc1 Hhw1 Hu1 Hk1.
      assert (Hhw2 := after_statement_healthy w1 Hhw1).
      assert (Hhw3 := after_statement_healthy _ Hhw2).
      assert (Hread : find_id i (update_rows i userData (clock w) (users w))
                      = Some (apply_update userData (clock w) u)).
      { rewrite find_id_update_rows, Hu. cbn. rewrite Hidu, Z.eqb_refl. reflexivity. }
      exists (after_statement
                (with_table (after_statement w1)
                   (update_rows i userData (clock w) (users w)) (last_id w1))).
      split; [| reflexivity].
      unfold and_then at 1. unfold UserModel_update. rewrite Hc1. cbn [negb].
      rewrite (fields_given _ _ _ _ _ Hfields).
      unfold and_then. rewrite (statement_healthy _ w1 Hhw1). world_step.
      rewrite Hu1, Hk1, Hu.
      assert (Hsent :
        (match update_email userData with
         | Some e =>
             if email_taken e (filter (fun u0 => id u0 <> i) (users w))
             then (Rejected unique_violation, after_statement w1)
             else (Resolved 1%nat,
                   with_table (after_statement w1)
                     (map (fun u0 => if id u0 =? i
                                     then apply_update userData (clock w) u0
                                     else u0) (users w)) (last_id w1))
         | None =>
             (Resolved 1%nat,
              with_table (after_statement w1)
                (map (fun u0 => if id u0 =? i
                                then apply_update userData (clock w) u0
                                else u0) (users w)) (last_id w1))
         end : settled nat * World)
        = (Resolved 1%nat,
           with_table (after_statement w1)
             (update_rows i userData (clock w) (users w)) (last_id w1))).
      { destruct (update_email userData) as [e |] eqn:Ee; [| reflexivity].
        now rewrite (Hfree e eq_refl). }
      rewrite Hsent. unfold UserModel_findById. world_step.
      rewrite Hc1. cbn [negb].
      rewrite statement_healthy by exact Hhw2. world_step.
      rewrite Hread. reflexivity. }
    assert (Hall : exists w2,
      UserController_update i userData w
      = (mkResponse 200 true "User updated successfully"
           (UserData (apply_update userData (clock w) u)), w2)
      /\ users w2 = update_rows i userData (clock w) (users w)).
    { unfold UserController_update, handled.
      unfold and_then at 1. unfold UserModel_findById at 1.
      rewrite Hc. cbn [negb]. rewrite (statement_healthy _ w Hh). world_step.
      rewrite Hu.
      destruct (present (update_email userData)) as [e |] eqn:Ep.
      - assert (Ee : update_email userData = Some e).
        { unfold present in Ep. destruct (update_email userData) as [[| c s0] |];
            congruence. }
        destruct (Hgo (after_statement (after_statement w)) Hc Hh2 eq_refl eq_refl)
          as (w2 & Hrun & Hw2).
        exists w2. split; [| exact Hw2].
        unfold and_then at 1. unfold UserModel_exists.
        world_step. rewrite Hc. cbn [negb].
        rewrite (statement_healthy _ _ Hh1). world_step.
        destruct (i =? 0) eqn:E0; [lia |]. rewrite E0.
        rewrite (Hfree e Ee), Hrun. reflexivity.
      - destruct (Hgo (after_statement w) Hc Hh1 eq_refl eq_refl)
          as (w2 & Hrun & Hw2).
        exists w2. split; [| exact Hw2]. now rewrite Hrun. }
    destruct Hall as (w2 & -> & Hw2). cbn [fst snd]. rewrite Hw2.
    repeat split. intros j Hj. rewrite find_id_update_rows.
    destruct (find_id j (users w)) as [r |] eqn:Er; [| reflexivity]. cbn.
    apply find_id_Some in Er as [_ Er].
    destruct (id r =? i) eqn:E; [lia | reflexivity].
Qed.

Lemma update_replaces_given_fields_sample :
  fst (UserController_update 1 rename_alice alice_world)
  = mkResponse 200 true "User updated successfully"
      (UserData (mkUser 1 "Alicia" "alicia@example.com" (Some 30) 1000 2000)).
Proof.
  assert (Hh : healthy alice_world) by constructor.
  assert (Hi : 1 <> 0) by lia.
  assert (Hf : (update_name rename_alice, update_email rename_alice,
                update_age rename_alice) <> (None, None, None)) by discriminate.
  assert (He : forall e, update_email rename_alice = Some e ->
                 email_taken e (filter (fun r => id r <> 1) (users alice_world))
                 = false) by (intros e _; reflexivity).
  exact (proj1 (proj2 (update_replaces_given_fields 1 rename_alice alice_world
                         eq_refl Hh Hi) _ eq_refl Hf He)).
Defined.

End CrudBehaviour.

Module Paging.
Import Js Crud CrudState CrudMore.

#[global] Instance newer_first_total : Total newer_first.
Proof. intros a b. unfold newer_first. lia. Qed.

#[global] Instance newer_first_trans : Transitive newer_first.
Proof. intros a b c. unfold newer_first. lia. Qed.

(** Cutting a list into consecutive chunks of [size] and gluing enough of
    them back gives the list. *)
Lemma chunks_concat {A} (size : nat) (l : list A) (n : nat) :
  (length l <= n * size)%nat ->
  concat (map (fun k => take size (drop (k * size) l)) (seq 0 n)) = l.
Proof.
  revert l. induction n as [| n IH]; intros l Hlen.
  - destruct l as [| x l]; [reflexivity |]. cbn in Hlen. lia.
  - cbn [seq map concat]. rewrite <- fmap_S_seq.
    change (map ?f (S <$> ?l)) with (map f (map S l)). rewrite map_map.
    rewrite (map_ext _ (fun k => take size (drop (k * size) (drop size l)))).
    + rewrite IH; [apply take_drop |]. rewrite length_drop. lia.
    + intros k. now rewrite drop_drop.
Qed.

Lemma ceil_div_bounds (a b : Z) :
  0 < b -> (ceil_div a b - 1) * b < a <= ceil_div a b * b.
Proof.
  intros Hb. unfold ceil_div.
  pose proof (Z.mul_div_le (- a) b Hb).
  pose proof (Z.mul_succ_div_gt (- a) b Hb). lia.
Qed.

(** What [findAll] resolves to on a healthy, connected database. *)
Lemma findAll_healthy LIKE (filters : QueryFilters) (w : World) :
  connected w = true -> healthy w ->
  fst (UserModel_findAll LIKE filters w)
  = Resolved
      (mkPaginated
         (order_limit_offset
            (filter (fun u => where_clause LIKE filters u = true) (users w))
            (effective_limit filters)
            ((or_number (page filters) 1 - 1) * effective_limit filters))
         (mkPagination (or_number (page filters) 1) (effective_limit filters)
            (Z.of_nat (length (filter (fun u => where_clause LIKE filters u = true)
                                 (users w))))
            (ceil_div
               (Z.of_nat (length (filter (fun u => where_clause LIKE filters u = true)
                                    (users w))))
               (effective_limit filters))
            (or_number (page filters) 1
             <? ceil_div
                  (Z.of_nat (length (filter (fun u => where_clause LIKE filters u = true)
                                       (users w))))
                  (effective_limit filters))
            (1 <? or_number (page filters) 1))).
Proof.
  intros Hc Hh. assert (Hh1 := after_statement_healthy w Hh).
  unfold UserModel_findAll, and_then. rewrite Hc. cbn [negb].
  rewrite (statement_healthy _ w Hh). cbn [after_statement users].
  rewrite (statement_healthy _ _ Hh1). reflexivity.
Qed.

Lemma listing_length LIKE (filters : QueryFilters) (w : World) :
  length (listing LIKE filters w)
  = length (filter (fun u => where_clause LIKE filters u = true) (users w)).
Proof. unfold listing. apply Permutation_length, merge_sort_Permutation. Qed.

Lemma page_data_chunk LIKE (filters : QueryFilters) (w : World) (k : nat) :
  connected w = true -> healthy w -> 1 <= effective_limit filters ->
  page_data LIKE filters w (S k)
  = take (Z.to_nat (effective_limit filters))
      (drop (k * Z.to_nat (effective_limit filters)) (listing LIKE filters w)).
Proof.
  intros Hc Hh HL. unfold page_data. rewrite findAll_healthy by trivial.
  cbn [data]. unfold order_limit_offset.
  change (effective_limit (with_page filters (Z.of_nat (S k))))
    with (effective_limit filters).
  destruct (effective_limit filters <? 0) eqn:E; [lia |].
  replace (or_number (page (with_page filters (Z.of_nat (S k)))) 1)
    with (Z.of_nat (S k)).
  - unfold listing. f_equal. f_equal.
    rewrite Z2Nat.inj_mul by lia.
    replace (Z.of_nat (S k) - 1) with (Z.of_nat k) by lia.
    now rewrite Nat2Z.id.
  - reflexivity.
Qed.

End Paging.

Section PagingClaims.
Import Js Crud CrudState CrudMore Paging CrudSamples MoreSamples.

(** X7.  On a healthy, connected database and with a page size of at
    least 1: page [k] of a listing holds the rows from position
    [(k - 1) * limit] on, at most [limit] of them, newest first and, among
    rows of one instant, the larger id first; the pages 1 to [totalPages]
    glued together are the whole listing, each matching row once; and
    [hasNext] is set exactly when rows remain after the
    page, [hasPrev] exactly when the page is not the first. *)
Theorem pages_partition_the_listing (LIKE : string -> string -> bool)
  (filters : QueryFilters) (w : World) :
  connected w = true -> healthy w -> 1 <= effective_limit filters ->
  (forall k,
     page_data LIKE filters w (S k)
     = take (Z.to_nat (effective_limit filters))
         (drop (k * Z.to_nat (effective_limit filters)) (listing LIKE filters w)) /\
     StronglySorted newer_first (page_data LIKE filters w (S k))) /\
  concat (map (page_data LIKE filters w)
            (seq 1 (Z.to_nat (ceil_div (Z.of_nat (length (listing LIKE filters w)))
                                (effective_limit filters)))))
  = listing LIKE filters w /\
  listing LIKE filters w
  ≡ₚ filter (fun u => where_clause LIKE filters u = true) (users w) /\
  (forall p,
     fst (UserModel_findAll LIKE filters w) = Resolved p ->
     total (pagination p) = Z.of_nat (length (listing LIKE filters w)) /\
     (hasNext (pagination p) = true
      <-> pagination_page (pagination p) * pagination_limit (pagination p)
          < total (pagination p)) /\
     (hasPrev (pagination p) = true <-> 1 < pagination_page (pagination p))).
Proof.
  intros Hc Hh HL.
  assert (Hchunk := fun k => page_data_chunk LIKE filters w k Hc Hh HL).
  split; [| split; [| split]].
  - intros k. split; [apply Hchunk |]. rewrite Hchunk.
    assert (Hs : StronglySorted newer_first (listing LIKE filters w))
      by (apply StronglySorted_merge_sort; apply _).
    rewrite <- (take_drop (k * Z.to_nat (effective_limit filters))
                  (listing LIKE filters w)) in Hs.
    apply StronglySorted_app_1_r in Hs.
    rewrite <- (take_drop (Z.to_nat (effective_limit filters))
                  (drop _ (listing LIKE filters w))) in Hs.
    now apply StronglySorted_app_1_l in Hs.
  - rewrite <- fmap_S_seq.
    change (map ?f (S <$> ?l)) with (map f (map S l)). rewrite map_map.
    rewrite (map_ext _ _ Hchunk).
    apply chunks_concat.
    pose proof (ceil_div_bounds (Z.of_nat (length (listing LIKE filters w)))
                  (effective_limit filters) ltac:(lia)) as [_ Hup].
    assert (0 <= ceil_div (Z.of_nat (length (listing LIKE filters w)))
                   (effective_limit filters)).
    { unfold ceil_div. assert (- Z.of_nat (length (listing LIKE filters w))
                               / effective_limit filters <= 0); [| lia].
      apply Z.div_le_upper_bound; lia. }
    nia.
  - apply merge_sort_Permutation.
  - intros p Hp. rewrite findAll_healthy in Hp by trivial.
    injection Hp as <-. cbn [pagination total hasNext hasPrev pagination_page
                               pagination_limit].
    rewrite listing_length. split; [reflexivity |].
    rewrite !Z.ltb_lt. split; [| reflexivity].
    pose proof (ceil_div_bounds
                  (Z.of_nat (length (filter (fun u => where_clause LIKE filters u = true)
                                       (users w))))
                  (effective_limit filters) ltac:(lia)) as [Hlo Hup].
    split; nia.
Qed.

Lemma pages_partition_the_listing_sample :
  page_data like_any two_per_page tied_world 1
  = [mkUser 3 "Cy" "cy@example.com" None 1000 1000;
     mkUser 2 "Bob" "bob@example.com" None 1000 1000] /\
  page_data like_any two_per_page tied_world 2
  = [mkUser 1 "Ann" "ann@example.com" None 1000 1000].
Proof.
  assert (Hh : healthy tied_world) by constructor.
  assert (HL : 1 <= effective_limit two_per_page) by (vm_compute; discriminate).
  pose proof (proj1 (pages_partition_the_listing like_any two_per_page
                       tied_world eq_refl Hh HL)) as Hpage.
  split.
  - rewrite (proj1 (Hpage 0%nat)). reflexivity.
  - rewrite (proj1 (Hpage 1%nat)). reflexivity.
Defined.

End PagingClaims.

(** ** Action tokens: replay across runs of validations *)

Module TokenRunFacts.
Import ActionToken TokenFacts TokenRuns.

Section WithCrypto.
Variable expectedSignature : Payload -> string.
Variable timingSafeEqual : string -> string -> option bool.

Abbreviation validate := (validateActionToken expectedSignature timingSafeEqual).

(** A validation changes Redis only by recording, on acceptance, the
    nonce of the token with a 10-minute expiry. *)
Lemma validate_store (now : Z) (token : Token) (r : Redis) :
  snd (validate now token r) = r \/
  snd (validate now token r)
  = <[nonceKey (payload token) := ("1", now + 600 * 1000)]> r.
Proof.
  unfold validateActionToken, redis_setex.
  destruct (timingSafeEqual _ _) as [[|]|]; cbn; auto.
  destruct (_ >? _); cbn; auto.
  destruct (truthy _); cbn; auto.
Qed.

Lemma validate_accepted (now : Z) (token : Token) (r : Redis) (p : Payload) :
  fst (validate now token r) = Accepted p ->
  p = payload token /\
  timingSafeEqual (signature token) (expectedSignature (payload token)) = Some true /\
  now - timestamp (payload token) <= 300000 /\
  snd (validate now token r)
  = <[nonceKey (payload token) := ("1", now + 600 * 1000)]> r.
Proof.
  unfold validateActionToken, redis_setex.
  destruct (timingSafeEqual _ _) as [[|]|]; cbn; try discriminate.
  destruct (_ >? _) eqn:E; cbn; try discriminate.
  destruct (truthy _); cbn; try discriminate.
  intros [= <-]. repeat split. lia.
Qed.

Lemma recorded_until_validate (key : string) (bound now : Z) (token : Token)
  (r : Redis) :
  bound <= now + 600000 ->
  recorded_until key bound r ->
  recorded_until key bound (snd (validate now token r)).
Proof.
  intros Hnow (e & He & Hb).
  destruct (validate_store now token r) as [-> | ->]; [now exists e |].
  destruct (decide (nonceKey (payload token) = key)) as [<- | Hne].
  - exists (now + 600 * 1000). rewrite lookup_insert_eq. split; [reflexivity | lia].
  - exists e. now rewrite lookup_insert_ne.
Qed.

Lemma recorded_until_validate_all (key : string) (bound : Z)
  (calls : list (Z * Token)) (r : Redis) :
  Forall (fun c => bound <= fst c + 600000) calls ->
  recorded_until key bound r ->
  recorded_until key bound (validate_all expectedSignature timingSafeEqual calls r).
Proof.
  revert r. induction calls as [| [now token] calls IH]; intros r Hall Hr; [exact Hr |].
  apply Forall_cons in Hall as [Hnow Hall]. cbn.
  apply IH; [exact Hall |]. now apply recorded_until_validate.
Qed.

End WithCrypto.

End TokenRunFacts.

Section TokenRunClaims.
Import ActionToken TokenSamples TokenFacts TokenRuns TokenRunFacts MoreSamples.

(** X8.  Once a token that is not dated in the future has been accepted,
    no later validation of it is accepted, at whatever instant and
    whatever other tokens are validated in between (one call after the
    other, none before the first acceptance): it is rejected as expired or
    as a replay. *)
Theorem accepted_token_is_never_accepted_again
  (expectedSignature : Payload -> string)
  (timingSafeEqual : string -> string -> option bool)
  (now1 now2 : Z) (token : Token) (r : Redis) (calls : list (Z * Token)) :
  fst (validateActionToken expectedSignature timingSafeEqual now1 token r)
  = Accepted (payload token) ->
  timestamp (payload token) <= now1 ->
  Forall (fun c => now1 <= fst c) calls ->
  fst (validateActionToken expectedSignature timingSafeEqual now2 token
         (validate_all expectedSignature timingSafeEqual calls
            (snd (validateActionToken expectedSignature timingSafeEqual
                    now1 token r))))
  = Rejected token_expired \/
  fst (validateActionToken expectedSignature timingSafeEqual now2 token
         (validate_all expectedSignature timingSafeEqual calls
            (snd (validateActionToken expectedSignature timingSafeEqual
                    now1 token r))))
  = Rejected replay_attack.
Proof.
  intros Hacc Hts Hcalls.
  apply validate_accepted in Hacc as (_ & Hsig & Hage1 & Hstore).
  set (r1 := snd (validateActionToken expectedSignature timingSafeEqual
                    now1 token r)) in *.
  assert (Hrec : recorded_until (nonceKey (payload token)) (now1 + 600000)
                   (validate_all expectedSignature timingSafeEqual calls r1)).
  { apply recorded_until_validate_all.
    - eapply Forall_impl; [exact Hcalls |]. cbn. intros c Hc. lia.
    - rewrite Hstore. exists (now1 + 600 * 1000).
      rewrite lookup_insert_eq. split; [reflexivity | lia]. }
  destruct Hrec as (e & He & Hb).
  destruct (Z_gt_dec (now2 - timestamp (payload token)) (5 * 60 * 1000))
    as [Hold | Hyoung].
  - left. now rewrite validate_expired.
  - right. rewrite validate_replay; [reflexivity | exact Hsig | lia |].
    unfold redis_get. rewrite He.
    destruct (now2 <? e) eqn:E; [reflexivity | lia].
Qed.

Lemma accepted_token_is_never_accepted_again_sample :
  fst (validateActionToken sign_ab equal_hex 20 sample_token
         (validate_all sign_ab equal_hex [(10, other_token)]
            (snd (validateActionToken sign_ab equal_hex 0 sample_token ∅))))
  = Rejected token_expired \/
  fst (validateActionToken sign_ab equal_hex 20 sample_token
         (validate_all sign_ab equal_hex [(10, other_token)]
            (snd (validateActionToken sign_ab equal_hex 0 sample_token ∅))))
  = Rejected replay_attack.
Proof.
  assert (Hts : timestamp (payload sample_token) <= 0) by (cbn; lia).
  assert (Hcalls : Forall (fun c : Z * Token => 0 <= fst c) [(10, other_token)])
    by (repeat constructor; cbn; lia).
  exact (accepted_token_is_never_accepted_again sign_ab equal_hex 0 20
           sample_token ∅ [(10, other_token)] eq_refl Hts Hcalls).
Defined.

(** X9.  The validator has no lower bound on the age.  A verified token
    dated so far ahead that it is still within the 5-minute window after
    the 10-minute retention of its nonce has run out is accepted a second
    time. *)
Theorem future_dated_token_is_accepted_twice
  (expectedSignature : Payload -> string)
  (timingSafeEqual : string -> string -> option bool)
  (now1 now2 : Z) (token : Token) (r : Redis) :
  verifies expectedSignature timingSafeEqual token ->
  truthy (redis_get now1 (nonceKey (payload token)) r) = false ->
  now1 + 600000 <= now2 ->
  now2 - timestamp (payload token) <= 300000 ->
  fst (validateActionToken expectedSignature timingSafeEqual now1 token r)
  = Accepted (payload token) /\
  fst (validateActionToken expectedSignature timingSafeEqual now2 token
         (snd (validateActionToken expectedSignature timingSafeEqual now1 token r)))
  = Accepted (payload token).
Proof.
  intros Hsig Hfresh Hlater Hage.
  rewrite (validate_fresh _ _ now1 token r) by (trivial; lia). cbn [fst snd].
  split; [reflexivity |].
  rewrite validate_fresh; [reflexivity | exact Hsig | lia |].
  unfold redis_get, redis_setex. rewrite lookup_insert_eq.
  destruct (now2 <? now1 + 600 * 1000) eqn:E; [lia | reflexivity].
Qed.

Lemma future_dated_token_is_accepted_twice_sample :
  fst (validateActionToken sign_ab equal_hex 600000 future_token
         (snd (validateActionToken sign_ab equal_hex 0 future_token ∅)))
  = Accepted (payload future_token).
Proof.
  assert (H1 : 0 + 600000 <= 600000) by lia.
  assert (H2 : 600000 - timestamp (payload future_token) <= 300000) by (cbn; lia).
  exact (proj2 (future_dated_token_is_accepted_twice sign_ab equal_hex 0 600000
                  future_token ∅ eq_refl eq_refl H1 H2)).
Defined.

(** X10.  A token produced by [generateActionToken] is accepted, with the
    payload it was generated from, by a validation made within 5 minutes
    that has not seen its nonce, and the nonce is then recorded for 10
    minutes; this needs only that the comparison finds a signature equal
    to itself. *)
Theorem generated_token_is_accepted
  (expectedSignature : Payload -> string)
  (timingSafeEqual : string -> string -> option bool)
  (uuid cryptoNonce userId actionType : string) (scoreIncrement issued now : Z)
  (r : Redis) :
  (forall s, timingSafeEqual s s = Some true) ->
  now - issued <= 300000 ->
  truthy (redis_get now ("nonce:" +:+ cryptoNonce) r) = false ->
  validateActionToken expectedSignature timingSafeEqual now
    (generateActionToken expectedSignature uuid cryptoNonce issued userId
       actionType scoreIncrement) r
  = (Accepted (mkPayload uuid userId actionType scoreIncrement issued cryptoNonce),
     <["nonce:" +:+ cryptoNonce := ("1", now + 600000)]> r).
Proof.
  intros Hrefl Hage Hfresh.
  rewrite validate_fresh.
  - reflexivity.
  - unfold verifies, generateActionToken. cbn. apply Hrefl.
  - cbn. lia.
  - exact Hfresh.
Qed.

Lemma equal_hex_refl (s : string) : equal_hex s s = Some true.
Proof. unfold equal_hex. now rewrite Nat.eqb_refl, String.eqb_refl. Qed.

Lemma generated_token_is_accepted_sample :
  fst (validateActionToken sign_ab equal_hex 1000
         (generateActionToken sign_ab "action-9" "n9" 0 "user-1"
            "GAME_COMPLETION" 50) ∅)
  = Accepted (mkPayload "action-9" "user-1" "GAME_COMPLETION" 50 0 "n9").
Proof.
  assert (Hage : 1000 - 0 <= 300000) by lia.
  exact (f_equal fst
           (generated_token_is_accepted sign_ab equal_hex "action-9" "n9"
              "user-1" "GAME_COMPLETION" 50 0 1000 ∅ equal_hex_refl Hage eq_refl)).
Defined.

End TokenRunClaims.

(** ** Fraud detection: further properties *)

Module FraudMore.
Import Js Fraud FraudFacts.
Local Open Scope Q_scope.




Lemma Math_max_spec (first : Z) (rest : list Z) :
  (forall x, x ∈ first :: rest -> (x <= Math_max first rest)%Z) /\
  Math_max first rest ∈ first :: rest.
Proof.
  unfold Math_max. revert first.
  induction rest as [| y rest IH]; intros first; cbn.
  - split; [| left]. intros x Hx. apply list_elem_of_singleton in Hx. lia.
  - destruct (IH (Z.max first y)) as [Hub Hin]. split.
    + intros x Hx. apply elem_of_cons in Hx as [-> | Hx].
      * specialize (Hub (Z.max first y) ltac:(left)). lia.
      * apply elem_of_cons in Hx as [-> | Hx].
        -- specialize (Hub (Z.max first y) ltac:(left)). lia.
        -- apply Hub. now right.
    + apply elem_of_cons in Hin as [Heq | Hin].
      * rewrite Heq. destruct (Z.max_spec first y) as [[_ ->] | [_ ->]];
          [right; left | left].
      * right. now right.
Qed.

Lemma getRecommendation_block (r : Q) : 0.8 <= r <-> getRecommendation r = BLOCK.
Proof.
  unfold getRecommendation. split.
  - intros Hr. apply Qle_bool_iff in Hr. now rewrite Hr.
  - destruct (Qle_bool 0.8 r) eqn:E; [intros _; now apply Qle_bool_iff |].
    destruct (Qle_bool 0.6 r), (Qle_bool 0.4 r); discriminate.
Qed.

End FraudMore.

Section FraudMoreClaims.
Import Js Fraud FraudFacts FraudMore FraudSamples FraudRules FraudRuleSamples.
Local Open Scope Q_scope.

(** X11.  The recommendation is computed from the total before it is
    clamped to 1, and clamping never changes it: the recommendation an
    assessment carries is the one of the total it reports. *)
Theorem recommendation_matches_reported_total
  (JSON_parse : string -> option Parsed)
  (analyzeDevice : string -> Metadata -> Q)
  (analyzeTimePatterns : string -> Q)
  (stores : Stores) (userId : string) (scoreIncrement : Z)
  (metadata : Metadata) (a : RiskAssessment) :
  assessRisk JSON_parse analyzeDevice analyzeTimePatterns stores userId
    scoreIncrement metadata = Return a ->
  recommendation a = getRecommendation (totalRiskScore a).
Proof.
  intros Hrun. apply assessRisk_unfold in Hrun as (b & _ & ->). cbv zeta.
  cbn [recommendation totalRiskScore].
  set (total := weighted _ _ _ _ _).
  unfold Qmin, GenericMinMax.gmin.
  destruct (total ?= 1.0) eqn:E; try reflexivity.
  apply Qgt_alt in E.
  rewrite (proj1 (getRecommendation_block total)); [reflexivity | lra].
Qed.

Lemma recommendation_matches_reported_total_sample :
  exists a,
    assessRisk parse_played device_one time_one busy_stores "u1" 50%Z purchase
    = Return a /\
    recommendation a = getRecommendation (totalRiskScore a).
Proof.
  eexists. split; [reflexivity |].
  exact (recommendation_matches_reported_total parse_played device_one time_one
           busy_stores "u1" 50%Z purchase _ eq_refl).
Defined.



(** X13.  The score pattern analysis returns 0.9 exactly when the user has
    history and the increment is more than twice every recorded
    increment. *)
Theorem pattern_risk_is_highest_iff_increment_doubles_all
  (rows : list HistoryRow) (scoreIncrement : Z) :
  analyzeScorePattern rows scoreIncrement = 0.9 <->
  rows <> [] /\
  forall r, r ∈ rows -> (2 * score_increment r < scoreIncrement)%Z.
Proof.
  unfold analyzeScorePattern.
  destruct rows as [| r0 rows]; cbn [map].
  - split; [discriminate | intros [H _]; now contradict H].
  - cbv zeta.
    destruct (Math_max_spec (score_increment r0) (map score_increment rows))
      as [Hub Hin].
    destruct (scoreIncrement >? _)%Z eqn:E.
    + split; [| reflexivity]. intros _. split; [discriminate |].
      intros r Hr.
      assert (score_increment r
              <= Math_max (score_increment r0) (map score_increment rows))%Z.
      { apply Hub. change (score_increment r ∈ map score_increment (r0 :: rows)).
        apply list_elem_of_fmap. now exists r. }
      lia.
    + split.
      * repeat match goal with
               | |- context [if ?b then _ else _] => destruct b
               end; discriminate.
      * intros [_ Hall]. exfalso.
        change (Math_max (score_increment r0) (map score_increment rows)
                ∈ map score_increment (r0 :: rows)) in Hin.
        apply list_elem_of_fmap in Hin as (r & Hr & Hin).
        specialize (Hall r Hin). lia.
Qed.


(** X15.  For a user whose stored action counts parse to an object: an
    action type the object has no count for is scored 0.6 when some
    action was recorded, but 0.1 when the counts add up to zero (an empty
    object), because the quotient 0/0 is below no threshold, and 0.1 as
    well when the action type is the name of a member every object
    inherits, such as [toString]. *)
Theorem unseen_action_type_risk
  (JSON_parse : string -> option Parsed)
  (behavior : gmap string string) (metadata : Metadata)
  (json : string) (actionTypes : list (string * Z)) :
  behavior !! "action_types" = Some json ->
  json <> EmptyString ->
  JSON_parse json = Some (JsonObject actionTypes) ->
  own_property actionTypes (current_action_type metadata) = None ->
  (current_action_type metadata ∉ Object_prototype ->
   ((0 < fold_left Z.add (map snd actionTypes) 0)%Z ->
    analyzeBehavior JSON_parse behavior metadata = Return 0.6) /\
   (fold_left Z.add (map snd actionTypes) 0%Z = 0%Z ->
    analyzeBehavior JSON_parse behavior metadata = Return 0.1)) /\
  (current_action_type metadata ∈ Object_prototype ->
   analyzeBehavior JSON_parse behavior metadata = Return 0.1).
Proof.
  intros Hb Hne Hp Hunseen. unfold analyzeBehavior. rewrite Hb.
  destruct json as [| c s]; [now contradict Hne |].
  rewrite Hp. cbv zeta. unfold property. rewrite Hunseen.
  assert (Hin : existsb (String.eqb (current_action_type metadata)) Object_prototype
                = true <-> current_action_type metadata ∈ Object_prototype).
  { rewrite existsb_exists. split.
    - intros (k & Hk & Heq). apply String.eqb_eq in Heq. subst k.
      now apply list_elem_of_In.
    - intros H. exists (current_action_type metadata).
      split; [now apply list_elem_of_In | apply String.eqb_refl]. }
  split.
  - intros Hout.
    destruct (existsb _ Object_prototype); [exfalso; apply Hout; now apply Hin |].
    unfold quotient_below. split.
    + intros Hpos.
      destruct (fold_left Z.add (map snd actionTypes) 0 =? 0)%Z eqn:E; [lia |].
      reflexivity.
    + intros ->. reflexivity.
  - intros Hmember. apply Hin in Hmember. now rewrite Hmember.
Qed.

Lemma unseen_action_type_risk_sample :
  analyzeBehavior parse_played (behavior_hash busy_stores "u1") purchase
  = Return 0.6 /\
  analyzeBehavior parse_played (behavior_hash busy_stores "u1")
    (mkMetadata "toString")
  = Return 0.1.
Proof.
  assert (Hne : "{...}"%string <> EmptyString) by discriminate.
  assert (Hpos : (0 < fold_left Z.add (map snd [("GAME_COMPLETION"%string, 3%Z)]) 0)%Z)
    by (cbn; lia).
  assert (Hout : "PURCHASE"%string ∉ Object_prototype).
  { intros H. apply list_elem_of_In in H. cbn in H.
    repeat destruct H as [H | H]; discriminate || exact H. }
  assert (Hmember : "toString"%string ∈ Object_prototype).
  { apply list_elem_of_In. cbn. auto 20. }
  split.
  - exact (proj1 (proj1 (unseen_action_type_risk parse_played
                           (behavior_hash busy_stores "u1") purchase "{...}"
                           [("GAME_COMPLETION"%string, 3%Z)] eq_refl Hne eq_refl
                           eq_refl) Hout) Hpos).
  - exact (proj2 (unseen_action_type_risk parse_played
                    (behavior_hash busy_stores "u1") (mkMetadata "toString")
                    "{...}" [("GAME_COMPLETION"%string, 3%Z)] eq_refl Hne eq_refl
                    eq_refl) Hmember).
Defined.

(** X16.  The interval between updates only counts for users with at most
    five updates in the hour: beyond five the score depends on the count
    alone, so with an average interval under 5 seconds a sixth update
    lowers the frequency risk from 0.8 to 0.4. *)
Theorem frequency_risk_ignores_interval_beyond_five
  (few many : Z) (interval : Q) :
  (few <= 5)%Z -> (5 < many)%Z -> (many <= 10)%Z ->
  0 < interval -> interval < 5 ->
  analyzeFrequency (mkFrequencyRow few (Some interval)) = 0.8 /\
  analyzeFrequency (mkFrequencyRow many (Some interval)) = 0.4 /\
  (forall row, (5 < count row)%Z ->
     analyzeFrequency row = analyzeFrequency (mkFrequencyRow (count row) None)).
Proof.
  intros Hfew Hmany Hten Hpos Hfast.
  assert (Hbelow : interval_below (Some interval) 5 = true).
  { unfold interval_below, Qltb. apply andb_true_iff. split.
    - apply negb_true_iff. destruct (Qeq_bool interval 0) eqn:E; [| reflexivity].
      apply Qeq_bool_iff in E. lra.
    - apply negb_true_iff. apply Qle_bool_false. exact Hfast. }
  unfold analyzeFrequency. cbn [count avg_interval]. repeat split.
  - destruct (few >? 20)%Z eqn:E1; [lia |].
    destruct (few >? 10)%Z eqn:E2; [lia |].
    destruct (few >? 5)%Z eqn:E3; [lia |].
    now rewrite Hbelow.
  - destruct (many >? 20)%Z eqn:E1; [lia |].
    destruct (many >? 10)%Z eqn:E2; [lia |].
    destruct (many >? 5)%Z eqn:E3; [reflexivity | lia].
  - intros row Hrow.
    destruct (count row >? 20)%Z; [reflexivity |].
    destruct (count row >? 10)%Z; [reflexivity |].
    destruct (count row >? 5)%Z eqn:E3; [reflexivity | lia].
Qed.

Lemma frequency_risk_ignores_interval_beyond_five_sample :
  analyzeFrequency (mkFrequencyRow 5 (Some 1)) = 0.8 /\
  analyzeFrequency (mkFrequencyRow 6 (Some 1)) = 0.4.
Proof.
  assert (H1 : (5 <= 5)%Z) by lia.
  assert (H2 : (5 < 6)%Z) by lia.
  assert (H3 : (6 <= 10)%Z) by lia.
  assert (H4 : 0 < 1) by reflexivity.
  assert (H5 : 1 < 5) by reflexivity.
  pose proof (frequency_risk_ignores_interval_beyond_five 5 6 1 H1 H2 H3 H4 H5)
    as (Hfew & Hmany & _).
  split; assumption.
Defined.

(** X17.  For an hour of the day and a time zone offset between -12 and
    +14 hours, the night rule fires exactly when the local hour, taken
    modulo 24, is from 2 to 5: the sign-following remainder of JavaScript
    only differs on negative sums, which are never night hours here. *)
Theorem night_rule_matches_local_hour (hour userTimezone : Z) :
  (0 <= hour <= 23)%Z -> (-12 <= userTimezone <= 14)%Z ->
  NIGHT_ACTIVITY_check hour userTimezone = true <->
  (2 <= (hour + userTimezone) mod 24 <= 5)%Z.
Proof.
  intros Hh Htz. unfold NIGHT_ACTIVITY_check. cbv zeta.
  rewrite andb_true_iff, !Z.leb_le.
  destruct (Z_lt_dec (hour + userTimezone) 0) as [Hneg | Hpos].
  - pose proof (Z.rem_bound_pos_neg (hour + userTimezone) 24 ltac:(lia) ltac:(lia)).
    assert ((hour + userTimezone) mod 24 = hour + userTimezone + 24)%Z.
    { symmetry. apply (Z.mod_unique _ _ (-1)); lia. }
    lia.
  - rewrite Z.rem_mod_nonneg by lia. reflexivity.
Qed.

Lemma night_rule_matches_local_hour_sample :
  NIGHT_ACTIVITY_check 23 3 = true <-> (2 <= (23 + 3) mod 24 <= 5)%Z.
Proof.
  assert (Hh : (0 <= 23 <= 23)%Z) by lia.
  assert (Htz : (-12 <= 3 <= 14)%Z) by lia.
  exact (night_rule_matches_local_hour 23 3 Hh Htz).
Defined.

(** X18.  How the incident response lines up with the recommendation for
    one risk score: a blocked score always draws restrictions or a
    suspension, suspension exactly from 0.9; a challenged score always
    draws monitoring or restrictions; an allowed score draws nothing. *)
Theorem incident_response_follows_recommendation (userId : string) (r : Q) :
  (getRecommendation r = BLOCK ->
   handleFraudAlert userId r
   = [SuspendUser userId "FRAUD_SUSPECTED";
      AlertSecurityTeam "CRITICAL" "USER_SUSPENDED"] \/
   handleFraudAlert userId r
   = [ApplyTemporaryRestrictions userId;
      AlertSecurityTeam "HIGH" "RESTRICTIONS_APPLIED"]) /\
  (handleFraudAlert userId r
   = [SuspendUser userId "FRAUD_SUSPECTED";
      AlertSecurityTeam "CRITICAL" "USER_SUSPENDED"] <-> 0.9 <= r) /\
  (getRecommendation r = CHALLENGE ->
   handleFraudAlert userId r = [EnableEnhancedMonitoring userId] \/
   handleFraudAlert userId r
   = [ApplyTemporaryRestrictions userId;
      AlertSecurityTeam "HIGH" "RESTRICTIONS_APPLIED"]) /\
  (getRecommendation r = ALLOW -> handleFraudAlert userId r = []).
Proof.
  unfold getRecommendation, handleFraudAlert.
  destruct (Qle_bool 0.9 r) eqn:E9;
    [apply Qle_bool_iff in E9 | apply Qle_bool_false in E9];
  (destruct (Qle_bool 0.8 r) eqn:E8;
    [apply Qle_bool_iff in E8 | apply Qle_bool_false in E8]);
  (destruct (Qle_bool 0.7 r) eqn:E7;
    [apply Qle_bool_iff in E7 | apply Qle_bool_false in E7]);
  (destruct (Qle_bool 0.6 r) eqn:E6;
    [apply Qle_bool_iff in E6 | apply Qle_bool_false in E6]);
  (destruct (Qle_bool 0.5 r) eqn:E5;
    [apply Qle_bool_iff in E5 | apply Qle_bool_false in E5]);
  (destruct (Qle_bool 0.4 r) eqn:E4;
    [apply Qle_bool_iff in E4 | apply Qle_bool_false in E4]);
  try lra;
  repeat split; intros; try discriminate; try lra; auto.
Qed.

End FraudMoreClaims.

(** ** Rate limiting *)

Module RateFacts.
Import RateLimit.

Lemma ceil_seconds_covers (window : Z) : window <= ceil_seconds window * 1000.
Proof.
  unfold ceil_seconds.
  pose proof (Z.mul_div_le (- window) 1000 ltac:(lia)). lia.
Qed.

Lemma zadd_fresh (score : Z) (member : Member) (l : list (Member * Z)) :
  (forall e, e ∈ l -> fst e <> member) ->
  zadd score member l = l ++ [(member, score)].
Proof.
  intros Hfresh. unfold zadd.
  destruct (existsb _ l) eqn:E; [| reflexivity].
  apply existsb_exists in E as (e & He & Heq).
  apply bool_decide_eq_true in Heq. exfalso.
  apply (Hfresh e); [now apply list_elem_of_In | exact Heq].
Qed.

Lemma zremrangebyscore_tagged (t window : Z) (calls : list Member) :
  Forall (fun c => 0 <= time_of c) calls ->
  zremrangebyscore 0 (t - window) (map tag calls)
  = map tag (in_window window t calls).
Proof.
  unfold zremrangebyscore, in_window.
  induction calls as [| c calls IH]; intros Hpos; [reflexivity |].
  apply Forall_cons in Hpos as [Hc Hpos]. cbn [map].
  rewrite !filter_cons. cbn [tag snd].
  destruct (decide (~ (0 <= time_of c <= t - window))) as [Hk | Hk],
           (decide (t - window < time_of c)) as [Hw | Hw];
    cbn [map]; rewrite ?IH by exact Hpos; trivial; lia.
Qed.

Lemma in_window_idem (window t t' : Z) (calls : list Member) :
  t' <= t -> in_window window t (in_window window t' calls) = in_window window t calls.
Proof.
  intros Hle. unfold in_window. rewrite list_filter_filter.
  apply list_filter_iff. intros c. lia.
Qed.

Lemma in_window_none (window t : Z) (calls : list Member) :
  Forall (fun c => time_of c <= t - window) calls -> in_window window t calls = [].
Proof.
  unfold in_window. induction calls as [| c calls IH]; intros H; [reflexivity |].
  apply Forall_cons in H as [Hc H]. rewrite filter_cons.
  destruct (decide (t - window < time_of c)); [lia | now apply IH].
Qed.

Lemma tracks_start (key : string) (window : Z) (store : Store) :
  store !! key = None -> tracks key window [] store.
Proof. intros Hnone t _. unfold members_at. now rewrite Hnone. Qed.

(** The answer a call gets is the number of calls in its window, itself
    included, and the store goes on tracking. *)
Lemma checkRateLimit_tracks (key : string) (limit window : Z)
  (seen : list Member) (c : Member) (store : Store) :
  0 < window ->
  tracks key window seen store ->
  Forall (fun c' => 0 <= time_of c') (seen ++ [c]) ->
  Forall (fun c' => time_of c' <= time_of c) seen ->
  c ∉ seen ->
  fst (checkRateLimit (snd c) (fst c) key limit window store)
  = mkLimit (Z.of_nat (length (in_window window (time_of c) (seen ++ [c])))
             <=? limit)
      (Z.of_nat (length (in_window window (time_of c) (seen ++ [c]))))
      limit (time_of c + window) /\
  tracks key window (seen ++ [c])
    (snd (checkRateLimit (snd c) (fst c) key limit window store)).
Proof.
  intros Hw Htr Hpos Hlast Hfresh.
  apply Forall_app in Hpos as [Hpos Hc]. rewrite Forall_singleton in Hc.
  unfold checkRateLimit. cbv zeta. cbn [fst snd].
  change (fst c) with (time_of c).
  rewrite (Htr (time_of c) Hlast).
  assert (Hadd : zadd (time_of c) (time_of c, snd c)
                   (map tag (in_window window (time_of c) seen))
                 = map tag (in_window window (time_of c) (seen ++ [c]))).
  { rewrite zadd_fresh.
    - unfold in_window at 2. rewrite filter_app, map_app. f_equal.
      rewrite filter_cons, filter_nil.
      destruct (decide (time_of c - window < time_of c)); [| lia].
      destruct c; reflexivity.
    - intros e He Heq. apply list_elem_of_fmap in He as (c' & -> & Hc').
      apply list_elem_of_filter in Hc' as [_ Hc'].
      cbn in Heq. apply Hfresh. destruct c. cbn in *. now subst c'. }
  rewrite Hadd. rewrite length_map. split; [reflexivity |].
  intros t Hall. apply Forall_app in Hall as [Hseen Htc].
  rewrite Forall_singleton in Htc.
  unfold members_at. rewrite lookup_insert_eq. cbn [expires entries].
  destruct (t <? time_of c + ceil_seconds window * 1000) eqn:E.
  - rewrite zremrangebyscore_tagged.
    + now rewrite in_window_idem.
    + unfold in_window. apply Forall_forall. intros c' Hc'.
      apply list_elem_of_filter in Hc' as [_ Hc'].
      apply elem_of_app in Hc' as [Hc' | Hc'].
      * rewrite Forall_forall in Hpos. now apply Hpos.
      * apply list_elem_of_singleton in Hc'. now subst c'.
  - pose proof (ceil_seconds_covers window).
    rewrite in_window_none; [reflexivity |].
    apply Forall_app. split.
    + eapply Forall_impl; [exact Hlast |]. cbn. intros c' Hc'. lia.
    + apply Forall_singleton. lia.
Qed.

Lemma check_all_answers (key : string) (limit window : Z) (rest : list Member) :
  0 < window ->
  forall (seen : list Member) (store : Store),
    tracks key window seen store ->
    Forall (fun c => 0 <= time_of c) (seen ++ rest) ->
    Forall (fun s => Forall (by_time s) rest) seen ->
    StronglySorted by_time rest ->
    NoDup (seen ++ rest) ->
    fst (check_all rest key limit window store)
    = answers_from limit window seen rest.
Proof.
  intros Hw. induction rest as [| c rest IH];
    intros seen store Htr Hpos Hbefore Hsorted Hnd; [reflexivity |].
  cbn [check_all answers_from]. destruct c as [now random] eqn:Ec.
  rewrite <- Ec in *.
  assert (Hlast : Forall (fun c' => time_of c' <= time_of c) seen).
  { eapply Forall_impl; [exact Hbefore |]. cbn. intros s Hs.
    now apply Forall_cons in Hs as [Hs _]. }
  assert (Hfresh : c ∉ seen).
  { apply NoDup_app in Hnd as (_ & Hdisj & _). intros Hin.
    apply (Hdisj c Hin). left. }
  assert (Hposc : Forall (fun c' => 0 <= time_of c') (seen ++ [c])).
  { rewrite Forall_app in *. destruct Hpos as [Hs Hr]. split; [exact Hs |].
    apply Forall_cons in Hr as [Hc _]. now apply Forall_singleton. }
  destruct (checkRateLimit_tracks key limit window seen c store
              Hw Htr Hposc Hlast Hfresh) as [Hans Htr'].
  replace now with (fst c) by (now rewrite Ec).
  replace random with (snd c) by (now rewrite Ec).
  destruct (checkRateLimit (snd c) (fst c) key limit window store)
    as [answer store1] eqn:Estep.
  cbn [fst snd] in Hans, Htr'.
  specialize (IH (seen ++ [c]) store1 Htr').
  destruct (check_all rest key limit window store1) as [answers store2] eqn:Erest.
  cbn [fst] in IH |- *. rewrite Hans. unfold answer_for. f_equal.
  apply IH.
  - now rewrite <- app_assoc.
  - apply Forall_app. split.
    + eapply Forall_impl; [exact Hbefore |]. cbn. intros s Hs.
      now apply Forall_cons in Hs as [_ Hs].
    + apply Forall_singleton. now apply StronglySorted_inv in Hsorted as [_ Hs].
  - now apply StronglySorted_inv in Hsorted as [Hs _].
  - now rewrite <- app_assoc.
Qed.

Lemma answers_from_length (limit window : Z) (rest seen : list Member) :
  length (answers_from limit window seen rest) = length rest.
Proof.
  revert seen. induction rest as [| c rest IH]; intros seen; [reflexivity |].
  cbn. now rewrite IH.
Qed.

Lemma answers_from_snoc (limit window : Z) (rest seen : list Member) (c : Member) :
  answers_from limit window seen (rest ++ [c])
  = answers_from limit window seen rest
    ++ [answer_for limit window (seen ++ rest) c].
Proof.
  revert seen. induction rest as [| r rest IH]; intros seen; cbn.
  - now rewrite app_nil_r.
  - rewrite IH. now rewrite <- app_assoc.
Qed.

(** Fewer calls were allowed in a window than there were calls in it. *)
Lemma allowed_in_window_le (window t : Z) (calls : list Member)
  (answers : list Limit) :
  (length (allowed_in_window window t calls answers)
   <= length (in_window window t calls))%nat.
Proof.
  unfold allowed_in_window, in_window. revert answers.
  induction calls as [| c calls IH]; intros [| a answers]; cbn [zip_with];
    try (rewrite ?filter_nil; cbn [length]; lia).
  rewrite !filter_cons. cbn [fst snd].
  specialize (IH answers).
  destruct (decide (allowed a = true /\ t - window < time_of c <= t)) as [[_ H] | H],
           (decide (t - window < time_of c)); cbn; lia.
Qed.

Lemma in_window_mono (window t t' : Z) (calls : list Member) :
  t' <= t ->
  (length (in_window window t calls) <= length (in_window window t' calls))%nat.
Proof.
  intros Hle. unfold in_window.
  induction calls as [| c calls IH]; [reflexivity |].
  rewrite !filter_cons.
  destruct (decide (t - window < time_of c)), (decide (t' - window < time_of c));
    cbn; lia.
Qed.

(** The counting argument, on the answers read off the instants. *)
Lemma allowed_in_window_bound (limit window t : Z) (calls : list Member) :
  0 <= limit ->
  (Z.of_nat (length (allowed_in_window window t calls
                       (answers_from limit window [] calls))) <= limit).
Proof.
  intros Hlimit. induction calls as [| c calls IH] using rev_ind.
  - cbn. lia.
  - rewrite answers_from_snoc. cbn [app].
    unfold allowed_in_window in *.
    rewrite zip_with_app by (now rewrite answers_from_length).
    rewrite filter_app, length_app. cbn [zip_with].
    rewrite filter_cons, filter_nil. cbn [fst snd].
    destruct (decide (allowed (answer_for limit window calls c) = true /\
                      t - window < time_of c <= t)) as [[Hallowed Hin] | Hout];
      cbn [length]; [| lia].
    unfold answer_for in Hallowed. cbn [allowed] in Hallowed.
    apply Z.leb_le in Hallowed.
    unfold in_window in Hallowed at 1. rewrite filter_app, length_app in Hallowed.
    rewrite filter_cons, filter_nil in Hallowed.
    destruct (decide (time_of c - window < time_of c)) as [_ | Hw];
      cbn [length] in Hallowed.
    + pose proof (allowed_in_window_le window t calls
                    (answers_from limit window [] calls)) as H1.
      pose proof (in_window_mono window t (time_of c) calls ltac:(lia)) as H2.
      unfold allowed_in_window, in_window in H1, H2. lia.
    + pose proof (allowed_in_window_le window t calls
                    (answers_from limit window [] calls)) as H1.
      pose proof (in_window_mono window t (time_of c) calls ltac:(lia)) as H2.
      unfold allowed_in_window, in_window in H1, H2. lia.
Qed.

End RateFacts.

Section RateClaims.
Import RateLimit RateFacts MoreSamples.

(** X19.  A call to [checkRateLimit] on a key that tracks the calls seen so
    far counts the calls made within the last [window] milliseconds,
    itself included, and is allowed exactly when that count is within the
    limit: a refused call is recorded and counted like any other. *)
Theorem checkRateLimit_counts_calls_in_window (key : string) (limit window : Z)
  (calls : list Member) (store : Store) :
  0 < window ->
  store !! key = None ->
  Forall (fun c => 0 <= time_of c) calls ->
  StronglySorted by_time calls ->
  NoDup calls ->
  fst (check_all calls key limit window store)
  = answers_from limit window [] calls.
Proof.
  intros Hw Hnone Hpos Hsorted Hnd.
  apply check_all_answers; trivial. now apply tracks_start.
Qed.

(** X20.  Starting from an unused key, for calls made at non-decreasing
    instants with distinct random numbers, no window of [window]
    milliseconds contains more allowed calls than the limit. *)
Theorem at_most_limit_allowed_per_window (key : string) (limit window t : Z)
  (calls : list Member) (store : Store) :
  0 < window -> 0 <= limit ->
  store !! key = None ->
  Forall (fun c => 0 <= time_of c) calls ->
  StronglySorted by_time calls ->
  NoDup calls ->
  Z.of_nat (length (allowed_in_window window t calls
                      (fst (check_all calls key limit window store))))
  <= limit.
Proof.
  intros Hw Hlimit Hnone Hpos Hsorted Hnd.
  rewrite (check_all_answers key limit window calls Hw [] store); trivial.
  - now apply allowed_in_window_bound.
  - now apply tracks_start.
Qed.

Lemma three_calls_ok :
  Forall (fun c => 0 <= time_of c) three_calls /\
  StronglySorted by_time three_calls /\ NoDup three_calls.
Proof.
  split; [| split].
  - repeat constructor; cbn; lia.
  - repeat constructor; unfold by_time; cbn; lia.
  - apply (bool_decide_unpack (NoDup three_calls)). vm_compute. exact I.
Qed.

Lemma checkRateLimit_counts_calls_in_window_sample :
  fst (check_all three_calls "k" 2 60000 ∅)
  = answers_from 2 60000 [] three_calls.
Proof.
  assert (Hw : 0 < 60000) by lia.
  exact (checkRateLimit_counts_calls_in_window "k" 2 60000 three_calls ∅ Hw
           eq_refl (proj1 three_calls_ok) (proj1 (proj2 three_calls_ok))
           (proj2 (proj2 three_calls_ok))).
Defined.

Lemma at_most_limit_allowed_per_window_sample :
  Z.of_nat (length (allowed_in_window 60000 20 three_calls
                      (fst (check_all three_calls "k" 2 60000 ∅))))
  <= 2.
Proof.
  assert (Hw : 0 < 60000) by lia.
  assert (Hl : 0 <= 2) by lia.
  exact (at_most_limit_allowed_per_window "k" 2 60000 20 three_calls ∅ Hw Hl
           eq_refl (proj1 three_calls_ok) (proj1 (proj2 three_calls_ok))
           (proj2 (proj2 three_calls_ok))).
Defined.

Lemma user_key_is_not_ip_key (u ip : string) :
  "rate_limit:user:" +:+ u <> "rate_limit:ip:" +:+ ip.
Proof.
  intros H. apply (f_equal (String.get 11)) in H.
  vm_compute in H. discriminate.
Qed.

(** X21.  Through [enforceRateLimit], a request with a user id that the
    per-user limit refuses is answered USER_RATE_LIMIT_EXCEEDED without
    touching the counter of its IP address, whereas a request that the
    per-IP limit refuses has already been counted against its user. *)
Theorem user_refusal_spares_ip_counter (random1 random2 : string) (now : Z)
  (u ip : string) (store : Store) :
  u <> EmptyString ->
  (allowed (fst (checkRateLimit random1 now ("rate_limit:user:" +:+ u) 10
                   (60 * 1000) store)) = false ->
   fst (enforceRateLimit random1 random2 now (Some u) ip store)
   = TooManyRequests "USER_RATE_LIMIT_EXCEEDED" (now + 60 * 1000) /\
   snd (enforceRateLimit random1 random2 now (Some u) ip store)
     !! ("rate_limit:ip:" +:+ ip)
   = store !! ("rate_limit:ip:" +:+ ip)) /\
  (fst (enforceRateLimit random1 random2 now (Some u) ip store)
   = TooManyRequests "IP_RATE_LIMIT_EXCEEDED" (now + 60 * 1000) ->
   snd (enforceRateLimit random1 random2 now (Some u) ip store)
     !! ("rate_limit:user:" +:+ u)
   = snd (checkRateLimit random1 now ("rate_limit:user:" +:+ u) 10
            (60 * 1000) store) !! ("rate_limit:user:" +:+ u)).
Proof.
  intros Hu. unfold enforceRateLimit.
  destruct u as [| ch u']; [now contradict Hu |].
  set (user_key := "rate_limit:user:" +:+ String ch u').
  set (ip_key := "rate_limit:ip:" +:+ ip).
  assert (Hkeys : user_key <> ip_key) by apply user_key_is_not_ip_key.
  destruct (checkRateLimit random1 now user_key 10 (60 * 1000) store)
    as [userLimit store1] eqn:Euser.
  cbn [fst snd].
  assert (Hreset : resetTime userLimit = now + 60 * 1000).
  { unfold checkRateLimit in Euser. now injection Euser as <- _. }
  assert (Hstore1 : store1 !! ip_key = store !! ip_key).
  { unfold checkRateLimit in Euser. injection Euser as _ <-.
    now rewrite lookup_insert_ne. }
  split.
  - intros Hrefused. rewrite Hrefused. cbn [fst snd]. rewrite Hreset. now split.
  - destruct (allowed userLimit); [| discriminate].
    unfold checkRateLimit at 1 2. cbv zeta.
    match goal with
    | |- context [if ?b then _ else _] => destruct b
    end; cbn [fst snd]; [discriminate |].
    intros _. rewrite lookup_insert_ne; [reflexivity |]. now apply not_eq_sym.
Qed.

Lemma user_refusal_spares_ip_counter_sample :
  (fst (enforceRateLimit "r1" "r2" 200 (Some "u1") "10.0.0.1" busy_user_store)
   = TooManyRequests "USER_RATE_LIMIT_EXCEEDED" (200 + 60 * 1000) /\
   snd (enforceRateLimit "r1" "r2" 200 (Some "u1") "10.0.0.1" busy_user_store)
     !! ("rate_limit:ip:" +:+ "10.0.0.1")
   = busy_user_store !! ("rate_limit:ip:" +:+ "10.0.0.1")) /\
  fst (enforceRateLimit "r1" "r2" 200 (Some "u1") "10.0.0.1" busy_ip_store)
  = TooManyRequests "IP_RATE_LIMIT_EXCEEDED" (200 + 60 * 1000) /\
  snd (enforceRateLimit "r1" "r2" 200 (Some "u1") "10.0.0.1" busy_ip_store)
    !! ("rate_limit:user:" +:+ "u1")
  = snd (checkRateLimit "r1" 200 ("rate_limit:user:" +:+ "u1") 10
           (60 * 1000) busy_ip_store) !! ("rate_limit:user:" +:+ "u1").
Proof.
  assert (Hu : "u1"%string <> EmptyString) by discriminate.
  assert (Hrefused :
    allowed (fst (checkRateLimit "r1" 200 ("rate_limit:user:" +:+ "u1") 10
                    (60 * 1000) busy_user_store)) = false)
    by (vm_compute; reflexivity).
  assert (Hip :
    fst (enforceRateLimit "r1" "r2" 200 (Some "u1") "10.0.0.1" busy_ip_store)
    = TooManyRequests "IP_RATE_LIMIT_EXCEEDED" (200 + 60 * 1000))
    by (vm_compute; reflexivity).
  split; [| split].
  - exact (proj1 (user_refusal_spares_ip_counter "r1" "r2" 200 "u1" "10.0.0.1"
                    busy_user_store Hu) Hrefused).
  - exact Hip.
  - exact (proj2 (user_refusal_spares_ip_counter "r1" "r2" 200 "u1" "10.0.0.1"
                    busy_ip_store Hu) Hip).
Defined.

End RateClaims.

(** ** Sum to n: further properties *)

Section SumMoreClaims.
Import Js Double DoubleFacts SumFacts ValidationFacts Bench.



(** X23.  The tail-recursive function adds the sum to the accumulator it
    is given, as long as no value exceeds 2^53 and the call stack has
    room for the recursion: in [sum.ts] for every non-negative integer
    [n] and non-negative accumulator, in [sum.js] for every non-negative
    integer [n] and any integer accumulator. *)
Theorem sum_to_n_c_optimized_adds_to_accumulator (depth : nat)
  (n accumulator : Z) :
  0 <= n ->
  (n * (n + 1)) / 2 <= two53 ->
  accumulator + (n * (n + 1)) / 2 <= two53 ->
  Z.min n 50000 <= Z.of_nat depth ->
  (0 <= accumulator ->
   SumTs.sum_to_n_c_optimized depth (of_Z n) (Some (of_Z accumulator))
   = Returns (Finite (accumulator + (n * (n + 1)) / 2))) /\
  (- two53 <= accumulator ->
   SumJs.sum_to_n_c_optimized depth n (Finite accumulator)
   = Returns (Finite (accumulator + (n * (n + 1)) / 2))).
Proof.
  intros Hn Hsum Hle Hdepth. split.
  - intros Ha. unfold SumTs.sum_to_n_c_optimized.
    assert (Hd : SumTs.default_accumulator (Some (of_Z accumulator))
                 = of_Z accumulator) by reflexivity.
    rewrite Hd.
    assert (Hg : forall z, 0 <= z ->
                   negb (Number_isInteger (of_Z z)) || lt_zero (of_Z z) = false).
    { intros z Hz. now apply guard_false_iff, nonneg_integer_of_Z. }
    rewrite !Hg, !to_Z_of_Z by trivial.
    now apply ts_c_optimized_int_closed_form.
  - intros Ha. apply js_c_optimized_closed_form; trivial.
    pose proof (closed_form_twice n).
    assert (0 <= (n * (n + 1)) / 2) by (apply Z.div_pos; nia).
    lia.
Qed.

Lemma sum_to_n_c_optimized_adds_to_accumulator_sample :
  SumTs.sum_to_n_c_optimized 4 (of_Z 4) (Some (of_Z 5))
  = Returns (Finite (5 + (4 * (4 + 1)) / 2)) /\
  SumJs.sum_to_n_c_optimized 4 4 (Finite (-5))
  = Returns (Finite (-5 + (4 * (4 + 1)) / 2)).
Proof.
  assert (Hn : 0 <= 4) by lia.
  assert (Hsum : (4 * (4 + 1)) / 2 <= two53) by (vm_compute; discriminate).
  assert (Hdepth : Z.min 4 50000 <= Z.of_nat 4) by (vm_compute; discriminate).
  split.
  - assert (Hle : 5 + (4 * (4 + 1)) / 2 <= two53) by (vm_compute; discriminate).
    apply (proj1 (sum_to_n_c_optimized_adds_to_accumulator 4 4 5 Hn Hsum Hle
                    Hdepth)).
    lia.
  - assert (Hle : -5 + (4 * (4 + 1)) / 2 <= two53) by (vm_compute; discriminate).
    apply (proj2 (sum_to_n_c_optimized_adds_to_accumulator 4 4 (-5) Hn Hsum Hle
                    Hdepth)).
    vm_compute. discriminate.
Defined.

(** X24.  [measurePerformance] never lets the error of a measured sum
    function escape.  For a non-negative integer up to 134217727 and with
    room on the call stack for the recursion it reports the sum and the
    elapsed time with no error, whichever of the four functions it
    measures; for an input that is not a non-negative integer it reports
    the validation message with result 0 and time 0; and when the
    tail-recursive function finds no room on the call stack, which up to
    50000 nothing prevents, it reports the engine's message with result 0
    and time 0. *)
Theorem measurePerformance_captures_errors (start finish : Q)
  (label : string) (depth : nat) :
  (forall n, 0 <= n -> n <= 134217727 -> Z.min n 50000 <= Z.of_nat depth ->
     let measured := Some (mkBenchmark label (finish - start)
                             (Finite ((n * (n + 1)) / 2)) None) in
     measurePerformance start finish (fun _ => SumTs.sum_to_n_a (of_Z n)) label
     = measured /\
     measurePerformance start finish (fun _ => SumTs.sum_to_n_b (of_Z n)) label
     = measured /\
     measurePerformance start finish
       (fun _ => SumTs.sum_to_n_c depth (of_Z n)) label
     = measured /\
     measurePerformance start finish
       (fun _ => SumTs.sum_to_n_c_optimized depth (of_Z n) None) label
     = measured) /\
  (forall v, ~ nonneg_integer v ->
     let refused := Some (mkBenchmark label 0 (Finite 0) (Some SumTs.msg_input)) in
     measurePerformance start finish (fun _ => SumTs.sum_to_n_a v) label
     = refused /\
     measurePerformance start finish (fun _ => SumTs.sum_to_n_b v) label
     = refused /\
     measurePerformance start finish (fun _ => SumTs.sum_to_n_c depth v) label
     = refused /\
     measurePerformance start finish
       (fun _ => SumTs.sum_to_n_c_optimized depth v None) label
     = refused) /\
  (forall n, Z.of_nat depth < n -> n <= 50000 ->
     measurePerformance start finish
       (fun _ => SumTs.sum_to_n_c_optimized depth (of_Z n) None) label
     = Some (mkBenchmark label 0 (Finite 0) (Some msg_stack))).
Proof.
  unfold measurePerformance, SumTs.sum_to_n_a, SumTs.sum_to_n_b,
    SumTs.sum_to_n_c, SumTs.sum_to_n_c_optimized,
    SumTs.sum_to_n_a_int, SumTs.sum_to_n_b_int.
  cbn [SumTs.default_accumulator].
  assert (Hg : forall z, 0 <= z ->
                 negb (Number_isInteger (of_Z z)) || lt_zero (of_Z z) = false).
  { intros z Hz. now apply guard_false_iff, nonneg_integer_of_Z. }
  rewrite (Hg 0), (to_Z_of_Z 0) by lia.
  split; [| split].
  - intros n Hn Hmax Hdepth. cbv zeta.
    pose proof (closed_form_twice n).
    rewrite Hg, to_Z_of_Z by trivial.
    assert (Hlt : (n <? 0) = false) by lia. rewrite Hlt.
    rewrite for_loop_closed_form, formula_exact, ts_c_int_closed_form,
      ts_c_optimized_int_closed_form by nia53.
    repeat split.
  - intros v Hv. cbv zeta. apply guard_true_iff in Hv. rewrite Hv.
    repeat split.
  - intros n Hdepth Hmax.
    assert (Hn : 0 <= n) by lia.
    pose proof (closed_form_twice n).
    rewrite Hg, to_Z_of_Z by trivial.
    now rewrite ts_c_optimized_int_overflows by nia53.
Qed.

Lemma measurePerformance_captures_errors_sample :
  measurePerformance 0 1 (fun _ => SumTs.sum_to_n_a (of_Z 5)) "Method A"
  = Some (mkBenchmark "Method A" (1 - 0) (Finite ((5 * (5 + 1)) / 2)) None) /\
  measurePerformance 0 1 (fun _ => SumTs.sum_to_n_a (Str "string")) "Method A"
  = Some (mkBenchmark "Method A" 0 (Finite 0) (Some SumTs.msg_input)) /\
  measurePerformance 0 1
    (fun _ => SumTs.sum_to_n_c_optimized 10 (of_Z 15) None) "Method A"
  = Some (mkBenchmark "Method A" 0 (Finite 0) (Some msg_stack)).
Proof.
  destruct (measurePerformance_captures_errors 0 1 "Method A" 10)
    as (Hgood & Hbad & Hstack).
  split; [| split].
  - apply (Hgood 5); [lia | lia | vm_compute; discriminate].
  - apply (Hbad (Str "string")). intros (q & z & H & _). discriminate.
  - apply (Hstack 15); [vm_compute; reflexivity | lia].
Defined.

End SumMoreClaims.

(** ** Wallet page: properties of the list it renders *)

Module WalletFacts.
Import Wallet.

Lemma getPriority_supported (chain : string) :
  -99 < getPriority chain <-> chain ∈ supported.
Proof.
  unfold getPriority, supported.
  rewrite !elem_of_cons, elem_of_nil.
  repeat match goal with
         | |- context [String.eqb chain ?name] =>
             destruct (String.eqb_spec chain name);
             [split; intros _; [auto 10 | reflexivity] |]
         end.
  split; [lia | intuition congruence].
Qed.

Lemma shown_spec (b : WalletBalance) :
  shown b = true <-> blockchain b ∈ supported /\ (0 < amount b)%Q.
Proof.
  unfold shown. rewrite andb_true_iff, negb_true_iff, <- getPriority_supported.
  rewrite Z.gtb_lt. 
  assert (Hq : Qle_bool (amount b) 0 = false <-> (0 < amount b)%Q).
  { destruct (Qle_bool (amount b) 0) eqn:E.
    - apply Qle_bool_iff in E. split; [discriminate |].
      intros H. exfalso. apply (Qlt_not_le _ _ H E).
    - split; [intros _ | reflexivity].
      apply Qnot_le_lt. intros H. apply Qle_bool_iff in H. congruence. }
  now rewrite Hq.
Qed.

Lemma by_priority_le (x y : WalletBalance) :
  by_priority x y <= 0 <-> not_after x y.
Proof.
  unfold by_priority, not_after.
  destruct (Z.gtb_spec (getPriority (blockchain x)) (getPriority (blockchain y)));
    [lia |].
  destruct (Z.gtb_spec (getPriority (blockchain y)) (getPriority (blockchain x)));
    lia.
Qed.

Lemma insert_before_Permutation {A} (compare : A -> A -> Z) x l :
  insert_before compare x l ≡ₚ x :: l.
Proof.
  induction l as [| y l IH]; cbn; [reflexivity |].
  destruct (compare x y <=? 0); [reflexivity |].
  rewrite IH. apply Permutation_swap.
Qed.

Lemma Array_sort_Permutation {A} (compare : A -> A -> Z) l :
  Array_sort compare l ≡ₚ l.
Proof.
  induction l as [| x l IH]; cbn; [reflexivity |].
  unfold Array_sort in IH.
  now rewrite insert_before_Permutation, IH.
Qed.

Lemma insert_before_sorted x l :
  StronglySorted not_after l ->
  StronglySorted not_after (insert_before by_priority x l).
Proof.
  induction 1 as [| y l Hs IH Hy]; cbn.
  - repeat constructor.
  - destruct (Z.leb_spec (by_priority x y) 0) as [Hle | Hgt].
    + apply by_priority_le in Hle.
      constructor; [now constructor |].
      constructor; [exact Hle |].
      eapply Forall_impl; [exact Hy |].
      unfold not_after in *. intros z Hz. lia.
    + constructor; [exact IH |].
      rewrite insert_before_Permutation. constructor; [| exact Hy].
      unfold not_after.
      assert (~ not_after x y) by (rewrite <- by_priority_le; lia).
      unfold not_after in *. lia.
Qed.

Lemma Array_sort_sorted l : StronglySorted not_after (Array_sort by_priority l).
Proof.
  induction l as [| x l IH]; cbn; [constructor |].
  now apply insert_before_sorted.
Qed.

Lemma insert_before_same_priority p x l :
  filter (same_priority p) (insert_before by_priority x l)
  = filter (same_priority p) (x :: l).
Proof.
  induction l as [| y l IH]; cbn; [reflexivity |].
  destruct (Z.leb_spec (by_priority x y) 0) as [Hle | Hgt]; [reflexivity |].
  assert (Hxy : getPriority (blockchain x) < getPriority (blockchain y)).
  { assert (~ not_after x y) by (rewrite <- by_priority_le; lia).
    unfold not_after in *. lia. }
  rewrite (filter_cons _ y), IH, !filter_cons.
  unfold same_priority.
  repeat case_decide; try reflexivity; lia.
Qed.

Lemma Array_sort_same_priority p l :
  filter (same_priority p) (Array_sort by_priority l) = filter (same_priority p) l.
Proof.
  induction l as [| x l IH]; cbn; [reflexivity |].
  unfold Array_sort in IH.
  now rewrite insert_before_same_priority, !filter_cons, IH.
Qed.

End WalletFacts.

Section WalletClaims.
Import Wallet WalletFacts.

(** X25.  The wallet page lists exactly the balances of a supported chain
    with a positive amount, each as often as it is given, in order of
    falling priority. *)
Theorem sortedBalances_supported_positive_by_priority
  (balances : list WalletBalance) :
  (forall b, b ∈ sortedBalances balances <->
             b ∈ balances /\ blockchain b ∈ supported /\ (0 < amount b)%Q) /\
  sortedBalances balances ≡ₚ filter (fun b => shown b = true) balances /\
  StronglySorted not_after (sortedBalances balances).
Proof.
  unfold sortedBalances. split; [| split].
  - intros b. rewrite Array_sort_Permutation, list_elem_of_filter, shown_spec.
    tauto.
  - apply Array_sort_Permutation.
  - apply Array_sort_sorted.
Qed.

(** X26.  Sorting is stable: the shown balances of one priority (so also
    those of one chain, and Zilliqa's and Neo's among each other) keep
    the order in which they were given. *)
Theorem sortedBalances_keep_order_within_priority
  (balances : list WalletBalance) (p : Z) :
  filter (same_priority p) (sortedBalances balances)
  = filter (same_priority p) (filter (fun b => shown b = true) balances).
Proof. apply Array_sort_same_priority. Qed.

End WalletClaims.
